(** * cc-bridge: routing, session lifecycle and access control

    A shallow embedding of the TypeScript sources

    - class [Router] with the chat-key codec (module [core/router])
    - class [SessionManager]                 (module [core/session-manager])
    - class [BridgeDatabase]                 (module [db/sqlite])
    - class [PairingManager]                 (module [security/pairing])
    - class [AllowlistManager]               (module [security/allowlist])

    Conventions of the embedding.

    - A JavaScript string is the [string] of its code units, for strings
      whose code units are all below 256; such a code unit is the code
      point of the same number (Latin-1), written ["196"%char] for U+00C4.
      [toLowerCase] is the Unicode mapping on that range. So is
      [toUpperCase], except on U+00B5 and U+00FF, whose upper-case forms
      lie outside the range: statements that upper-case a text are about
      texts without these two code units.
    - [undefined]/[null] is [None]; a JavaScript truthiness test on an
      optional string is [truthy] (present and not the empty string).
    - [new Date()] and the random sources are explicit arguments: a clock
      reading is a [Z] (milliseconds since the epoch) of a year from 0000
      to 9999.
    - SQLite stores an instant as the text [Date.prototype.toISOString]
      gives ([JsDate.toISOString]) and compares such texts byte by byte.
      The columns [created_at], [last_active] and [added_at] only hold
      clock readings, for which the order of the texts is the order of the
      time values; they are kept, and ordered, as [Z]. The column
      [expires_at] holds a clock reading plus an offset the caller
      chooses; it is kept as [Z], the text is what [toISOString] makes of
      it, and every SQL comparison on it is the comparison of the texts
      ([Db.text_lt]). Reading the column back with [new Date(text)] gives
      the time value again.
    - A function that may [throw] returns a [result]. *)

From Stdlib Require Import ZArith Ascii String List Bool Lia.
From stdpp Require Import base option list strings pretty gmap fin_maps sorting.

Local Open Scope string_scope.
Local Open Scope Z_scope.

(** ** Errors *)

Inductive result (A : Type) : Type :=
| Ok (a : A)
| Throw (message : string).
Arguments Ok {A} a.
Arguments Throw {A} message.

(** ** JavaScript string primitives *)

Module Js.

(** [if (s)] for an optional string: [undefined] and [""] are falsy. *)
Definition truthy (o : option string) : bool :=
  match o with
  | Some s => negb (String.eqb s "")
  | None => false
  end.

(** [o || d] on optional strings with a string default. *)
Definition or_else (o : option string) (d : string) : string :=
  match o with
  | Some s => if String.eqb s "" then d else s
  | None => d
  end.

(** *** Case mapping

    A code unit below 256 is the code point of the same number (the
    Latin-1 range of Unicode). The upper-case letters of the range are
    A-Z, U+00C0-U+00D6 and U+00D8-U+00DE; each has its lower-case form 32
    above. *)
Definition is_upper_letter (n : nat) : bool :=
  ((65 <=? n)%nat && (n <=? 90)%nat)
  || ((192 <=? n)%nat && (n <=? 214)%nat)
  || ((216 <=? n)%nat && (n <=? 222)%nat).

Definition is_lower_letter (n : nat) : bool :=
  ((97 <=? n)%nat && (n <=? 122)%nat)
  || ((224 <=? n)%nat && (n <=? 246)%nat)
  || ((248 <=? n)%nat && (n <=? 254)%nat).

Definition lower_unit (c : ascii) : ascii :=
  let n := nat_of_ascii c in
  if is_upper_letter n then ascii_of_nat (n + 32) else c.

Definition upper_unit (c : ascii) : ascii :=
  let n := nat_of_ascii c in
  if is_lower_letter n then ascii_of_nat (n - 32) else c.

Fixpoint map_string (f : ascii -> ascii) (s : string) : string :=
  match s with
  | EmptyString => EmptyString
  | String c r => String (f c) (map_string f r)
  end.

(** [s.toLowerCase()]: no other code unit of the range has a lower-case
    form. *)
Definition toLowerCase : string -> string := map_string lower_unit.

(** [s.toUpperCase()]: U+00DF (sharp s) becomes "SS". The upper-case forms
    of U+00B5 (micro sign) and U+00FF (y with diaeresis) are U+039C and
    U+0178, outside the range; these two code units are kept as they
    are. *)
Fixpoint toUpperCase (s : string) : string :=
  match s with
  | EmptyString => EmptyString
  | String c r =>
      if Ascii.eqb c "223"%char then String "S"%char (String "S"%char (toUpperCase r))
      else String (upper_unit c) (toUpperCase r)
  end.

(** [s.startsWith(p)] *)
Fixpoint startsWith (s p : string) {struct p} : bool :=
  match p with
  | EmptyString => true
  | String a p' =>
      match s with
      | EmptyString => false
      | String b s' => Ascii.eqb a b && startsWith s' p'
      end
  end.

(** [s.slice(0, n)] *)
Definition slice0 (n : nat) (s : string) : string := String.substring 0 n s.

(** [s.split(sep)] for a one-character separator: never the empty list. *)
Fixpoint split (sep : ascii) (s : string) : list string :=
  match s with
  | EmptyString => [EmptyString]
  | String c r =>
      if Ascii.eqb c sep then EmptyString :: split sep r
      else match split sep r with
           | p :: ps => String c p :: ps
           | [] => [String c EmptyString]
           end
  end.

(** [parts.join(sep)] *)
Fixpoint join (sep : string) (parts : list string) : string :=
  match parts with
  | [] => EmptyString
  | [p] => p
  | p :: ps => p +:+ sep +:+ join sep ps
  end.

(** *** [!isNaN(Number(s))]

    [Number] applied to a string parses it with the grammar
    [StringNumericLiteral] of ECMA-262 and yields [NaN] exactly when the
    parse fails. *)

Definition is_digit (c : ascii) : bool :=
  let n := nat_of_ascii c in (48 <=? n)%nat && (n <=? 57)%nat.

Definition is_bin_digit (c : ascii) : bool :=
  let n := nat_of_ascii c in (48 <=? n)%nat && (n <=? 49)%nat.

Definition is_oct_digit (c : ascii) : bool :=
  let n := nat_of_ascii c in (48 <=? n)%nat && (n <=? 55)%nat.

Definition is_hex_digit (c : ascii) : bool :=
  let n := nat_of_ascii c in
  is_digit c || ((65 <=? n)%nat && (n <=? 70)%nat)
             || ((97 <=? n)%nat && (n <=? 102)%nat).

(** TAB, LF, VT, FF, CR, SP, NBSP *)
Definition is_str_whitespace (c : ascii) : bool :=
  let n := nat_of_ascii c in
  ((9 <=? n)%nat && (n <=? 13)%nat) || (n =? 32)%nat || (n =? 160)%nat.

Fixpoint drop_while (p : ascii -> bool) (l : list ascii) : list ascii :=
  match l with
  | c :: r => if p c then drop_while p r else l
  | [] => []
  end.

Fixpoint span (p : ascii -> bool) (l : list ascii) : list ascii * list ascii :=
  match l with
  | c :: r => if p c then let '(a, b) := span p r in (c :: a, b) else ([], l)
  | [] => ([], [])
  end.

Definition trim (l : list ascii) : list ascii :=
  rev (drop_while is_str_whitespace (rev (drop_while is_str_whitespace l))).

Definition null (l : list ascii) : bool :=
  match l with [] => true | _ => false end.

Definition nonempty_all (p : ascii -> bool) (l : list ascii) : bool :=
  match l with
  | [] => false
  | _ => forallb p l
  end.

Definition is_sign (c : ascii) : bool :=
  Ascii.eqb c "+"%char || Ascii.eqb c "-"%char.

(** [ExponentPart_opt] followed by the end of the input. *)
Definition exponent_part_opt (l : list ascii) : bool :=
  match l with
  | [] => true
  | e :: r =>
      (Ascii.eqb e "e"%char || Ascii.eqb e "E"%char) &&
      match r with
      | s :: r' => if is_sign s then nonempty_all is_digit r'
                   else nonempty_all is_digit r
      | [] => false
      end
  end.

Definition str_unsigned_decimal_literal (l : list ascii) : bool :=
  if String.eqb (string_of_list_ascii l) "Infinity" then true
  else
    let '(ds, r) := span is_digit l in
    match r with
    | c :: r' =>
        if Ascii.eqb c "."%char then
          let '(fs, r'') := span is_digit r' in
          (negb (null ds) || negb (null fs)) && exponent_part_opt r''
        else negb (null ds) && exponent_part_opt r
    | [] => negb (null ds)
    end.

Definition str_decimal_literal (l : list ascii) : bool :=
  match l with
  | s :: r => if is_sign s then str_unsigned_decimal_literal r
              else str_unsigned_decimal_literal l
  | [] => false
  end.

Definition non_decimal_integer_literal (l : list ascii) : bool :=
  match l with
  | z :: k :: r =>
      Ascii.eqb z "0"%char &&
      (if Ascii.eqb k "b"%char || Ascii.eqb k "B"%char then nonempty_all is_bin_digit r
       else if Ascii.eqb k "o"%char || Ascii.eqb k "O"%char then nonempty_all is_oct_digit r
       else if Ascii.eqb k "x"%char || Ascii.eqb k "X"%char then nonempty_all is_hex_digit r
       else false)
  | _ => false
  end.

(** [!isNaN(Number(s))]: blank input is the number 0. *)
Definition is_numeric (s : string) : bool :=
  match trim (list_ascii_of_string s) with
  | [] => true
  | l => str_decimal_literal l || non_decimal_integer_literal l
  end.

End Js.

(** ** Dates

    [Date] values are time values: milliseconds since 1970-01-01T00:00Z.
    The definitions follow ECMA-262 (Day, TimeWithinDay, DayFromYear,
    InLeapYear, MonthFromTime, DateFromTime, the time-of-day fields) and
    [Date.prototype.toISOString]. ECMA-262 defines [YearFromTime(t)] as the
    largest year whose first day is not after [Day(t)]; [year_and_day]
    computes that year. *)

Module JsDate.

Definition msPerDay : Z := 86400000.

(** A [Date] holds a time value of magnitude at most 8.64e15; every other
    [Date] is invalid. *)
Definition MAX_TIME : Z := 8640000000000000.

Definition valid (t : Z) : bool := (- MAX_TIME <=? t) && (t <=? MAX_TIME).

Definition Day (t : Z) : Z := t / msPerDay.
Definition TimeWithinDay (t : Z) : Z := t mod msPerDay.

(** The day number of the first day of year [y]. *)
Definition DayFromYear (y : Z) : Z :=
  365 * (y - 1970) + (y - 1969) / 4 - (y - 1901) / 100 + (y - 1601) / 400.

Definition InLeapYear (y : Z) : bool :=
  ((y mod 4 =? 0) && negb (y mod 100 =? 0)) || (y mod 400 =? 0).

(** The year a day lies in, and the day within that year (from 0): the
    400-year cycle that starts with 1601 has 146097 days, a century 36524
    and a fourth one 36525, four years 1461, a year 365 and a fourth one
    366. *)
Definition year_and_day (day : Z) : Z * Z :=
  let n := day + 134774 in
  let cycle := n / 146097 in
  let in_cycle := n mod 146097 in
  let century := Z.min (in_cycle / 36524) 3 in
  let in_century := in_cycle - 36524 * century in
  let group := in_century / 1461 in
  let in_group := in_century mod 1461 in
  let year := Z.min (in_group / 365) 3 in
  (1601 + 400 * cycle + 100 * century + 4 * group + year, in_group - 365 * year).

Definition YearFromTime (t : Z) : Z := (year_and_day (Day t)).1.
Definition DayWithinYear (t : Z) : Z := (year_and_day (Day t)).2.

Definition month_lengths (leap : bool) : list Z :=
  [31; if leap then 29 else 28; 31; 30; 31; 30; 31; 31; 30; 31; 30; 31].

(** The month (counted from [month]) and the day of the month (from 1) of
    the day [day] of a run of months with the given lengths. *)
Fixpoint month_and_date (lengths : list Z) (month : Z) (day : Z) : Z * Z :=
  match lengths with
  | [] => (month, day + 1)
  | len :: rest =>
      if day <? len then (month, day + 1)
      else month_and_date rest (month + 1) (day - len)
  end.

Definition MonthFromTime (t : Z) : Z :=
  (month_and_date (month_lengths (InLeapYear (YearFromTime t))) 1 (DayWithinYear t)).1.
Definition DateFromTime (t : Z) : Z :=
  (month_and_date (month_lengths (InLeapYear (YearFromTime t))) 1 (DayWithinYear t)).2.

Definition HourFromTime (t : Z) : Z := TimeWithinDay t / 3600000.
Definition MinFromTime (t : Z) : Z := (TimeWithinDay t / 60000) mod 60.
Definition SecFromTime (t : Z) : Z := (TimeWithinDay t / 1000) mod 60.
Definition msFromTime (t : Z) : Z := TimeWithinDay t mod 1000.

Definition digit (d : Z) : ascii := ascii_of_nat (48 + Z.to_nat d).

(** [n] in decimal, the last [width] digits, zero-padded. *)
Fixpoint pad (width : nat) (n : Z) : string :=
  match width with
  | O => EmptyString
  | S w => pad w (n / 10) +:+ String (digit (n mod 10)) EmptyString
  end.

(** Years 0 to 9999 are written with four digits, all others with a sign
    and six digits. *)
Definition year_text (y : Z) : string :=
  if (0 <=? y) && (y <=? 9999) then pad 4 y
  else (if y <? 0 then "-" else "+") +:+ pad 6 (Z.abs y).

(** [d.toISOString()] of a valid [Date]; on an invalid one the call throws
    a [RangeError], which is for the caller to model. *)
Definition toISOString (t : Z) : string :=
  year_text (YearFromTime t) +:+ "-" +:+ pad 2 (MonthFromTime t) +:+ "-"
  +:+ pad 2 (DateFromTime t) +:+ "T" +:+ pad 2 (HourFromTime t) +:+ ":"
  +:+ pad 2 (MinFromTime t) +:+ ":" +:+ pad 2 (SecFromTime t) +:+ "."
  +:+ pad 3 (msFromTime t) +:+ "Z".

(** The time values [toISOString] writes with a four-digit year:
    0000-01-01T00:00:00.000Z up to 9999-12-31T23:59:59.999Z. *)
Definition four_digit_year (t : Z) : bool :=
  (-62167219200000 <=? t) && (t <? 253402300800000).

End JsDate.

(** ** Core types ([core/types]) *)

(** [ChannelType] is the string-literal union ["telegram" | "discord"]; at
    run time it is a string, and [parseChatKey] casts an arbitrary first
    segment to it, so a channel is a [string] here. *)
Abbreviation ChannelType := string.

Record MCPServerConfig := {
  mcp_name : string;
  mcp_command : option string;
  mcp_args : option (list string);
  mcp_env : option (list (string * string));
  mcp_type : option string;
  mcp_url : option string }.

Record AgentConfig := {
  agent_id : string;
  agent_name : string;
  agent_workspace : string;
  agent_model : option string;
  agent_systemPrompt : option string;
  agent_maxTurns : option Z;
  agent_permissionMode : option string;
  agent_mcpServers : option (list MCPServerConfig);
  agent_tools : option (list string);
  agent_disallowedTools : option (list string) }.

(** [AgentBinding.match] *)
Record BindingMatch := {
  match_channel : option ChannelType;
  match_peer : option string;
  match_group : option string }.

Record AgentBinding := {
  binding_agentId : string;
  binding_match : option BindingMatch }.

Record ChannelConfig := {
  cc_enabled : bool;
  cc_dmPolicy : string;
  cc_allowFrom : option (list string) }.

(** The part of [BridgeConfig] the router and the session manager read. *)
Record BridgeConfig := {
  cfg_agents_list : list AgentConfig;
  cfg_bindings : list AgentBinding }.

Record UserInfo := {
  user_id : string;
  user_username : option string;
  user_displayName : option string;
  user_channel : ChannelType }.

Record IncomingMessage := {
  msg_chatKey : string;
  msg_channel : ChannelType;
  msg_userId : string;
  msg_text : string;
  msg_userInfo : UserInfo;
  msg_isGroup : bool;
  msg_groupId : option string }.

(** ** Router *)

Record Router := {
  agents : gmap string AgentConfig;
  bindings : list AgentBinding;
  defaultAgentId : string }.

(** The result of [parseChatKey]. [id] is typed [string] in the source but
    is [parts[i]], hence [undefined] when the key is too short. *)
Record ParsedChatKey := {
  pk_channel : ChannelType;
  pk_botId : option string;
  pk_id : option string;
  pk_sessionName : option string;
  pk_isGroup : bool }.

(** The [options] argument of [buildChatKey]. *)
Record ChatKeyOptions := {
  opt_botId : option string;
  opt_isGroup : option bool;
  opt_sessionName : option string }.

Module Router.

(** [constructor(config)]: later agents with the same id overwrite earlier
    ones; [config.agents.list[0].id] throws a [TypeError] on an empty list. *)
Definition new (config : BridgeConfig) : result Router :=
  let agents :=
    foldl (fun (m : gmap string AgentConfig) a => <[agent_id a := a]> m) ∅
          (cfg_agents_list config) in
  let defaultBinding :=
    List.find (fun b => match binding_match b with None => true | Some _ => false end)
              (cfg_bindings config) in
  let mk d := {| agents := agents; bindings := cfg_bindings config; defaultAgentId := d |} in
  if Js.truthy (binding_agentId <$> defaultBinding)
  then Ok (mk (default "" (binding_agentId <$> defaultBinding)))
  else match cfg_agents_list config with
       | a :: _ => Ok (mk (agent_id a))
       | [] => Throw "Cannot read properties of undefined (reading 'id')"
       end.

Definition getAgent (r : Router) (agentId : string) : option AgentConfig :=
  agents r !! agentId.

(** [c && c !== v]: the criterion is given (truthy) and differs. *)
Definition mismatch (criterion : option string) (value : option string) : bool :=
  Js.truthy criterion && negb (bool_decide (criterion = value)).

Definition matchesBinding (binding : AgentBinding)
    (channel : ChannelType) (peerId : string) (groupId : option string) : bool :=
  match binding_match binding with
  | None => true
  | Some m =>
      if mismatch (match_channel m) (Some channel) then false
      else if mismatch (match_peer m) (Some peerId) then false
      else if mismatch (match_group m) groupId then false
      else true
  end.

Fixpoint scan (bs : list AgentBinding)
    (channel : ChannelType) (peerId : string) (groupId : option string) : option string :=
  match bs with
  | [] => None
  | binding :: rest =>
      if matchesBinding binding channel peerId groupId
      then Some (binding_agentId binding)
      else scan rest channel peerId groupId
  end.

(** [for (const binding of this.bindings) ...; return this.defaultAgentId] *)
Definition findAgentId (r : Router)
    (channel : ChannelType) (peerId : string) (groupId : option string) : string :=
  default (defaultAgentId r) (scan (bindings r) channel peerId groupId).

Definition routeMessage (r : Router) (message : IncomingMessage) : result AgentConfig :=
  let agentId := findAgentId r (msg_channel message) (msg_userId message) (msg_groupId message) in
  match agents r !! agentId with
  | Some agent => Ok agent
  | None =>
      (* Fallback to default agent *)
      match agents r !! defaultAgentId r with
      | Some defaultAgent => Ok defaultAgent
      | None => Throw "No agent configured for routing"
      end
  end.

Definition parsed (channel : ChannelType) (botId id sessionName : option string)
    (isGroup : bool) : ParsedChatKey :=
  {| pk_channel := channel; pk_botId := botId; pk_id := id;
     pk_sessionName := sessionName; pk_isGroup := isGroup |}.

Definition parseChatKey (chatKey : string) : result ParsedChatKey :=
  let parts := Js.split ":" chatKey in
  if (length parts <? 2)%nat then Throw ("Invalid chat key format: " +:+ chatKey)
  else
    let channel := default "" (parts !! 0%nat) in
    let part (i : nat) : option string := parts !! i in
    if String.eqb channel "telegram" then
      if bool_decide (part 1%nat = Some "group") then
        Ok (parsed channel None (part 2%nat) (part 3%nat) true)
      else if (3 <=? length parts)%nat && bool_decide (part 2%nat = Some "group") then
        Ok (parsed channel (part 1%nat) (part 3%nat) (part 4%nat) true)
      else if (3 <=? length parts)%nat && Js.is_numeric (default "" (part 2%nat)) then
        Ok (parsed channel (part 1%nat) (part 2%nat) (part 3%nat) false)
      else
        Ok (parsed channel None (part 1%nat) (part 2%nat) false)
    else if String.eqb channel "discord" then
      if bool_decide (part 1%nat = Some "channel") then
        Ok (parsed channel None (part 2%nat) (part 3%nat) true)
      else if (3 <=? length parts)%nat && bool_decide (part 2%nat = Some "channel") then
        Ok (parsed channel (part 1%nat) (part 3%nat) (part 4%nat) true)
      else if (3 <=? length parts)%nat then
        Ok (parsed channel (part 1%nat) (part 2%nat) (part 3%nat) false)
      else
        Ok (parsed channel None (part 1%nat) (part 2%nat) false)
    else
      if bool_decide (part 1%nat = Some "group") then
        Ok (parsed channel None (part 2%nat) (part 3%nat) true)
      else
        Ok (parsed channel None (part 1%nat) (part 2%nat) false).

Definition buildChatKey (channel : ChannelType) (id : string)
    (options : option ChatKeyOptions) : string :=
  let parts := [channel] in
  let parts :=
    match options ≫= opt_botId with
    | Some b => if Js.truthy (Some b) then (parts ++ [b])%list else parts
    | None => parts
    end in
  let parts :=
    if default false (options ≫= opt_isGroup)
    then (parts ++ [if String.eqb channel "discord" then "channel" else "group"])%list
    else parts in
  let parts := (parts ++ [id])%list in
  let parts :=
    match options ≫= opt_sessionName with
    | Some s => if Js.truthy (Some s) && negb (String.eqb s "main") then (parts ++ [s])%list else parts
    | None => parts
    end in
  Js.join ":" parts.

End Router.

(** ** BridgeDatabase

    Each SQLite table is a finite map from its primary (or unique) key to
    the remaining columns of the row, so the key constraints of the schema
    hold by construction. *)

(** The non-key columns of [sessions]. *)
Record SessionRow := {
  row_id : Z;
  row_sdk_session_id : string;
  row_workspace : option string;
  row_agent_id : string;
  row_created_at : Z;
  row_last_active : Z;
  row_status : string }.

Record SessionInfo := {
  ses_id : Z;
  ses_chatKey : string;
  ses_sessionName : string;
  ses_sdkSessionId : string;
  ses_workspace : option string;
  ses_agentId : string;
  ses_createdAt : Z;
  ses_lastActive : Z;
  ses_status : string }.

(** The non-key columns of [pairing_requests]. *)
Record PairingRow := {
  prow_chat_key : string;
  prow_user_id : string;
  prow_username : option string;
  prow_display_name : option string;
  prow_channel : ChannelType;
  prow_created_at : Z;
  prow_expires_at : Z }.

Record PairingRequest := {
  pr_code : string;
  pr_chatKey : string;
  pr_userInfo : UserInfo;
  pr_createdAt : Z;
  pr_expiresAt : Z }.

(** The non-key columns of [allowlist]. *)
Record AllowlistRow := {
  arow_added_at : Z;
  arow_added_by : option string }.

Record BridgeDatabase := {
  sessions : gmap (string * string) SessionRow;    (* UNIQUE(chat_key, session_name) *)
  sessions_seq : Z;                                (* AUTOINCREMENT counter *)
  active_sessions : gmap string string;            (* chat_key PRIMARY KEY *)
  pairing_requests : gmap string PairingRow;       (* code PRIMARY KEY *)
  allowlist : gmap string AllowlistRow }.          (* chat_key PRIMARY KEY *)

Module Db.

Definition empty : BridgeDatabase :=
  {| sessions := ∅; sessions_seq := 0; active_sessions := ∅;
     pairing_requests := ∅; allowlist := ∅ |}.

Definition with_sessions (db : BridgeDatabase)
    (s : gmap (string * string) SessionRow) (seq : Z) : BridgeDatabase :=
  {| sessions := s; sessions_seq := seq; active_sessions := active_sessions db;
     pairing_requests := pairing_requests db; allowlist := allowlist db |}.

Definition with_active (db : BridgeDatabase) (a : gmap string string) : BridgeDatabase :=
  {| sessions := sessions db; sessions_seq := sessions_seq db; active_sessions := a;
     pairing_requests := pairing_requests db; allowlist := allowlist db |}.

Definition with_pairing (db : BridgeDatabase) (p : gmap string PairingRow) : BridgeDatabase :=
  {| sessions := sessions db; sessions_seq := sessions_seq db;
     active_sessions := active_sessions db;
     pairing_requests := p; allowlist := allowlist db |}.

Definition with_allowlist (db : BridgeDatabase) (a : gmap string AllowlistRow) : BridgeDatabase :=
  {| sessions := sessions db; sessions_seq := sessions_seq db;
     active_sessions := active_sessions db;
     pairing_requests := pairing_requests db; allowlist := a |}.

(** *** Sessions *)

(** The row-to-[SessionInfo] mapping shared by [getSession] and
    [listSessions]. *)
Definition sessionInfo (key : string * string) (row : SessionRow) : SessionInfo :=
  {| ses_id := row_id row;
     ses_chatKey := key.1;
     ses_sessionName := key.2;
     ses_sdkSessionId := row_sdk_session_id row;
     ses_workspace := row_workspace row;
     ses_agentId := row_agent_id row;
     ses_createdAt := row_created_at row;
     ses_lastActive := row_last_active row;
     ses_status := row_status row |}.

Definition getSession (db : BridgeDatabase) (chatKey sessionName : string) : option SessionInfo :=
  sessionInfo (chatKey, sessionName) <$> sessions db !! (chatKey, sessionName).

(** [ON CONFLICT(chat_key, session_name) DO UPDATE SET sdk_session_id =
    excluded.sdk_session_id, last_active = excluded.last_active] *)
Definition upsert_conflict (old : SessionRow) (sdkSessionId : string) (now : Z) : SessionRow :=
  {| row_id := row_id old;
     row_sdk_session_id := sdkSessionId;
     row_workspace := row_workspace old;
     row_agent_id := row_agent_id old;
     row_created_at := row_created_at old;
     row_last_active := now;
     row_status := row_status old |}.

(** [INSERT INTO sessions ... ON CONFLICT(chat_key, session_name) DO
    UPDATE ...]. The insert draws the next row id from the AUTOINCREMENT
    sequence before the uniqueness check, so the sequence advances also
    when the conflict clause turns the insert into an update. *)
Definition saveSession (db : BridgeDatabase) (now : Z)
    (chatKey sdkSessionId agentId sessionName : string)
    (workspace : option string) : BridgeDatabase :=
  let rowid := sessions_seq db + 1 in
  match sessions db !! (chatKey, sessionName) with
  | Some old =>
      with_sessions db
        (<[(chatKey, sessionName) := upsert_conflict old sdkSessionId now]> (sessions db))
        rowid
  | None =>
      with_sessions db
        (<[(chatKey, sessionName) :=
             {| row_id := rowid;
                row_sdk_session_id := sdkSessionId;
                row_workspace := workspace;
                row_agent_id := agentId;
                row_created_at := now;
                row_last_active := now;
                row_status := "active" |}]> (sessions db))
        rowid
  end.

(** [UPDATE sessions SET last_active = ? WHERE ...] *)
Definition touch (now : Z) (r : SessionRow) : SessionRow :=
  upsert_conflict r (row_sdk_session_id r) now.

Definition updateSessionActivity (db : BridgeDatabase) (now : Z)
    (chatKey sessionName : string) : BridgeDatabase :=
  with_sessions db (alter (touch now) (chatKey, sessionName) (sessions db)) (sessions_seq db).

(** [ORDER BY last_active DESC] *)
Definition by_recency (a b : SessionInfo) : Prop := ses_lastActive b <= ses_lastActive a.

#[global] Instance by_recency_dec (a b : SessionInfo) : Decision (by_recency a b) :=
  decide (ses_lastActive b <= ses_lastActive a).

Definition listSessions (db : BridgeDatabase) (chatKey : string) : list SessionInfo :=
  merge_sort by_recency
    (uncurry sessionInfo <$>
       filter (fun kv : (string * string) * SessionRow => kv.1.1 = chatKey)
              (map_to_list (sessions db))).

Definition deleteSession (db : BridgeDatabase) (chatKey sessionName : string) : BridgeDatabase :=
  with_sessions db (delete (chatKey, sessionName) (sessions db)) (sessions_seq db).

Definition deleteAllSessions (db : BridgeDatabase) (chatKey : string) : BridgeDatabase :=
  with_active
    (with_sessions db
       (filter (fun kv : (string * string) * SessionRow => kv.1.1 ≠ chatKey) (sessions db))
       (sessions_seq db))
    (delete chatKey (active_sessions db)).

(** *** Active sessions *)

Definition getActiveSessionName (db : BridgeDatabase) (chatKey : string) : string :=
  Js.or_else (active_sessions db !! chatKey) "main".

Definition setActiveSession (db : BridgeDatabase) (chatKey sessionName : string) : BridgeDatabase :=
  with_active db (<[chatKey := sessionName]> (active_sessions db)).

(** *** Pairing *)

(** [v || null] *)
Definition or_null (o : option string) : option string :=
  if Js.truthy o then o else None.

(** SQLite's [<] on two instants stored as text: the byte-wise order of
    their ISO-8601 texts. *)
Definition text_lt (a b : Z) : bool :=
  String.ltb (JsDate.toISOString a) (JsDate.toISOString b).

(** The arguments of the [INSERT] are evaluated first:
    [expiresAt.toISOString()] throws a [RangeError] when [now +
    expiresInMs] is not a time value a [Date] can hold. The [INSERT] is a
    plain one: a second row with the same [code] violates the primary key
    and the driver throws. *)
Definition savePairingRequest (db : BridgeDatabase) (now : Z)
    (code chatKey : string) (userInfo : UserInfo) (expiresInMs : Z) : result BridgeDatabase :=
  if negb (JsDate.valid (now + expiresInMs)) then Throw "Invalid time value"
  else
    match pairing_requests db !! code with
    | Some _ => Throw "UNIQUE constraint failed: pairing_requests.code"
    | None =>
        Ok (with_pairing db
              (<[code := {| prow_chat_key := chatKey;
                            prow_user_id := user_id userInfo;
                            prow_username := or_null (user_username userInfo);
                            prow_display_name := or_null (user_displayName userInfo);
                            prow_channel := user_channel userInfo;
                            prow_created_at := now;
                            prow_expires_at := now + expiresInMs |}]> (pairing_requests db)))
    end.

(** The row-to-[PairingRequest] mapping shared by [getPairingRequest] and
    [listPendingPairingRequests]. *)
Definition pairingRequest (code : string) (row : PairingRow) : PairingRequest :=
  {| pr_code := code;
     pr_chatKey := prow_chat_key row;
     pr_userInfo := {| user_id := prow_user_id row;
                       user_username := prow_username row;
                       user_displayName := prow_display_name row;
                       user_channel := prow_channel row |};
     pr_createdAt := prow_created_at row;
     pr_expiresAt := prow_expires_at row |}.

Definition getPairingRequest (db : BridgeDatabase) (code : string) : option PairingRequest :=
  pairingRequest code <$> pairing_requests db !! code.

Definition deletePairingRequest (db : BridgeDatabase) (code : string) : BridgeDatabase :=
  with_pairing db (delete code (pairing_requests db)).

(** [DELETE FROM pairing_requests WHERE expires_at < ?] with
    [new Date().toISOString()] for the parameter, returning
    [result.changes]. *)
Definition cleanupExpiredPairingRequests (db : BridgeDatabase) (now : Z) : Z * BridgeDatabase :=
  let kept := filter (fun kv : string * PairingRow =>
                        text_lt (prow_expires_at kv.2) now = false)
                     (pairing_requests db) in
  (Z.of_nat (size (pairing_requests db)) - Z.of_nat (size kept), with_pairing db kept).

(** [ORDER BY created_at DESC] *)
Definition newest_first (a b : PairingRequest) : Prop := pr_createdAt b <= pr_createdAt a.

#[global] Instance newest_first_dec (a b : PairingRequest) : Decision (newest_first a b) :=
  decide (pr_createdAt b <= pr_createdAt a).

(** [SELECT * FROM pairing_requests WHERE expires_at > ? ORDER BY created_at
    DESC] with [new Date().toISOString()] for the parameter. *)
Definition listPendingPairingRequests (db : BridgeDatabase) (now : Z) : list PairingRequest :=
  merge_sort newest_first
    (uncurry pairingRequest <$>
       filter (fun kv : string * PairingRow => text_lt now (prow_expires_at kv.2) = true)
              (map_to_list (pairing_requests db))).

(** *** Allowlist *)

Definition isAllowed (db : BridgeDatabase) (chatKey : string) : bool :=
  bool_decide (is_Some (allowlist db !! chatKey)).

(** [INSERT OR IGNORE] *)
Definition addToAllowlist (db : BridgeDatabase) (now : Z)
    (chatKey : string) (addedBy : option string) : BridgeDatabase :=
  match allowlist db !! chatKey with
  | Some _ => db
  | None =>
      with_allowlist db
        (<[chatKey := {| arow_added_at := now; arow_added_by := or_null addedBy |}]>
           (allowlist db))
  end.

Definition removeFromAllowlist (db : BridgeDatabase) (chatKey : string) : BridgeDatabase :=
  with_allowlist db (delete chatKey (allowlist db)).

(** *** Listings *)

Definition listAllSessions (db : BridgeDatabase) : list SessionInfo :=
  merge_sort by_recency (uncurry sessionInfo <$> map_to_list (sessions db)).

Record AllowlistEntry := {
  al_chatKey : string;
  al_addedAt : Z;
  al_addedBy : option string }.

Definition allowlistEntry (chatKey : string) (row : AllowlistRow) : AllowlistEntry :=
  {| al_chatKey := chatKey;
     al_addedAt := arow_added_at row;
     al_addedBy := arow_added_by row |}.

(** [ORDER BY added_at DESC] *)
Definition latest_first (a b : AllowlistEntry) : Prop := al_addedAt b <= al_addedAt a.

#[global] Instance latest_first_dec (a b : AllowlistEntry) : Decision (latest_first a b) :=
  decide (al_addedAt b <= al_addedAt a).

Definition listAllowlist (db : BridgeDatabase) : list AllowlistEntry :=
  merge_sort latest_first (uncurry allowlistEntry <$> map_to_list (allowlist db)).

End Db.

(** ** PairingManager *)

Inductive ApproveResult : Type :=
| ApproveSuccess (chatKey : string) (userInfo : UserInfo)
| ApproveFailure (reason : string).

Module PairingManager.

Definition CODE_LENGTH : nat := 6.
Definition DEFAULT_EXPIRY_MS : Z := 60 * 60 * 1000.

(** [generateCode(chatKey, userInfo, expiresInMs = DEFAULT_EXPIRY_MS)].
    [hex] is [randomBytes(3).toString("hex")]. The expired requests are
    deleted before the new one is saved: when saving throws, the database
    is the one the clean-up left. *)
Definition generateCode (db : BridgeDatabase) (now : Z) (hex : string)
    (chatKey : string) (userInfo : UserInfo) (expiresInMs : option Z)
    : result string * BridgeDatabase :=
  let db := (Db.cleanupExpiredPairingRequests db now).2 in
  let code := Js.slice0 CODE_LENGTH (Js.toUpperCase hex) in
  match Db.savePairingRequest db now code chatKey userInfo
          (default DEFAULT_EXPIRY_MS expiresInMs) with
  | Ok db => (Ok code, db)
  | Throw e => (Throw e, db)
  end.

Definition approve (db : BridgeDatabase) (now : Z) (code : string)
    : ApproveResult * BridgeDatabase :=
  match Db.getPairingRequest db (Js.toUpperCase code) with
  | None => (ApproveFailure "Invalid or expired pairing code", db)
  | Some request =>
      if bool_decide (pr_expiresAt request < now) then
        let db := Db.deletePairingRequest db code in
        (ApproveFailure "Pairing code has expired", db)
      else
        let db := Db.addToAllowlist db now (pr_chatKey request) (Some ("pairing:" +:+ code)) in
        let db := Db.deletePairingRequest db code in
        (ApproveSuccess (pr_chatKey request) (pr_userInfo request), db)
  end.

Definition getRequest (db : BridgeDatabase) (now : Z) (code : string) : option PairingRequest :=
  match Db.getPairingRequest db (Js.toUpperCase code) with
  | Some request => if bool_decide (pr_expiresAt request < now) then None else Some request
  | None => None
  end.

Definition listPending (db : BridgeDatabase) (now : Z) : list PairingRequest :=
  Db.listPendingPairingRequests db now.

Definition reject (db : BridgeDatabase) (code : string) : bool * BridgeDatabase :=
  match Db.getPairingRequest db (Js.toUpperCase code) with
  | None => (false, db)
  | Some _ => (true, Db.deletePairingRequest db code)
  end.

Definition cleanup (db : BridgeDatabase) (now : Z) : Z * BridgeDatabase :=
  Db.cleanupExpiredPairingRequests db now.

End PairingManager.

(** ** AllowlistManager *)

Record AccessDecision := {
  allowed : bool;
  reason : option string }.

Module AllowlistManager.

Definition allow : AccessDecision := {| allowed := true; reason := None |}.
Definition deny (why : string) : AccessDecision := {| allowed := false; reason := Some why |}.

(** The predicate of [config.allowFrom.some(...)]. *)
Definition entry_matches (userInfo : UserInfo) (entry : string) : bool :=
  String.eqb entry (user_id userInfo)
  || bool_decide (Some entry = user_username userInfo)
  || (Js.truthy (user_username userInfo)
      && bool_decide (Some (Js.toLowerCase entry) = Js.toLowerCase <$> user_username userInfo)).

Definition isInConfigAllowlist (userInfo : UserInfo) (config : ChannelConfig) : bool :=
  match cc_allowFrom config with
  | None => false
  | Some [] => false
  | Some allowFrom => existsb (entry_matches userInfo) allowFrom
  end.

Definition isAllowed (db : BridgeDatabase) (chatKey : string) (userInfo : UserInfo)
    (channelConfig : option ChannelConfig) : AccessDecision :=
  match channelConfig with
  | None => deny "Channel not configured"
  | Some channelConfig =>
      if negb (cc_enabled channelConfig) then deny "Channel is disabled"
      else
        let policy := cc_dmPolicy channelConfig in
        if String.eqb policy "open" then allow
        else if String.eqb policy "pairing" then
          if Db.isAllowed db chatKey then allow
          else if isInConfigAllowlist userInfo channelConfig then allow
          else deny "Pairing required"
        else if String.eqb policy "allowlist" then
          if Db.isAllowed db chatKey then allow
          else if isInConfigAllowlist userInfo channelConfig then allow
          else deny "Not in allowlist"
        else deny "Unknown policy"
  end.

(** [add], [remove], [check], [list] *)
Definition add (db : BridgeDatabase) (now : Z) (chatKey : string) (addedBy : option string)
    : BridgeDatabase :=
  Db.addToAllowlist db now chatKey addedBy.

Definition remove (db : BridgeDatabase) (chatKey : string) : BridgeDatabase :=
  Db.removeFromAllowlist db chatKey.

Definition check (db : BridgeDatabase) (chatKey : string) : bool :=
  Db.isAllowed db chatKey.

Definition list (db : BridgeDatabase) : list Db.AllowlistEntry :=
  Db.listAllowlist db.

(** [static buildChatKey(channel, userId, isGroup = false, groupId?)] *)
Definition buildChatKey (channel : ChannelType) (userId : string)
    (isGroup : option bool) (groupId : option string) : string :=
  if default false isGroup && Js.truthy groupId
  then channel +:+ ":group:" +:+ default "" groupId
  else channel +:+ ":" +:+ userId.

End AllowlistManager.

(** ** The agent-execution port (Agent SDK [query])

    [query({prompt, options})] returns an async iterable of [SDKMessage]s.
    One run of it is the list of events it delivered and, when it ended by
    raising, the message of the error raised after them. *)

Inductive ContentBlock : Type :=
| TextBlock (text : string)
| ToolUseBlock (name : string)
| OtherBlock.

Inductive SDKMessage : Type :=
| AssistantMessage (content : option (list ContentBlock))
| ResultMessage (session_id : string)
| OtherMessage.

Inductive McpServerEntry : Type :=
| McpSse (url : string)
| McpStdio (command : string) (args : list string) (env : option (list (string * string))).

Record Options := {
  o_model : option string;
  o_cwd : string;
  o_permissionMode : string;
  o_maxTurns : Z;
  o_systemPrompt : option string;
  o_resume : option string;
  o_allowedTools : option (list string);
  o_disallowedTools : option (list string);
  o_mcpServers : option (gmap string McpServerEntry) }.

Record SdkRun := {
  run_events : list SDKMessage;
  run_error : option string }.

Definition Query : Type := string -> Options -> SdkRun.

(** ** SessionManager *)

Record SendMessageOptions := {
  smo_agentId : option string;
  smo_sessionName : option string }.

Inductive StreamChunk : Type :=
| ChunkText (text : string)
| ChunkToolUse (toolName : string)
| ChunkToolResult
| ChunkError (error : string)
| ChunkDone.

Record CachedSession := {
  cs_id : string;
  cs_agentConfig : AgentConfig;
  cs_chatKey : string;
  cs_sessionName : string }.

Record SessionManager := {
  sm_db : BridgeDatabase;
  sm_router : Router;
  sm_activeSessions : gmap string CachedSession }.

(** What one complete consumption of the [sendMessage] generator does:
    the chunks yielded in order, the error with which the generator itself
    rejected (if any), the call made to the port (if any) and the manager
    afterwards. *)
Record Turn := {
  turn_chunks : list StreamChunk;
  turn_thrown : option string;
  turn_query : option (string * Options);
  turn_after : SessionManager }.

Module SessionManager.

Definition new (config : BridgeConfig) (db : BridgeDatabase) : result SessionManager :=
  match Router.new config with
  | Ok r => Ok {| sm_db := db; sm_router := r; sm_activeSessions := ∅ |}
  | Throw e => Throw e
  end.

Definition with_db (sm : SessionManager) (db : BridgeDatabase) : SessionManager :=
  {| sm_db := db; sm_router := sm_router sm; sm_activeSessions := sm_activeSessions sm |}.

Definition with_cache (sm : SessionManager) (db : BridgeDatabase)
    (c : gmap string CachedSession) : SessionManager :=
  {| sm_db := db; sm_router := sm_router sm; sm_activeSessions := c |}.

(** [sessionName === "main" ? chatKey : `${chatKey}:${sessionName}`] *)
Definition fullKey (chatKey sessionName : string) : string :=
  if String.eqb sessionName "main" then chatKey else chatKey +:+ ":" +:+ sessionName.

(** [`ccb-${Date.now()}-${Math.random().toString(36).slice(2, 8)}`];
    [rnd] is the random suffix. *)
Definition placeholderId (now : Z) (rnd : string) : string :=
  "ccb-" +:+ pretty now +:+ "-" +:+ rnd.

Definition createNewSession (sm : SessionManager) (now : Z) (rnd : string)
    (chatKey : string) (agentConfig : AgentConfig) (sessionName : string)
    : CachedSession * SessionManager :=
  let sessionId := placeholderId now rnd in
  let db := Db.saveSession (sm_db sm) now chatKey sessionId (agent_id agentConfig)
              sessionName (Some (agent_workspace agentConfig)) in
  let session := {| cs_id := sessionId; cs_agentConfig := agentConfig;
                    cs_chatKey := chatKey; cs_sessionName := sessionName |} in
  (session, with_cache sm db (<[fullKey chatKey sessionName := session]> (sm_activeSessions sm))).

Definition getOrCreateSession (sm : SessionManager) (now : Z) (rnd : string)
    (chatKey : string) (agentConfig : AgentConfig) (sessionName : option string)
    : CachedSession * SessionManager :=
  let sessionName := default "main" sessionName in
  match sm_activeSessions sm !! fullKey chatKey sessionName with
  | Some cached => (cached, sm)
  | None =>
      match Db.getSession (sm_db sm) chatKey sessionName with
      | Some existingSession =>
          let session := {| cs_id := ses_sdkSessionId existingSession;
                            cs_agentConfig := agentConfig;
                            cs_chatKey := chatKey; cs_sessionName := sessionName |} in
          (session,
           with_cache sm (Db.updateSessionActivity (sm_db sm) now chatKey sessionName)
             (<[fullKey chatKey sessionName := session]> (sm_activeSessions sm)))
      | None => createNewSession sm now rnd chatKey agentConfig sessionName
      end
  end.

Fixpoint first_chunk (content : list ContentBlock) : option StreamChunk :=
  match content with
  | [] => None
  | TextBlock text :: _ => Some (ChunkText text)
  | ToolUseBlock name :: _ => Some (ChunkToolUse name)
  | OtherBlock :: rest => first_chunk rest
  end.

Definition processSDKMessage (event : SDKMessage) : option StreamChunk :=
  match event with
  | AssistantMessage (Some content) => first_chunk content
  | _ => None
  end.

Definition mcpEntry (server : MCPServerConfig) : McpServerEntry :=
  if bool_decide (mcp_type server = Some "sse") && Js.truthy (mcp_url server)
  then McpSse (default "" (mcp_url server))
  else McpStdio (Js.or_else (mcp_command server) "") (default [] (mcp_args server))
                (mcp_env server).

Definition nonempty_list {A} (o : option (list A)) : option (list A) :=
  match o with
  | Some (x :: l) => Some (x :: l)
  | _ => None
  end.

Definition newline : string := String (ascii_of_nat 10) EmptyString.

Definition systemParts (agent : AgentConfig) (message : IncomingMessage) : list string :=
  ((if Js.truthy (agent_systemPrompt agent) then [default "" (agent_systemPrompt agent)] else [])
   ++ ["User info: "
       +:+ Js.or_else (user_displayName (msg_userInfo message))
             (Js.or_else (user_username (msg_userInfo message)) (msg_userId message))
       +:+ " via " +:+ msg_channel message])%list.

(** [resumeSessionId && !resumeSessionId.startsWith("ccb-")] *)
Definition resumable (resumeSessionId : option string) : bool :=
  Js.truthy resumeSessionId && negb (Js.startsWith (default "" resumeSessionId) "ccb-").

Definition queryOptions (agent : AgentConfig) (message : IncomingMessage)
    (resumeSessionId : option string) : Options :=
  {| o_model := agent_model agent;
     o_cwd := agent_workspace agent;
     o_permissionMode := Js.or_else (agent_permissionMode agent) "acceptEdits";
     o_maxTurns := match agent_maxTurns agent with
                   | Some n => if n =? 0 then 10 else n
                   | None => 10
                   end;
     o_systemPrompt := match systemParts agent message with
                       | [] => None
                       | parts => Some (Js.join (newline +:+ newline) parts)
                       end;
     o_resume := if resumable resumeSessionId then resumeSessionId else None;
     o_allowedTools := nonempty_list (agent_tools agent);
     o_disallowedTools := nonempty_list (agent_disallowedTools agent);
     o_mcpServers :=
       match nonempty_list (agent_mcpServers agent) with
       | Some servers =>
           Some (foldl (fun (rec : gmap string McpServerEntry) server =>
                          <[mcp_name server := mcpEntry server]> rec) ∅ servers)
       | None => None
       end |}.

(** The body of [for await (const event of response)]: the chunks yielded
    and the last [session_id] seen in a ["result"] event. *)
Fixpoint stream (events : list SDKMessage) (sessionId : option string)
    : list StreamChunk * option string :=
  match events with
  | [] => ([], sessionId)
  | event :: rest =>
      let sessionId' := match event with
                        | ResultMessage sid => Some sid
                        | _ => sessionId
                        end in
      let '(chunks, final) := stream rest sessionId' in
      (match processSDKMessage event with
       | Some chunk => chunk :: chunks
       | None => chunks
       end, final)
  end.

Definition resolveAgent (sm : SessionManager) (message : IncomingMessage)
    (options : SendMessageOptions) : result (option AgentConfig) :=
  if Js.truthy (smo_agentId options)
  then Ok (Router.getAgent (sm_router sm) (default "" (smo_agentId options)))
  else match Router.routeMessage (sm_router sm) message with
       | Ok agent => Ok (Some agent)
       | Throw e => Throw e
       end.

Definition sendMessage (sm : SessionManager) (now : Z) (query : Query)
    (message : IncomingMessage) (options : SendMessageOptions) : Turn :=
  let sessionName :=
    default (Db.getActiveSessionName (sm_db sm) (msg_chatKey message))
            (smo_sessionName options) in
  match resolveAgent sm message options with
  | Throw e =>
      {| turn_chunks := []; turn_thrown := Some e; turn_query := None; turn_after := sm |}
  | Ok None =>
      {| turn_chunks := [ChunkError ("Unknown agent: " +:+ default "" (smo_agentId options))];
         turn_thrown := None; turn_query := None; turn_after := sm |}
  | Ok (Some agent) =>
      let existingSession := Db.getSession (sm_db sm) (msg_chatKey message) sessionName in
      let resumeSessionId := ses_sdkSessionId <$> existingSession in
      let opts := queryOptions agent message resumeSessionId in
      let response := query (msg_text message) opts in
      let '(chunks, sessionId) := stream (run_events response) resumeSessionId in
      match run_error response with
      | Some errorMessage =>
          {| turn_chunks := (chunks ++ [ChunkError errorMessage])%list;
             turn_thrown := None;
             turn_query := Some (msg_text message, opts);
             turn_after := sm |}
      | None =>
          let db :=
            if Js.truthy sessionId
            then Db.saveSession (sm_db sm) now (msg_chatKey message) (default "" sessionId)
                   (agent_id agent) sessionName (Some (agent_workspace agent))
            else sm_db sm in
          {| turn_chunks := (chunks ++ [ChunkDone])%list;
             turn_thrown := None;
             turn_query := Some (msg_text message, opts);
             turn_after := with_db sm db |}
      end
  end.

Definition switchSession (sm : SessionManager) (chatKey sessionName : string)
    : bool * SessionManager :=
  match Db.getSession (sm_db sm) chatKey sessionName with
  | None => (false, sm)
  | Some _ => (true, with_db sm (Db.setActiveSession (sm_db sm) chatKey sessionName))
  end.

Definition deleteSession (sm : SessionManager) (chatKey : string)
    (sessionName : option string) : SessionManager :=
  let sessionName := default "main" sessionName in
  with_cache sm (Db.deleteSession (sm_db sm) chatKey sessionName)
    (delete (fullKey chatKey sessionName) (sm_activeSessions sm)).

(** [listSessions(chatKey)], [getActiveSessionName(chatKey)] *)
Definition listSessions (sm : SessionManager) (chatKey : string) : list SessionInfo :=
  Db.listSessions (sm_db sm) chatKey.

Definition getActiveSessionName (sm : SessionManager) (chatKey : string) : string :=
  Db.getActiveSessionName (sm_db sm) chatKey.

(** [resetChat(chatKey)]: evict the cache entry of every stored session of
    the chat, then delete the chat's rows. *)
Definition resetChat (sm : SessionManager) (chatKey : string) : SessionManager :=
  let sessions := Db.listSessions (sm_db sm) chatKey in
  let cache :=
    foldl (fun (c : gmap string CachedSession) session =>
             delete (fullKey chatKey (ses_sessionName session)) c)
          (sm_activeSessions sm) sessions in
  with_cache sm (Db.deleteAllSessions (sm_db sm) chatKey) cache.

(** The loop of [sendMessageSync] over the chunks of a turn: non-empty
    text is collected, an [error] chunk is thrown. *)
Fixpoint collect (chunks : list StreamChunk) (texts : list string) : result (list string) :=
  match chunks with
  | [] => Ok texts
  | ChunkText text :: rest =>
      collect rest (if Js.truthy (Some text) then texts ++ [text] else texts)%list
  | ChunkError error :: _ => Throw error
  | _ :: rest => collect rest texts
  end.

(** [sendMessageSync(message, options)]. The generator is consumed up to
    the first [error] chunk or to its end; an [error] chunk is always the
    last thing a turn does, so the manager afterwards is the turn's. *)
Definition sendMessageSync (sm : SessionManager) (now : Z) (query : Query)
    (message : IncomingMessage) (options : SendMessageOptions)
    : result string * SessionManager :=
  let turn := sendMessage sm now query message options in
  (match collect (turn_chunks turn) [] with
   | Throw error => Throw error
   | Ok texts =>
       match turn_thrown turn with
       | Some error => Throw error
       | None => Ok (Js.join "" texts)
       end
   end,
   turn_after turn).

End SessionManager.

(** ** Specification-side predicates

    Predicates that phrase what the design document says, to be compared
    with the functions above. *)

Module Spec.

(** "every criterion it specifies equals the corresponding input field
    (absent criteria always match)", read literally: a criterion is
    specified when the field is present. *)
Definition criterion_equals (criterion value : option string) : Prop :=
  match criterion with
  | Some c => value = Some c
  | None => True
  end.

Definition binding_matches (b : AgentBinding)
    (channel : ChannelType) (peerId : string) (groupId : option string) : Prop :=
  match binding_match b with
  | None => True
  | Some m =>
      criterion_equals (match_channel m) (Some channel)
      /\ criterion_equals (match_peer m) (Some peerId)
      /\ criterion_equals (match_group m) groupId
  end.

(** The same with the reading the router implements: a criterion counts as
    specified when it is present and not the empty string. *)
Definition criterion_given_equals (criterion value : option string) : Prop :=
  match criterion with
  | Some c => c = "" \/ value = Some c
  | None => True
  end.

Definition binding_matches_given (b : AgentBinding)
    (channel : ChannelType) (peerId : string) (groupId : option string) : Prop :=
  match binding_match b with
  | None => True
  | Some m =>
      criterion_given_equals (match_channel m) (Some channel)
      /\ criterion_given_equals (match_peer m) (Some peerId)
      /\ criterion_given_equals (match_group m) groupId
  end.

(** "scan bindings in configured order ... return the first match's
    agentId, or the default agentId if none match", for a notion [matches]
    of matching. *)
Definition first_match_or_default (matches : AgentBinding -> Prop)
    (bs : list AgentBinding) (dflt : string) (answer : string) : Prop :=
  (exists pre b post,
      bs = (pre ++ b :: post)%list
      /\ Forall (fun b' => ~ matches b') pre
      /\ matches b
      /\ answer = binding_agentId b)
  \/ (Forall (fun b' => ~ matches b') bs /\ answer = dflt).

(** The binding list of the design document's example:
    [[{agent:A, match:{channel:"discord"}}, {agent:B}]]. *)
Definition discord_then_default (A B : string) : list AgentBinding :=
  [ {| binding_agentId := A;
       binding_match := Some {| match_channel := Some "discord";
                                match_peer := None; match_group := None |} |};
    {| binding_agentId := B; binding_match := None |} ].

(** The chat-key tuple of the design document:
    [(platform, botId?, isGroup, peerOrGroupId, sessionName?)]. *)
Record ChatKey := {
  ck_platform : ChannelType;
  ck_botId : option string;
  ck_isGroup : bool;
  ck_peerId : string;
  ck_sessionName : option string }.

Definition encode (x : ChatKey) : string :=
  Router.buildChatKey (ck_platform x) (ck_peerId x)
    (Some {| opt_botId := ck_botId x;
             opt_isGroup := Some (ck_isGroup x);
             opt_sessionName := ck_sessionName x |}).

(** The default session name "main" is not written into the key, so it
    reads back as absent. *)
Definition canonical_sessionName (o : option string) : option string :=
  match o with
  | Some s => if String.eqb s "main" then None else Some s
  | None => None
  end.

(** The tuple as [parseChatKey] should give it back. *)
Definition expected (x : ChatKey) : ParsedChatKey :=
  {| pk_channel := ck_platform x;
     pk_botId := ck_botId x;
     pk_id := Some (ck_peerId x);
     pk_sessionName := canonical_sessionName (ck_sessionName x);
     pk_isGroup := ck_isGroup x |}.

Fixpoint contains (c : ascii) (s : string) : bool :=
  match s with
  | EmptyString => false
  | String a r => Ascii.eqb a c || contains c r
  end.

(** A component that can stand between two colons. *)
Definition segment (s : string) : bool :=
  negb (String.eqb s "") && negb (contains ":" s).

Definition opt_segment (o : option string) : bool :=
  match o with
  | Some s => segment s
  | None => true
  end.

(** A valid tuple: one of the two platforms, every component present is
    non-empty and free of colons. *)
Definition valid_tuple (x : ChatKey) : bool :=
  (String.eqb (ck_platform x) "telegram" || String.eqb (ck_platform x) "discord")
  && opt_segment (ck_botId x)
  && segment (ck_peerId x)
  && opt_segment (ck_sessionName x).

(** The group marker of a platform. *)
Definition marker (platform : ChannelType) : string :=
  if String.eqb platform "discord" then "channel" else "group".

(** The tuples whose key the structural lookahead of [parseChatKey] reads
    back as written. *)
Definition decodable (x : ChatKey) : bool :=
  let telegram := String.eqb (ck_platform x) "telegram" in
  let differs (s : string) := negb (String.eqb s (marker (ck_platform x))) in
  match ck_botId x with
  | Some b =>
      differs b
      && (ck_isGroup x
          || (differs (ck_peerId x)
              && (if telegram then Js.is_numeric (ck_peerId x) else true)))
  | None =>
      ck_isGroup x
      || (differs (ck_peerId x)
          && match canonical_sessionName (ck_sessionName x) with
             | None => true
             | Some s => telegram && differs s && negb (Js.is_numeric s)
             end)
  end.

(** A placeholder handle is one the session manager generated itself. *)
Definition is_placeholder (handle : string) : bool := Js.startsWith handle "ccb-".

(** Every stored session row carries a non-empty handle. The session
    manager only ever writes a placeholder or a truthy [session_id], so
    this holds in every database it has produced from an empty one. *)
Definition handles_nonempty (db : BridgeDatabase) : Prop :=
  forall key row, sessions db !! key = Some row -> row_sdk_session_id row <> "".

(** Every stored pairing code is in upper case, which is how
    [generateCode], the only writer of the table, spells it. *)
Definition codes_upper (db : BridgeDatabase) : Prop :=
  forall code row, pairing_requests db !! code = Some row -> Js.toUpperCase code = code.

Definition is_error_chunk (c : StreamChunk) : bool :=
  match c with
  | ChunkError _ => true
  | _ => false
  end.

(** The session name a turn is addressed to: the [sessionName] option, or
    the chat's active session. *)
Definition turn_sessionName (sm : SessionManager) (message : IncomingMessage)
    (options : SendMessageOptions) : string :=
  default (Db.getActiveSessionName (sm_db sm) (msg_chatKey message))
          (smo_sessionName options).

(** The [session_id] of the last ["result"] event of a run, if any. *)
Fixpoint last_result (events : list SDKMessage) : option string :=
  match events with
  | [] => None
  | ResultMessage sid :: rest =>
      match last_result rest with
      | Some later => Some later
      | None => Some sid
      end
  | _ :: rest => last_result rest
  end.

(** All text carried by the chunks of a turn, in order. *)
Fixpoint chunk_text (chunks : list StreamChunk) : string :=
  match chunks with
  | [] => ""
  | ChunkText text :: rest => text +:+ chunk_text rest
  | _ :: rest => chunk_text rest
  end.

Definition is_done_chunk (c : StreamChunk) : bool :=
  match c with
  | ChunkDone => true
  | _ => false
  end.

(** Every code unit of the text satisfies [p]. *)
Fixpoint all_chars (p : ascii -> bool) (s : string) : bool :=
  match s with
  | EmptyString => true
  | String c r => p c && all_chars p r
  end.

(** An upper-case letter of the Latin-1 range: A-Z, U+00C0-U+00D6,
    U+00D8-U+00DE. *)
Definition upper_case_letter (c : ascii) : bool :=
  let n := nat_of_ascii c in
  ((65 <=? n)%nat && (n <=? 90)%nat)
  || ((192 <=? n)%nat && (n <=? 214)%nat)
  || ((216 <=? n)%nat && (n <=? 222)%nat).

(** A text without upper-case letters. *)
Definition no_upper_case (s : string) : bool :=
  all_chars (fun c => negb (upper_case_letter c)) s.

(** The same code unit, or the upper-case and the lower-case form of one
    letter (the lower-case form is 32 above the upper-case one). *)
Definition same_letter (a b : ascii) : bool :=
  Ascii.eqb a b
  || (upper_case_letter a && (nat_of_ascii b =? nat_of_ascii a + 32)%nat)
  || (upper_case_letter b && (nat_of_ascii a =? nat_of_ascii b + 32)%nat).

(** Two texts that are equal up to letter case. *)
Fixpoint equal_ignoring_case (s t : string) : bool :=
  match s, t with
  | EmptyString, EmptyString => true
  | String a s', String b t' => same_letter a b && equal_ignoring_case s' t'
  | _, _ => false
  end.

(** A token: text without white space. *)
Definition no_whitespace (s : string) : bool :=
  forallb (fun c => negb (Js.is_str_whitespace c)) (list_ascii_of_string s).

End Spec.

(** ** Concrete configurations used as test inputs *)

Module Examples.

Definition agent (id workspace : string) : AgentConfig :=
  {| agent_id := id; agent_name := id; agent_workspace := workspace;
     agent_model := None; agent_systemPrompt := None; agent_maxTurns := None;
     agent_permissionMode := None; agent_mcpServers := None;
     agent_tools := None; agent_disallowedTools := None |}.

Definition main_agent : AgentConfig := agent "main" "/srv/main".
Definition coder_agent : AgentConfig := agent "coder" "/srv/coder".

Definition user (id : string) (username : option string) (channel : ChannelType) : UserInfo :=
  {| user_id := id; user_username := username; user_displayName := None;
     user_channel := channel |}.

Definition message (chatKey : string) (channel : ChannelType) (userId text : string)
    (groupId : option string) : IncomingMessage :=
  {| msg_chatKey := chatKey; msg_channel := channel; msg_userId := userId;
     msg_text := text; msg_userInfo := user userId None channel;
     msg_isGroup := bool_decide (is_Some groupId); msg_groupId := groupId |}.

(** Configuration drift: the Discord binding names an agent "ghost" that
    is not in [agents.list]. *)
Definition drift_config : BridgeConfig :=
  {| cfg_agents_list := [main_agent];
     cfg_bindings := Spec.discord_then_default "ghost" "main" |}.

Definition drift_router : Router :=
  {| agents := {[ "main" := main_agent ]};
     bindings := Spec.discord_then_default "ghost" "main";
     defaultAgentId := "main" |}.

Definition discord_dm : IncomingMessage :=
  message "discord:42" "discord" "42" "hello" None.

(** The end-to-end scenario of the design document: chat key
    [telegram:group:555] bound to agent "coder" by its group id. *)
Definition coder_config : BridgeConfig :=
  {| cfg_agents_list := [main_agent; coder_agent];
     cfg_bindings :=
       [ {| binding_agentId := "coder";
            binding_match := Some {| match_channel := None; match_peer := None;
                                     match_group := Some "555" |} |};
         {| binding_agentId := "main"; binding_match := None |} ] |}.

Definition coder_router : Router :=
  {| agents := {[ "main" := main_agent; "coder" := coder_agent ]};
     bindings := cfg_bindings coder_config;
     defaultAgentId := "main" |}.

Definition group_hello : IncomingMessage :=
  message "telegram:group:555" "telegram" "42" "hello" (Some "555").

Definition no_options : SendMessageOptions :=
  {| smo_agentId := None; smo_sessionName := None |}.

Definition fresh_manager : SessionManager :=
  {| sm_db := Db.empty; sm_router := coder_router; sm_activeSessions := ∅ |}.

(** A port whose run delivers one text block and then raises. *)
Definition failing_query : Query :=
  fun _ _ => {| run_events := [AssistantMessage (Some [TextBlock "partial"])];
                run_error := Some "socket hang up" |}.

(** A port whose run answers and ends with a ["result"] event carrying the
    handle "sdk-session-1". *)
Definition replying_query : Query :=
  fun _ _ => {| run_events := [OtherMessage;
                               AssistantMessage (Some [TextBlock "hi"]);
                               ResultMessage "sdk-session-1"];
                run_error := None |}.

End Examples.

(** ** Command-line pairing commands ([cli/commands/allowlist])

    Each command opens the database, calls the manager and prints a line
    that is determined by the manager's result; the model returns that
    result and the database the command leaves behind. *)

Module Cli.

Definition approvePairing (db : BridgeDatabase) (now : Z) (code : string)
    : ApproveResult * BridgeDatabase :=
  PairingManager.approve db now (Js.toUpperCase code).

Definition rejectPairing (db : BridgeDatabase) (code : string) : bool * BridgeDatabase :=
  PairingManager.reject db (Js.toUpperCase code).

(** [revokePairing(chatKey)]: the boolean tells whether access was revoked
    (the chat was in the allowlist). *)
Definition revokePairing (db : BridgeDatabase) (chatKey : string) : bool * BridgeDatabase :=
  if negb (AllowlistManager.check db chatKey) then (false, db)
  else (true, Db.deleteAllSessions (AllowlistManager.remove db chatKey) chatKey).

End Cli.

(** ** BaseAdapter

    The helpers every platform adapter inherits. *)

Module BaseAdapter.

(** [s.lastIndexOf(c, fromIndex)] for a one-character pattern: the greatest
    index [<= fromIndex] holding [c]; [None] stands for [-1]. *)
Fixpoint lastIndexOf_from (c : ascii) (s : string) (i fromIndex : nat)
    (found : option nat) : option nat :=
  match s with
  | EmptyString => found
  | String x r =>
      if (i <=? fromIndex)%nat
      then lastIndexOf_from c r (S i) fromIndex (if Ascii.eqb x c then Some i else found)
      else found
  end.

Definition lastIndexOf (c : ascii) (s : string) (fromIndex : nat) : option nat :=
  lastIndexOf_from c s 0 fromIndex None.

(** [index > maxLength * 0.5], where [index] may be [-1]. *)
Definition above_half (index : option nat) (maxLength : nat) : bool :=
  match index with
  | Some i => (maxLength <? 2 * i)%nat
  | None => false
  end.

(** [s.slice(n)] *)
Definition slice_from (n : nat) (s : string) : string :=
  String.substring n (String.length s - n) s.

(** The break point chosen by one round of the loop of [splitMessage]. *)
Definition breakPoint (remaining : string) (maxLength : nat) : nat :=
  let newlineIndex := lastIndexOf "010"%char remaining maxLength in
  if above_half newlineIndex maxLength then default 0%nat newlineIndex + 1
  else
    let spaceIndex := lastIndexOf " "%char remaining maxLength in
    if above_half spaceIndex maxLength then default 0%nat spaceIndex + 1
    else maxLength.

(** [while (remaining.length > 0) { ... }]; [fuel] bounds the number of
    rounds, and [None] means the bound was reached. *)
Fixpoint split_loop (fuel : nat) (remaining : string) (maxLength : nat)
    (chunks : list string) : option (list string) :=
  match fuel with
  | O => None
  | S fuel' =>
      if (String.length remaining =? 0)%nat then Some chunks
      else if (String.length remaining <=? maxLength)%nat then Some (chunks ++ [remaining])%list
      else
        let bp := breakPoint remaining maxLength in
        split_loop fuel' (slice_from bp remaining) maxLength
          (chunks ++ [Js.slice0 bp remaining])%list
  end.

(** [splitMessage(text, maxLength)] *)
Definition splitMessage (fuel : nat) (text : string) (maxLength : nat)
    : option (list string) :=
  if (String.length text <=? maxLength)%nat then Some [text]
  else split_loop fuel text maxLength [].

(** [s.split(/\s+/)]: the pieces between maximal runs of white space;
    [gap] tells that the previous character was white space. *)
Fixpoint split_whitespace_from (gap : bool) (l : list ascii) : list (list ascii) :=
  match l with
  | [] => [[]]
  | c :: r =>
      if Js.is_str_whitespace c
      then (if gap then split_whitespace_from true r
            else [] :: split_whitespace_from true r)
      else match split_whitespace_from false r with
           | p :: ps => (c :: p) :: ps
           | [] => [[c]]
           end
  end.

Definition split_whitespace (s : string) : list string :=
  string_of_list_ascii <$> split_whitespace_from false (list_ascii_of_string s).

(** [parseCommand(text)] *)
Definition parseCommand (text : string) : option (string * list string) :=
  if negb (Js.startsWith text "/") then None
  else
    let parts := split_whitespace (slice_from 1 text) in
    Some (Js.toLowerCase (default "" (parts !! 0%nat)), drop 1 parts).

End BaseAdapter.

(** ** Platform adapters: the chat keys they build and take apart *)

Module DiscordAdapter.

(** [buildChatKey(message)]: [botId] is the adapter's bot id, [guild]
    tells whether [message.guild] is set. *)
Definition buildChatKey (botId : option string) (guild : bool)
    (channelId authorId : string) : string :=
  if Js.truthy botId then
    if guild then "discord:" +:+ default "" botId +:+ ":channel:" +:+ channelId
    else "discord:" +:+ default "" botId +:+ ":" +:+ authorId
  else
    if guild then "discord:channel:" +:+ channelId
    else "discord:" +:+ authorId.

(** [parts.includes(x)], [parts.indexOf(x)] *)
Definition includes (x : string) (parts : list string) : bool :=
  existsb (String.eqb x) parts.

Fixpoint indexOf (x : string) (parts : list string) : option nat :=
  match parts with
  | [] => None
  | p :: rest => if String.eqb p x then Some 0%nat else S <$> indexOf x rest
  end.

(** [extractChannelId(chatKey)]; [None] stands for [undefined]. *)
Definition extractChannelId (chatKey : string) : option string :=
  let parts := Js.split ":" chatKey in
  if includes "channel" parts then
    match indexOf "channel" parts with
    | Some channelIdx => parts !! (channelIdx + 1)%nat
    | None => parts !! 0%nat
    end
  else last parts.

End DiscordAdapter.

Module TelegramAdapter.

(** [buildChatKey(chatId, isGroup)]; [`${chatId}`] is the decimal numeral
    of the chat id. *)
Definition buildChatKey (botId : option string) (chatId : Z) (isGroup : bool) : string :=
  if Js.truthy botId then
    if isGroup then "telegram:" +:+ default "" botId +:+ ":group:" +:+ pretty chatId
    else "telegram:" +:+ default "" botId +:+ ":" +:+ pretty chatId
  else
    if isGroup then "telegram:group:" +:+ pretty chatId
    else "telegram:" +:+ pretty chatId.

Definition digit_value (c : ascii) : Z := Z.of_nat (nat_of_ascii c) - 48.

(** The value of the longest prefix of decimal digits, continuing [acc]. *)
Fixpoint parse_digits (l : list ascii) (acc : Z) : Z :=
  match l with
  | c :: r => if Js.is_digit c then parse_digits r (10 * acc + digit_value c) else acc
  | [] => acc
  end.

(** [parseInt(s, 10)]: leading white space, an optional sign, then the
    longest prefix of digits; [None] stands for [NaN]. *)
Definition parseInt (s : string) : option Z :=
  let l := Js.drop_while Js.is_str_whitespace (list_ascii_of_string s) in
  let '(sign, l) :=
    match l with
    | c :: r => if Ascii.eqb c "-"%char then (-1, r)
                else if Ascii.eqb c "+"%char then (1, r)
                else (1, l)
    | [] => (1, l)
    end in
  match l with
  | c :: _ => if Js.is_digit c then Some (sign * parse_digits l 0) else None
  | [] => None
  end.

(** [extractChatId(chatKey)] *)
Definition extractChatId (chatKey : string) : option Z :=
  parseInt (default "" (last (Js.split ":" chatKey))).

End TelegramAdapter.

(** ** CommandParser

    The registry of in-chat commands. A definition's [handler] is a
    callback and is left out; [execute] is modelled by the definition
    whose handler it awaits. *)

Record CommandDefinition := {
  cd_name : string;
  cd_aliases : option (list string);
  cd_description : string;
  cd_usage : option string }.

Record ParsedCommand := {
  pc_command : string;
  pc_args : list string;
  pc_rawArgs : string }.

Module CommandParser.

(** [register(definition)] on the [commands] map *)
Definition register (commands : gmap string CommandDefinition)
    (definition : CommandDefinition) : gmap string CommandDefinition :=
  let commands := <[cd_name definition := definition]> commands in
  match cd_aliases definition with
  | Some aliases => foldl (fun c alias => <[alias := definition]> c) commands aliases
  | None => commands
  end.

Definition getCommand (commands : gmap string CommandDefinition) (name : string)
    : option CommandDefinition :=
  commands !! Js.toLowerCase name.

Definition hasCommand (commands : gmap string CommandDefinition) (name : string) : bool :=
  bool_decide (is_Some (commands !! Js.toLowerCase name)).

(** [execute(ctx)]: the definition whose handler runs; [None] when
    [execute] returns [false]. *)
Definition execute (commands : gmap string CommandDefinition) (command : string)
    : option CommandDefinition :=
  commands !! Js.toLowerCase command.

(** [s.trim()] *)
Definition trim (s : string) : string :=
  string_of_list_ascii (Js.trim (list_ascii_of_string s)).

(** [s.indexOf(c)] for a one-character pattern; [None] stands for [-1]. *)
Fixpoint indexOf (c : ascii) (s : string) : option nat :=
  match s with
  | EmptyString => None
  | String x r => if Ascii.eqb x c then Some 0%nat else S <$> indexOf c r
  end.

(** [s.slice(a, b)] for [0 <= a] and [0 <= b] *)
Definition slice (a b : nat) (s : string) : string := String.substring a (b - a) s.

(** [parse(text)] *)
Definition parse (text : string) : option ParsedCommand :=
  let trimmed := trim text in
  if negb (Js.startsWith trimmed "/") then None
  else
    let spaceIndex := indexOf " "%char trimmed in
    let command :=
      match spaceIndex with
      | None => Js.toLowerCase (BaseAdapter.slice_from 1 trimmed)
      | Some i => Js.toLowerCase (slice 1 i trimmed)
      end in
    let rawArgs :=
      match spaceIndex with
      | None => ""
      | Some i => trim (BaseAdapter.slice_from (i + 1) trimmed)
      end in
    let command :=
      match indexOf "@"%char command with
      | Some atIndex => Js.slice0 atIndex command
      | None => command
      end in
    let args := if Js.truthy (Some rawArgs) then BaseAdapter.split_whitespace rawArgs else [] in
    Some {| pc_command := command; pc_args := args; pc_rawArgs := rawArgs |}.

(** [isCommand(message)] *)
Definition isCommand (message : IncomingMessage) : bool :=
  Js.startsWith (trim (msg_text message)) "/".

End CommandParser.

(** * Properties *)

(** ** JavaScript primitives *)

Example is_numeric_samples :
  map Js.is_numeric ["123"; "-100123"; ""; " 12 "; "1e5"; "0x1F"; ".5"; "Infinity";
                     "work"; "12a"; "1_000"; "."; "+0x10"; "e5"; "group"]
  = [true; true; true; true; true; true; true; true;
     false; false; false; false; false; false; false].
Proof. reflexivity. Qed.

Example split_samples :
  Js.split ":" "telegram:group:555" = ["telegram"; "group"; "555"]
  /\ Js.split ":" "" = [""]
  /\ Js.split ":" "a::b:" = ["a"; ""; "b"; ""].
Proof. repeat split. Qed.

(** ** Chat-key codec *)

Lemma split_colon_free (s : string) :
  Spec.contains ":" s = false -> Js.split ":" s = [s].
Proof.
  induction s as [|c s IH]; simpl; [reflexivity|].
  intros H. apply orb_false_iff in H as [Hc Hs]. rewrite Hc, (IH Hs). reflexivity.
Qed.

Lemma split_append_colon (p rest : string) :
  Spec.contains ":" p = false ->
  Js.split ":" (p +:+ ":" +:+ rest) = p :: Js.split ":" rest.
Proof.
  induction p as [|c p IH]; simpl; [reflexivity|].
  intros H. apply orb_false_iff in H as [Hc Hp]. rewrite Hc, (IH Hp). reflexivity.
Qed.

(** Splitting a key built from colon-free segments gives the segments. *)
Lemma split_join (parts : list string) :
  parts <> [] ->
  Forall (fun p => Spec.contains ":" p = false) parts ->
  Js.split ":" (Js.join ":" parts) = parts.
Proof.
  induction parts as [|p [|q parts] IH]; intros Hne Hall; [done| |].
  - simpl. apply split_colon_free. by inversion Hall.
  - change (Js.join ":" (p :: q :: parts)) with (p +:+ ":" +:+ Js.join ":" (q :: parts)).
    inversion Hall as [|? ? Hp Hrest]; subst.
    rewrite split_append_colon by exact Hp. f_equal. apply IH; [done | exact Hrest].
Qed.

Lemma segment_true (s : string) :
  Spec.segment s = true -> String.eqb s "" = false /\ Spec.contains ":" s = false.
Proof.
  unfold Spec.segment. rewrite andb_true_iff, !negb_true_iff. tauto.
Qed.

Lemma opt_segment_Some (s : string) :
  Spec.opt_segment (Some s) = true ->
  String.eqb s "" = false /\ Spec.contains ":" s = false.
Proof. apply segment_true. Qed.

(** Decide every test left in a goal about a parsed key, then close the
    case by computation or by a clash between the two records. *)
Ltac codec_tests :=
  repeat match goal with
         | |- context [bool_decide ?P] => destruct (bool_decide_reflect P)
         | |- context [String.eqb ?a ?b] => destruct (String.eqb_spec a b)
         | |- context [Js.is_numeric ?s] => destruct (Js.is_numeric s) eqn:?
         end.

Ltac codec_case :=
  cbv [Datatypes.id from_option]; cbn [app];
  unfold Router.parseChatKey;
  rewrite split_join by (try done; repeat constructor; done);
  cbn [length Nat.ltb Nat.leb lookup list_lookup default];
  cbv [Datatypes.id from_option];
  cbn [String.eqb Ascii.eqb Bool.eqb andb];
  codec_tests; unfold Router.parsed; cbn [negb andb orb];
  intros Hside; simplify_eq; try done.

(** C1 (amended). For a valid tuple (platform "telegram" or "discord",
    every component present non-empty and colon-free) that is [decodable],
    decoding the encoded key gives the tuple back, with a session name
    "main" left out of the key and read back as absent. A tuple is
    decodable when the bot id is not the platform's group marker; outside
    groups the peer id is not the marker either, a Telegram peer id behind
    a bot id is numeric, and a key without bot id carries a session name
    only on Telegram, where the name is neither "group" nor numeric. *)
Theorem parseChatKey_buildChatKey_roundtrip (x : Spec.ChatKey) :
  Spec.valid_tuple x = true ->
  Spec.decodable x = true ->
  Router.parseChatKey (Spec.encode x) = Ok (Spec.expected x).
Proof.
  destruct x as [platform bot grp id sn].
  unfold Spec.valid_tuple, Spec.encode, Spec.expected, Spec.decodable, Spec.marker,
    Router.buildChatKey, Spec.canonical_sessionName.
  cbn [Spec.ck_platform Spec.ck_botId Spec.ck_isGroup Spec.ck_peerId Spec.ck_sessionName
       opt_botId opt_isGroup opt_sessionName mbind option_bind default].
  rewrite !andb_true_iff, orb_true_iff, !String.eqb_eq.
  intros [[[Hplat Hbot] Hid] Hsn].
  apply segment_true in Hid as [Hid Hidc].
  destruct bot as [b|]; [apply opt_segment_Some in Hbot as [Hb Hbc]|];
    (destruct sn as [s|]; [apply opt_segment_Some in Hsn as [Hs Hsc]|]);
    destruct Hplat as [-> | ->]; destruct grp;
    unfold Js.truthy; rewrite ?Hb, ?Hs; cbn [negb andb orb app String.eqb Ascii.eqb Bool.eqb];
    try (destruct (String.eqb_spec s "main") as [-> | Hmain]; cbn [negb andb]).
  all: codec_case.
Qed.

(** On Telegram keys the condition is also necessary: the lookahead reads
    every other valid tuple back as a different one. *)
Lemma telegram_roundtrip_only_if_decodable (x : Spec.ChatKey) :
  Spec.valid_tuple x = true ->
  Spec.ck_platform x = "telegram" ->
  Router.parseChatKey (Spec.encode x) = Ok (Spec.expected x) ->
  Spec.decodable x = true.
Proof.
  intros Hvalid Hplatform. revert Hvalid.
  destruct x as [platform bot grp id sn]. simpl in Hplatform. subst platform.
  unfold Spec.valid_tuple, Spec.encode, Spec.expected, Spec.decodable, Spec.marker,
    Router.buildChatKey, Spec.canonical_sessionName.
  cbn [Spec.ck_platform Spec.ck_botId Spec.ck_isGroup Spec.ck_peerId Spec.ck_sessionName
       opt_botId opt_isGroup opt_sessionName mbind option_bind default].
  rewrite !andb_true_iff.
  intros [[[_ Hbot] Hid] Hsn].
  apply segment_true in Hid as [Hid Hidc].
  destruct bot as [b|]; [apply opt_segment_Some in Hbot as [Hb Hbc]|];
    (destruct sn as [s|]; [apply opt_segment_Some in Hsn as [Hs Hsc]|]);
    destruct grp;
    unfold Js.truthy; rewrite ?Hb, ?Hs; cbn [negb andb orb app String.eqb Ascii.eqb Bool.eqb];
    try (destruct (String.eqb_spec s "main") as [-> | Hmain]; cbn [negb andb]).
  all: codec_case.
Qed.

Lemma parseChatKey_buildChatKey_roundtrip_witness :
  let x := {| Spec.ck_platform := "telegram"; Spec.ck_botId := Some "helper";
              Spec.ck_isGroup := false; Spec.ck_peerId := "555";
              Spec.ck_sessionName := Some "work" |} in
  Spec.encode x = "telegram:helper:555:work"
  /\ Router.parseChatKey (Spec.encode x) = Ok (Spec.expected x).
Proof.
  intros x. split; [reflexivity|].
  apply (parseChatKey_buildChatKey_roundtrip x); reflexivity.
Defined.

Example roundtrip_samples :
  Router.parseChatKey "telegram:group:555" =
    Ok (Router.parsed "telegram" None (Some "555") None true)
  /\ Router.parseChatKey "discord:bot1:channel:9:notes" =
    Ok (Router.parsed "discord" (Some "bot1") (Some "9") (Some "notes") true)
  /\ Router.parseChatKey "telegram:42:work" =
    Ok (Router.parsed "telegram" None (Some "42") (Some "work") false)
  /\ Router.parseChatKey "telegram" = Throw "Invalid chat key format: telegram".
Proof. repeat split. Qed.

(** C1, as stated, fails: the valid tuple (discord, no bot id, direct
    chat, peer "123", session "work") is encoded as "discord:123:work",
    which is decoded as bot "123" with peer "work" and no session name. *)
Lemma discord_named_session_misparsed :
  let x := {| Spec.ck_platform := "discord"; Spec.ck_botId := None;
              Spec.ck_isGroup := false; Spec.ck_peerId := "123";
              Spec.ck_sessionName := Some "work" |} in
  Spec.valid_tuple x = true
  /\ Spec.encode x = "discord:123:work"
  /\ Router.parseChatKey (Spec.encode x)
     = Ok {| pk_channel := "discord"; pk_botId := Some "123"; pk_id := Some "work";
             pk_sessionName := None; pk_isGroup := false |}
  /\ Router.parseChatKey (Spec.encode x) <> Ok (Spec.expected x).
Proof. repeat split. discriminate. Qed.

(** The key format itself is ambiguous: two different valid tuples share
    one encoding, so no decoder can give both back. *)
Lemma encode_not_injective :
  let x := {| Spec.ck_platform := "telegram"; Spec.ck_botId := None;
              Spec.ck_isGroup := false; Spec.ck_peerId := "42";
              Spec.ck_sessionName := Some "7" |} in
  let y := {| Spec.ck_platform := "telegram"; Spec.ck_botId := Some "42";
              Spec.ck_isGroup := false; Spec.ck_peerId := "7";
              Spec.ck_sessionName := None |} in
  Spec.valid_tuple x = true /\ Spec.valid_tuple y = true
  /\ x <> y /\ Spec.encode x = Spec.encode y.
Proof. repeat split. discriminate. Qed.

(** ** Router: binding resolution *)

Lemma truthy_Some (s : string) : Js.truthy (Some s) = true <-> s <> "".
Proof.
  unfold Js.truthy. destruct (String.eqb_spec s ""); simpl; split; congruence.
Qed.

Lemma mismatch_false (criterion value : option string) :
  Router.mismatch criterion value = false <-> Spec.criterion_given_equals criterion value.
Proof.
  unfold Router.mismatch, Spec.criterion_given_equals.
  destruct criterion as [c|]; simpl; [|tauto].
  destruct (String.eqb_spec c ""); simpl; [tauto|].
  case_bool_decide as Hv; simpl; split.
  - intros _. right. congruence.
  - reflexivity.
  - discriminate.
  - intros [Hc | Hc]; congruence.
Qed.

Lemma matchesBinding_given (b : AgentBinding) channel peerId groupId :
  Router.matchesBinding b channel peerId groupId = true
  <-> Spec.binding_matches_given b channel peerId groupId.
Proof.
  unfold Router.matchesBinding, Spec.binding_matches_given.
  destruct (binding_match b) as [m|]; [|tauto].
  rewrite <- !mismatch_false.
  destruct (Router.mismatch (match_channel m) _),
           (Router.mismatch (match_peer m) _),
           (Router.mismatch (match_group m) _); intuition congruence.
Qed.

Lemma scan_first_match (bs : list AgentBinding) channel peerId groupId :
  match Router.scan bs channel peerId groupId with
  | Some a =>
      exists pre b post,
        bs = (pre ++ b :: post)%list
        /\ Forall (fun b' => Router.matchesBinding b' channel peerId groupId = false) pre
        /\ Router.matchesBinding b channel peerId groupId = true
        /\ a = binding_agentId b
  | None => Forall (fun b' => Router.matchesBinding b' channel peerId groupId = false) bs
  end.
Proof.
  induction bs as [|b bs IH]; simpl; [constructor|].
  destruct (Router.matchesBinding b channel peerId groupId) eqn:Hb.
  - exists [], b, bs. repeat split; auto.
  - destruct (Router.scan bs channel peerId groupId) as [a|].
    + destruct IH as (pre & b1 & post & -> & Hpre & Hb1 & ->).
      exists (b :: pre), b1, post. repeat split; auto.
    + constructor; auto.
Qed.

(** C6 (amended). The router scans the bindings in configured order; a
    binding matches iff every criterion it gives as a non-empty string
    equals the corresponding input field (absent criteria, and criteria
    given as the empty string, always match); the agentId of the first
    matching binding is returned, and the default agentId when no binding
    matches. With bindings [{agent:A, match:{channel:"discord"}}, {agent:B}]
    a Discord message resolves to A and a Telegram message to B. *)
Theorem findAgentId_first_given_match (r : Router)
    (channel : ChannelType) (peerId : string) (groupId : option string) :
  (forall b, Router.matchesBinding b channel peerId groupId = true
             <-> Spec.binding_matches_given b channel peerId groupId)
  /\ Spec.first_match_or_default
       (fun b => Spec.binding_matches_given b channel peerId groupId)
       (bindings r) (defaultAgentId r)
       (Router.findAgentId r channel peerId groupId)
  /\ (forall A B ags dflt,
        let r' := {| agents := ags; bindings := Spec.discord_then_default A B;
                     defaultAgentId := dflt |} in
        Router.findAgentId r' "discord" peerId groupId = A
        /\ Router.findAgentId r' "telegram" peerId groupId = B).
Proof.
  split; [intros b; apply matchesBinding_given|]. split.
  - unfold Router.findAgentId, Spec.first_match_or_default.
    pose proof (scan_first_match (bindings r) channel peerId groupId) as Hscan.
    destruct (Router.scan (bindings r) channel peerId groupId) as [a|]; simpl.
    + left. destruct Hscan as (pre & b & post & Hbs & Hpre & Hb & ->).
      exists pre, b, post. repeat split; auto.
      * eapply Forall_impl; [exact Hpre|]. intros b' Hb'. simpl in Hb'.
        rewrite <- matchesBinding_given. congruence.
      * by apply matchesBinding_given.
    + right. split; [|reflexivity].
      eapply Forall_impl; [exact Hscan|]. intros b' Hb'. simpl in Hb'.
      rewrite <- matchesBinding_given. congruence.
  - intros A B ags dflt. split; reflexivity.
Qed.

(** C6, as stated, fails on a criterion given as the empty string: the
    binding [{agent:"A", match:{peer:""}}] specifies a peer that differs
    from the sender "42", yet the router lets it match. *)
Lemma matchesBinding_empty_criterion_matches :
  let b := {| binding_agentId := "A";
              binding_match := Some {| match_channel := None;
                                       match_peer := Some "";
                                       match_group := None |} |} in
  ~ (Router.matchesBinding b "telegram" "42" None = true
     <-> Spec.binding_matches b "telegram" "42" None).
Proof.
  intros b [Hfwd _].
  assert (Hm : Router.matchesBinding b "telegram" "42" None = true) by reflexivity.
  destruct (Hfwd Hm) as (_ & Hpeer & _). simpl in Hpeer. discriminate.
Qed.

(** ** Router: configuration drift *)

Example drift_router_constructed :
  Router.new Examples.drift_config = Ok Examples.drift_router.
Proof. reflexivity. Qed.

Example coder_router_constructed :
  Router.new Examples.coder_config = Ok Examples.coder_router.
Proof. vm_compute. reflexivity. Qed.

(** C4 (amended). When the agentId selected by the binding scan has no
    agent profile, [routeMessage] falls back to the default agent: it
    returns the profile of the default agentId when that one exists, and
    fails with "No agent configured for routing" only when the default
    agentId has no profile either. *)
Theorem routeMessage_falls_back_to_default (r : Router) (message : IncomingMessage) :
  agents r !! Router.findAgentId r (msg_channel message) (msg_userId message)
                (msg_groupId message) = None ->
  (forall d, agents r !! defaultAgentId r = Some d -> Router.routeMessage r message = Ok d)
  /\ (agents r !! defaultAgentId r = None ->
      Router.routeMessage r message = Throw "No agent configured for routing").
Proof.
  intros Hdrift. unfold Router.routeMessage. rewrite Hdrift.
  split; intros; by simplify_option_eq.
Qed.

Lemma routeMessage_falls_back_to_default_witness :
  Router.routeMessage Examples.drift_router Examples.discord_dm = Ok Examples.main_agent.
Proof.
  apply (routeMessage_falls_back_to_default Examples.drift_router Examples.discord_dm);
    reflexivity.
Defined.

(** C4, as stated, fails: in the router built from [drift_config] the
    binding scan selects "ghost" for a Discord message, "ghost" has no
    profile, and resolution does not fail but returns the profile of
    "main". *)
Lemma routeMessage_drift_returns_other_agent :
  let r := Examples.drift_router in
  let m := Examples.discord_dm in
  Router.new Examples.drift_config = Ok r
  /\ Router.findAgentId r (msg_channel m) (msg_userId m) (msg_groupId m) = "ghost"
  /\ agents r !! "ghost" = None
  /\ Router.routeMessage r m = Ok Examples.main_agent
  /\ ~ (exists e, Router.routeMessage r m = Throw e).
Proof.
  repeat split; try reflexivity. intros [e He]. discriminate He.
Qed.

(** ** AllowlistManager *)

Lemma map_string_empty (f : ascii -> ascii) (s : string) :
  Js.map_string f s = "" -> s = "".
Proof. destruct s; simpl; [reflexivity | discriminate]. Qed.

(** *** Letter case

    [toLowerCase] related to the two notions the statements below use:
    texts equal up to letter case, and texts without upper-case letters. *)

Lemma ascii_enumerated (c : ascii) : In c (map ascii_of_nat (seq 0 256)).
Proof.
  rewrite <- (ascii_nat_embedding c). apply in_map, in_seq.
  pose proof (nat_ascii_bounded c). lia.
Qed.

Lemma same_letter_lower (a b : ascii) :
  Spec.same_letter a b = Ascii.eqb (Js.lower_unit a) (Js.lower_unit b).
Proof.
  assert (Hall : forallb (fun x =>
                   forallb (fun y => Bool.eqb (Spec.same_letter x y)
                                       (Ascii.eqb (Js.lower_unit x) (Js.lower_unit y)))
                           (map ascii_of_nat (seq 0 256)))
                   (map ascii_of_nat (seq 0 256)) = true)
    by (vm_compute; reflexivity).
  rewrite forallb_forall in Hall. specialize (Hall a (ascii_enumerated a)).
  rewrite forallb_forall in Hall. specialize (Hall b (ascii_enumerated b)).
  by apply Bool.eqb_prop.
Qed.

Lemma lower_unit_lower (c : ascii) :
  Spec.upper_case_letter (Js.lower_unit c) = false
  /\ Spec.same_letter c (Js.lower_unit c) = true
  /\ (Spec.upper_case_letter c = false -> Js.lower_unit c = c).
Proof. destruct c as [[] [] [] [] [] [] [] []]; by vm_compute. Qed.

Lemma equal_ignoring_case_lower (s t : string) :
  Spec.equal_ignoring_case s t = true <-> Js.toLowerCase s = Js.toLowerCase t.
Proof.
  unfold Js.toLowerCase. revert t.
  induction s as [|a s IH]; intros [|b t]; simpl; try (split; congruence).
  rewrite andb_true_iff, same_letter_lower, Ascii.eqb_eq, IH.
  split; [intros [-> ->]; reflexivity | intros [= -> ->]; auto].
Qed.

(** [toLowerCase s] is the one text without upper-case letters that is
    equal to [s] up to letter case. *)
Lemma toLowerCase_iff (s k : string) :
  Js.toLowerCase s = k
  <-> Spec.no_upper_case k = true /\ Spec.equal_ignoring_case s k = true.
Proof.
  unfold Js.toLowerCase, Spec.no_upper_case. revert k.
  induction s as [|a s IH]; intros [|b k]; simpl;
    try (split; [congruence | intros [_ ?]; congruence]); [split; auto|].
  destruct (lower_unit_lower a) as (Hlow & Hsame & _).
  destruct (lower_unit_lower b) as (_ & _ & Hfixed).
  rewrite !andb_true_iff, negb_true_iff. split.
  - intros [= <- <-]. destruct (proj1 (IH _) eq_refl) as [Hk Hs]. auto.
  - intros [[Hb Hk] [Hab Hs]]. rewrite same_letter_lower, Ascii.eqb_eq in Hab.
    rewrite Hab, (Hfixed Hb). f_equal. apply IH. auto.
Qed.

Lemma entry_matches_iff (u : UserInfo) (entry : string) :
  AllowlistManager.entry_matches u entry = true
  <-> entry = user_id u
      \/ exists n, user_username u = Some n /\ Js.toLowerCase entry = Js.toLowerCase n.
Proof.
  unfold AllowlistManager.entry_matches.
  rewrite !orb_true_iff, andb_true_iff, !bool_decide_eq_true, String.eqb_eq.
  split.
  - intros [[Hid | Hname] | [_ Hlow]].
    + by left.
    + right. exists entry. by rewrite <- Hname.
    + right. destruct (user_username u) as [n|]; simpl in Hlow; [|discriminate].
      exists n. split; [reflexivity | congruence].
  - intros [Hid | (n & Hn & Hlow)].
    + left. by left.
    + rewrite Hn. simpl. destruct (String.eqb_spec n "") as [-> | Hne].
      * left. right. f_equal. eapply map_string_empty. exact Hlow.
      * right. split; [reflexivity | congruence].
Qed.

Lemma isInConfigAllowlist_existsb (u : UserInfo) (cfg : ChannelConfig) :
  AllowlistManager.isInConfigAllowlist u cfg
  = existsb (AllowlistManager.entry_matches u) (default [] (cc_allowFrom cfg)).
Proof.
  unfold AllowlistManager.isInConfigAllowlist.
  destruct (cc_allowFrom cfg) as [[|e l]|]; reflexivity.
Qed.

(** C10. An entry of the configured [allowFrom] list admits a user iff it
    is equal to the user's id (exact comparison, no case folding) or equal
    to the user's username up to letter case: of the same length, with at
    each position the same code unit or the upper-case and the lower-case
    form of one letter. A user without a username is admitted iff the id
    itself is listed; an empty or absent list admits nobody. *)
Theorem isInConfigAllowlist_id_exact_username_caseless
    (u : UserInfo) (enabled : bool) (policy : string) (allowFrom : option (list string)) :
  let cfg := {| cc_enabled := enabled; cc_dmPolicy := policy; cc_allowFrom := allowFrom |} in
  (AllowlistManager.isInConfigAllowlist u cfg = true
   <-> exists entry,
         entry ∈ default [] allowFrom
         /\ (entry = user_id u
             \/ exists n, user_username u = Some n
                          /\ Spec.equal_ignoring_case entry n = true))
  /\ (AllowlistManager.isInConfigAllowlist
        {| user_id := user_id u; user_username := None;
           user_displayName := user_displayName u; user_channel := user_channel u |} cfg = true
      <-> user_id u ∈ default [] allowFrom)
  /\ AllowlistManager.isInConfigAllowlist u
       {| cc_enabled := enabled; cc_dmPolicy := policy; cc_allowFrom := None |} = false
  /\ AllowlistManager.isInConfigAllowlist u
       {| cc_enabled := enabled; cc_dmPolicy := policy; cc_allowFrom := Some [] |} = false.
Proof.
  intros cfg. repeat split; try reflexivity.
  - rewrite isInConfigAllowlist_existsb, existsb_exists. simpl.
    intros (e & Hin & He). exists e. split; [by apply list_elem_of_In|].
    apply entry_matches_iff in He as [? | (n & ? & Hlow)]; [by left|].
    right. exists n. by rewrite equal_ignoring_case_lower.
  - rewrite isInConfigAllowlist_existsb, existsb_exists. simpl.
    intros (e & Hin & He). exists e. split; [by apply list_elem_of_In|].
    apply entry_matches_iff. destruct He as [? | (n & ? & Hlow)]; [by left|].
    right. exists n. by rewrite <- equal_ignoring_case_lower.
  - rewrite isInConfigAllowlist_existsb, existsb_exists. simpl.
    intros (e & Hin & He). apply entry_matches_iff in He. simpl in He.
    destruct He as [-> | (n & Hn & _)]; [by apply list_elem_of_In | discriminate].
  - rewrite isInConfigAllowlist_existsb, existsb_exists. simpl.
    intros Hin. exists (user_id u). split; [by apply list_elem_of_In|].
    apply entry_matches_iff. by left.
Qed.

Lemma isInConfigAllowlist_id_exact_username_caseless_witness :
  AllowlistManager.isInConfigAllowlist (Examples.user "1" (Some "Alice") "telegram")
    {| cc_enabled := true; cc_dmPolicy := "allowlist"; cc_allowFrom := Some ["aLICE"] |}
  = true.
Proof.
  apply (proj1 (isInConfigAllowlist_id_exact_username_caseless
                  (Examples.user "1" (Some "Alice") "telegram") true "allowlist"
                  (Some ["aLICE"]))).
  exists "aLICE". split; [left|]. right. exists "Alice". split; reflexivity.
Defined.

(** Ids are compared exactly; usernames up to letter case, also outside
    ASCII: U+00C4 (A with diaeresis) is ["196"%char], U+00E4 its
    lower-case form ["228"%char]. *)
Example allowFrom_id_is_case_sensitive :
  AllowlistManager.isInConfigAllowlist (Examples.user "abc" None "telegram")
    {| cc_enabled := true; cc_dmPolicy := "allowlist"; cc_allowFrom := Some ["ABC"] |} = false
  /\ AllowlistManager.isInConfigAllowlist (Examples.user "1" (Some "Alice") "telegram")
    {| cc_enabled := true; cc_dmPolicy := "allowlist"; cc_allowFrom := Some ["aLICE"] |} = true
  /\ AllowlistManager.isInConfigAllowlist
       (Examples.user "1" (Some (String "196" "B")) "telegram")
       {| cc_enabled := true; cc_dmPolicy := "allowlist";
          cc_allowFrom := Some [String "228" "b"] |} = true.
Proof. repeat split; reflexivity. Qed.

(** C5. For an enabled channel with policy "open" the decision is
    Allowed whatever the database and the configured list hold; with
    policy "allowlist", an empty persisted allow-set and an empty (or
    absent) configured [allowFrom] it is Denied; for a disabled channel it
    is Denied whatever the policy, the allow-set and the configured list. *)
Theorem isAllowed_policy_table
    (db : BridgeDatabase) (chatKey : string) (userInfo : UserInfo)
    (policy : string) (allowFrom : option (list string)) :
  AllowlistManager.isAllowed db chatKey userInfo
    (Some {| cc_enabled := true; cc_dmPolicy := "open"; cc_allowFrom := allowFrom |})
  = {| allowed := true; reason := None |}
  /\ AllowlistManager.isAllowed (Db.with_allowlist db ∅) chatKey userInfo
       (Some {| cc_enabled := true; cc_dmPolicy := "allowlist"; cc_allowFrom := Some [] |})
     = {| allowed := false; reason := Some "Not in allowlist" |}
  /\ AllowlistManager.isAllowed (Db.with_allowlist db ∅) chatKey userInfo
       (Some {| cc_enabled := true; cc_dmPolicy := "allowlist"; cc_allowFrom := None |})
     = {| allowed := false; reason := Some "Not in allowlist" |}
  /\ AllowlistManager.isAllowed db chatKey userInfo
       (Some {| cc_enabled := false; cc_dmPolicy := policy; cc_allowFrom := allowFrom |})
     = {| allowed := false; reason := Some "Channel is disabled" |}.
Proof.
  repeat split.
Qed.

(** ** PairingManager *)

Lemma upper_unit_idempotent (c : ascii) :
  Js.upper_unit (Js.upper_unit c) = Js.upper_unit c
  /\ (Ascii.eqb c "223"%char = false -> Ascii.eqb (Js.upper_unit c) "223"%char = false).
Proof. destruct c as [[] [] [] [] [] [] [] []]; split; reflexivity || discriminate. Qed.

(** A text that [toUpperCase] leaves as it is: no sharp s, and every code
    unit is its own upper-case form. *)
Lemma toUpperCase_fixed (s : string) :
  Spec.all_chars (fun c => negb (Ascii.eqb c "223"%char)
                           && Ascii.eqb (Js.upper_unit c) c) s = true ->
  Js.toUpperCase s = s.
Proof.
  induction s as [|c s IH]; simpl; [reflexivity|].
  rewrite !andb_true_iff, negb_true_iff. intros [[Hc Hu] Hs].
  apply Ascii.eqb_eq in Hu. by rewrite Hc, Hu, (IH Hs).
Qed.

Lemma toUpperCase_all_fixed (s : string) :
  Spec.all_chars (fun c => negb (Ascii.eqb c "223"%char)
                           && Ascii.eqb (Js.upper_unit c) c) (Js.toUpperCase s) = true.
Proof.
  induction s as [|c s IH]; simpl; [reflexivity|].
  destruct (Ascii.eqb c "223"%char) eqn:Hc; simpl; [exact IH|].
  destruct (upper_unit_idempotent c) as [Hidem Hsharp].
  by rewrite (Hsharp Hc), Hidem, Ascii.eqb_refl, IH.
Qed.

Lemma all_chars_substring (p : ascii -> bool) (n m : nat) (s : string) :
  Spec.all_chars p s = true -> Spec.all_chars p (String.substring n m s) = true.
Proof.
  revert n m. induction s as [|c s IH]; intros [|n] [|m]; simpl; try reflexivity.
  - rewrite !andb_true_iff. intros [-> Hs]. auto.
  - rewrite andb_true_iff. intros [_ Hs]. auto.
  - rewrite andb_true_iff. intros [_ Hs]. auto.
Qed.

Lemma toUpperCase_idempotent (s : string) :
  Js.toUpperCase (Js.toUpperCase s) = Js.toUpperCase s.
Proof. apply toUpperCase_fixed, toUpperCase_all_fixed. Qed.

Lemma map_string_substring (f : ascii -> ascii) (n m : nat) (s : string) :
  Js.map_string f (String.substring n m s) = String.substring n m (Js.map_string f s).
Proof.
  revert n m. induction s as [|c s IH]; intros [|n] [|m]; simpl; try reflexivity.
  - by rewrite IH.
  - apply IH.
  - apply IH.
Qed.

(** ** Dates: the order of the ISO-8601 texts *)

Lemma DayFromYear_step (y : Z) :
  JsDate.DayFromYear (y + 1)
  = JsDate.DayFromYear y + (if JsDate.InLeapYear y then 366 else 365).
Proof.
  unfold JsDate.DayFromYear, JsDate.InLeapYear.
  destruct (Z.eqb_spec (y mod 4) 0), (Z.eqb_spec (y mod 100) 0), (Z.eqb_spec (y mod 400) 0);
    cbn [negb andb orb]; Z.div_mod_to_equations; lia.
Qed.

Lemma DayFromYear_mono (y1 y2 : Z) :
  y1 <= y2 -> JsDate.DayFromYear y1 + 365 * (y2 - y1) <= JsDate.DayFromYear y2.
Proof. unfold JsDate.DayFromYear. Z.div_mod_to_equations. lia. Qed.

Lemma year_and_day_spec (day : Z) :
  day = JsDate.DayFromYear (JsDate.year_and_day day).1 + (JsDate.year_and_day day).2
  /\ 0 <= (JsDate.year_and_day day).2
       < (if JsDate.InLeapYear (JsDate.year_and_day day).1 then 366 else 365).
Proof.
  unfold JsDate.year_and_day, JsDate.DayFromYear, JsDate.InLeapYear. cbv zeta. cbn [fst snd].
  set (n := day + 134774).
  set (cycle := n / 146097). set (r := n mod 146097).
  assert (Hr : 0 <= r < 146097) by (apply Z.mod_pos_bound; lia).
  assert (Hn : n = 146097 * cycle + r) by (apply Z.div_mod; lia).
  set (c := Z.min (r / 36524) 3).
  assert (Hc : 0 <= c <= 3 /\ 36524 * c <= r /\ (c < 3 -> r < 36524 * (c + 1)))
    by (subst c; Z.div_mod_to_equations; lia).
  set (r2 := r - 36524 * c).
  assert (Hr2 : 0 <= r2 <= 36524 /\ (c < 3 -> r2 < 36524)) by lia.
  set (g := r2 / 1461). set (r3 := r2 mod 1461).
  assert (Hr3 : 0 <= r3 < 1461) by (apply Z.mod_pos_bound; lia).
  assert (Hg : r2 = 1461 * g + r3) by (apply Z.div_mod; lia).
  assert (Hg' : 0 <= g <= 24) by lia.
  set (yy := Z.min (r3 / 365) 3).
  assert (Hyy : 0 <= yy <= 3 /\ 365 * yy <= r3 /\ (yy < 3 -> r3 < 365 * (yy + 1)))
    by (subst yy; Z.div_mod_to_equations; lia).
  assert (Hday : n = day + 134774) by reflexivity.
  assert (Hr2eq : r2 = r - 36524 * c) by reflexivity.
  clearbody n cycle r c r2 g r3 yy.
  assert (c = 0 \/ c = 1 \/ c = 2 \/ c = 3) as Hcc by lia.
  assert (yy = 0 \/ yy = 1 \/ yy = 2 \/ yy = 3) as Hyc by lia.
  destruct (Z.eqb_spec ((1601 + 400 * cycle + 100 * c + 4 * g + yy) mod 4) 0),
    (Z.eqb_spec ((1601 + 400 * cycle + 100 * c + 4 * g + yy) mod 100) 0),
    (Z.eqb_spec ((1601 + 400 * cycle + 100 * c + 4 * g + yy) mod 400) 0);
    cbn [negb andb orb]; Z.div_mod_to_equations; lia.
Qed.

Lemma year_mono (d1 d2 : Z) :
  d1 <= d2 -> (JsDate.year_and_day d1).1 <= (JsDate.year_and_day d2).1.
Proof.
  intros Hd.
  destruct (year_and_day_spec d1) as [H1 B1], (year_and_day_spec d2) as [H2 B2].
  destruct (Z.le_gt_cases (JsDate.year_and_day d1).1 (JsDate.year_and_day d2).1)
    as [|Hgt]; [done|].
  pose proof (DayFromYear_mono ((JsDate.year_and_day d2).1 + 1) (JsDate.year_and_day d1).1
                ltac:(lia)) as Hm.
  rewrite DayFromYear_step in Hm. lia.
Qed.

Lemma month_and_date_bounds (lengths : list Z) (month day : Z) :
  Forall (fun len => 1 <= len <= 31) lengths ->
  0 <= day < fold_right Z.add 0 lengths ->
  month <= (JsDate.month_and_date lengths month day).1
          < month + Z.of_nat (length lengths)
  /\ 1 <= (JsDate.month_and_date lengths month day).2 <= 31.
Proof.
  intros Hall. revert month day.
  induction Hall as [|len rest Hlen _ IH]; intros month day Hday; simpl in *; [lia|].
  destruct (Z.ltb_spec day len).
  - simpl. lia.
  - specialize (IH (month + 1) (day - len) ltac:(lia)). lia.
Qed.

Lemma month_and_date_mono (lengths : list Z) (month day1 day2 : Z) :
  Forall (fun len => 1 <= len <= 31) lengths ->
  0 <= day1 -> day1 < day2 -> day2 < fold_right Z.add 0 lengths ->
  (JsDate.month_and_date lengths month day1).1 * 32
    + (JsDate.month_and_date lengths month day1).2
  < (JsDate.month_and_date lengths month day2).1 * 32
    + (JsDate.month_and_date lengths month day2).2.
Proof.
  intros Hall. revert month day1 day2.
  induction Hall as [|len rest Hlen Hrest IH]; intros month day1 day2 H1 H12 H2;
    simpl in *; [lia|].
  destruct (Z.ltb_spec day1 len), (Z.ltb_spec day2 len); simpl; try lia.
  - pose proof (month_and_date_bounds rest (month + 1) (day2 - len) Hrest ltac:(lia)). lia.
  - apply IH; lia.
Qed.

Lemma month_lengths_bounds (leap : bool) :
  Forall (fun len => 1 <= len <= 31) (JsDate.month_lengths leap)
  /\ fold_right Z.add 0 (JsDate.month_lengths leap) = (if leap then 366 else 365)
  /\ length (JsDate.month_lengths leap) = 12%nat.
Proof. destruct leap; (split; [repeat constructor; lia | split; reflexivity]). Qed.

(** The calendar date of a day, as one number that grows with the day. *)
Lemma calendar_mono (a b : Z) :
  JsDate.Day a < JsDate.Day b ->
  JsDate.YearFromTime a < JsDate.YearFromTime b
  \/ (JsDate.YearFromTime a = JsDate.YearFromTime b
      /\ JsDate.MonthFromTime a * 32 + JsDate.DateFromTime a
         < JsDate.MonthFromTime b * 32 + JsDate.DateFromTime b).
Proof.
  intros Hd. unfold JsDate.MonthFromTime, JsDate.DateFromTime, JsDate.DayWithinYear,
    JsDate.YearFromTime.
  pose proof (year_mono _ _ (Z.lt_le_incl _ _ Hd)) as Hy.
  destruct (year_and_day_spec (JsDate.Day a)) as [Ha Ba],
    (year_and_day_spec (JsDate.Day b)) as [Hb Bb].
  destruct (Z.eq_dec (JsDate.year_and_day (JsDate.Day a)).1
                     (JsDate.year_and_day (JsDate.Day b)).1) as [Heq|Hne]; [|left; lia].
  right. split; [done|]. rewrite Heq in *.
  destruct (month_lengths_bounds (JsDate.InLeapYear (JsDate.year_and_day (JsDate.Day b)).1))
    as (Hall & Hsum & _).
  apply month_and_date_mono; [done | lia | lia | rewrite Hsum; lia].
Qed.

Lemma calendar_bounds (t : Z) :
  1 <= JsDate.MonthFromTime t <= 12 /\ 1 <= JsDate.DateFromTime t <= 31.
Proof.
  unfold JsDate.MonthFromTime, JsDate.DateFromTime, JsDate.DayWithinYear, JsDate.YearFromTime.
  destruct (year_and_day_spec (JsDate.Day t)) as [_ Bt].
  destruct (month_lengths_bounds (JsDate.InLeapYear (JsDate.year_and_day (JsDate.Day t)).1))
    as (Hall & Hsum & Hlen).
  pose proof (month_and_date_bounds _ 1 (JsDate.year_and_day (JsDate.Day t)).2 Hall
                ltac:(rewrite Hsum; lia)) as Hb.
  rewrite Hlen in Hb. lia.
Qed.

Lemma four_digit_year_bounds (t : Z) :
  -62167219200000 <= t < 253402300800000 -> 0 <= JsDate.YearFromTime t <= 9999.
Proof.
  intros Ht. unfold JsDate.YearFromTime.
  destruct (year_and_day_spec (JsDate.Day t)) as [Hd Bd].
  set (y := (JsDate.year_and_day (JsDate.Day t)).1) in *.
  assert (Hday : -719528 <= JsDate.Day t < 2932897).
  { unfold JsDate.Day, JsDate.msPerDay. Z.div_mod_to_equations. lia. }
  pose proof (DayFromYear_step y) as Hstep.
  split.
  - destruct (Z.le_gt_cases 0 y) as [|Hneg]; [done|].
    pose proof (DayFromYear_mono (y + 1) 0 ltac:(lia)) as Hm.
    change (JsDate.DayFromYear 0) with (-719528) in Hm. lia.
  - destruct (Z.le_gt_cases y 9999) as [|Hbig]; [done|].
    pose proof (DayFromYear_mono 10000 y ltac:(lia)) as Hm.
    change (JsDate.DayFromYear 10000) with 2932897 in Hm. lia.
Qed.

Lemma far_future_year (t : Z) :
  253402300800000 <= t -> 10000 <= JsDate.YearFromTime t.
Proof.
  intros Ht. unfold JsDate.YearFromTime.
  destruct (year_and_day_spec (JsDate.Day t)) as [Hd Bd].
  set (y := (JsDate.year_and_day (JsDate.Day t)).1) in *.
  assert (Hday : 2932897 <= JsDate.Day t).
  { unfold JsDate.Day, JsDate.msPerDay. Z.div_mod_to_equations. lia. }
  pose proof (DayFromYear_step y) as Hstep.
  destruct (Z.le_gt_cases 10000 y) as [|Hsmall]; [done|].
  pose proof (DayFromYear_mono (y + 1) 10000 ltac:(lia)) as Hm.
  change (JsDate.DayFromYear 10000) with 2932897 in Hm. lia.
Qed.

Lemma digit_compare (u v : Z) :
  0 <= u <= 9 -> 0 <= v <= 9 ->
  Ascii.compare (JsDate.digit u) (JsDate.digit v) = (u ?= v).
Proof.
  intros Hu Hv.
  assert (Hcases : forall w, 0 <= w <= 9 ->
            w = 0 \/ w = 1 \/ w = 2 \/ w = 3 \/ w = 4 \/ w = 5 \/ w = 6 \/ w = 7
            \/ w = 8 \/ w = 9) by (intros; lia).
  destruct (Hcases u Hu) as [->|[->|[->|[->|[->|[->|[->|[->|[->| ->]]]]]]]]];
    destruct (Hcases v Hv) as [->|[->|[->|[->|[->|[->|[->|[->|[->| ->]]]]]]]]];
    reflexivity.
Qed.

Lemma pad_append_assoc (a b c : string) : (a +:+ b) +:+ c = a +:+ (b +:+ c).
Proof.
  induction a as [|x a IH]; [reflexivity|].
  change (String x ((a +:+ b) +:+ c) = String x (a +:+ (b +:+ c))). by rewrite IH.
Qed.

Lemma compare_pad (w : nat) : forall (x y : Z) (s t : string),
  0 <= x < 10 ^ Z.of_nat w -> 0 <= y < 10 ^ Z.of_nat w ->
  String.compare (JsDate.pad w x +:+ s) (JsDate.pad w y +:+ t)
  = match x ?= y with Eq => String.compare s t | c => c end.
Proof.
  induction w as [|w IH]; intros x y s t Hx Hy.
  - change (10 ^ Z.of_nat 0) with 1 in *.
    assert (x = 0) as -> by lia. assert (y = 0) as -> by lia. reflexivity.
  - rewrite Nat2Z.inj_succ, Z.pow_succ_r in Hx, Hy by lia.
    cbn [JsDate.pad]. rewrite !pad_append_assoc.
    rewrite IH by (Z.div_mod_to_equations; lia).
    change (String.compare (String ?a EmptyString +:+ ?p) (String ?b EmptyString +:+ ?q))
      with (String.compare (String a p) (String b q)).
    cbn [String.append String.compare].
    rewrite digit_compare by (Z.div_mod_to_equations; lia).
    destruct (Z.compare_spec (x / 10) (y / 10)), (Z.compare_spec (x mod 10) (y mod 10)),
      (Z.compare_spec x y); try reflexivity; exfalso; Z.div_mod_to_equations; lia.
Qed.

Lemma compare_same_head (c : ascii) (s t : string) :
  String.compare (String c s) (String c t) = String.compare s t.
Proof.
  cbn [String.compare].
  assert (Ascii.compare c c = Eq) as ->; [|done].
  unfold Ascii.compare. apply N.compare_refl.
Qed.

Ltac pad_bounds :=
  first [ change (10 ^ Z.of_nat 4) with 10000 | change (10 ^ Z.of_nat 3) with 1000
        | change (10 ^ Z.of_nat 2) with 100 ];
  unfold JsDate.HourFromTime, JsDate.MinFromTime, JsDate.SecFromTime, JsDate.msFromTime,
    JsDate.TimeWithinDay, JsDate.msPerDay;
  try (Z.div_mod_to_equations; lia).

Lemma toISOString_four_digit (t : Z) :
  -62167219200000 <= t < 253402300800000 ->
  JsDate.toISOString t
  = JsDate.pad 4 (JsDate.YearFromTime t) +:+ "-" +:+ JsDate.pad 2 (JsDate.MonthFromTime t)
    +:+ "-" +:+ JsDate.pad 2 (JsDate.DateFromTime t) +:+ "T"
    +:+ JsDate.pad 2 (JsDate.HourFromTime t) +:+ ":" +:+ JsDate.pad 2 (JsDate.MinFromTime t)
    +:+ ":" +:+ JsDate.pad 2 (JsDate.SecFromTime t) +:+ "."
    +:+ JsDate.pad 3 (JsDate.msFromTime t) +:+ "Z".
Proof.
  intros Ht. pose proof (four_digit_year_bounds t Ht) as Hy.
  unfold JsDate.toISOString, JsDate.year_text.
  destruct (Z.leb_spec 0 (JsDate.YearFromTime t)); [|lia].
  destruct (Z.leb_spec (JsDate.YearFromTime t) 9999); [|lia]. reflexivity.
Qed.

Lemma toISOString_lt (a b : Z) :
  -62167219200000 <= a < 253402300800000 ->
  -62167219200000 <= b < 253402300800000 ->
  a < b -> String.compare (JsDate.toISOString a) (JsDate.toISOString b) = Lt.
Proof.
  intros Ha Hb Hab.
  rewrite (toISOString_four_digit a Ha), (toISOString_four_digit b Hb).
  pose proof (four_digit_year_bounds a Ha) as Hya.
  pose proof (four_digit_year_bounds b Hb) as Hyb.
  pose proof (calendar_bounds a) as [Hma Hda].
  pose proof (calendar_bounds b) as [Hmb Hdb].
  assert (Hdays : JsDate.Day a < JsDate.Day b
                  \/ (JsDate.Day a = JsDate.Day b
                      /\ JsDate.TimeWithinDay a < JsDate.TimeWithinDay b)).
  { unfold JsDate.Day, JsDate.TimeWithinDay, JsDate.msPerDay. Z.div_mod_to_equations. lia. }
  destruct Hdays as [Hlt | [Heq Htime]].
  - destruct (calendar_mono a b Hlt) as [Hy | [Hy Hk]].
    + rewrite compare_pad by pad_bounds. by rewrite (proj2 (Z.compare_lt_iff _ _) Hy).
    + rewrite compare_pad by pad_bounds. rewrite Hy, Z.compare_refl.
      change ("-" +:+ ?x) with (String "-" x). rewrite compare_same_head.
      rewrite compare_pad by pad_bounds.
      destruct (Z.compare_spec (JsDate.MonthFromTime a) (JsDate.MonthFromTime b)) as [Hm| |];
        [|done|lia].
      change ("-" +:+ ?x) with (String "-" x). rewrite compare_same_head.
      rewrite compare_pad by pad_bounds.
      by rewrite (proj2 (Z.compare_lt_iff _ _)) by lia.
  - assert (Hy : JsDate.YearFromTime a = JsDate.YearFromTime b)
      by (unfold JsDate.YearFromTime; by rewrite Heq).
    assert (Hm : JsDate.MonthFromTime a = JsDate.MonthFromTime b)
      by (unfold JsDate.MonthFromTime, JsDate.DayWithinYear, JsDate.YearFromTime;
          by rewrite Heq).
    assert (Hd : JsDate.DateFromTime a = JsDate.DateFromTime b)
      by (unfold JsDate.DateFromTime, JsDate.DayWithinYear, JsDate.YearFromTime;
          by rewrite Heq).
    assert (Hta : 0 <= JsDate.TimeWithinDay a < 86400000)
      by (unfold JsDate.TimeWithinDay, JsDate.msPerDay; Z.div_mod_to_equations; lia).
    assert (Htb : 0 <= JsDate.TimeWithinDay b < 86400000)
      by (unfold JsDate.TimeWithinDay, JsDate.msPerDay; Z.div_mod_to_equations; lia).
    rewrite compare_pad by pad_bounds. rewrite Hy, Z.compare_refl.
    change ("-" +:+ ?x) with (String "-" x). rewrite compare_same_head.
    rewrite compare_pad by pad_bounds. rewrite Hm, Z.compare_refl.
    change ("-" +:+ ?x) with (String "-" x). rewrite compare_same_head.
    rewrite compare_pad by pad_bounds. rewrite Hd, Z.compare_refl.
    change ("T" +:+ ?x) with (String "T" x). rewrite compare_same_head.
    unfold JsDate.HourFromTime, JsDate.MinFromTime, JsDate.SecFromTime, JsDate.msFromTime.
    set (ta := JsDate.TimeWithinDay a) in *. set (tb := JsDate.TimeWithinDay b) in *.
    clearbody ta tb.
    rewrite compare_pad by pad_bounds.
    destruct (Z.compare_spec (ta / 3600000) (tb / 3600000));
      [|done|exfalso; Z.div_mod_to_equations; lia].
    change (":" +:+ ?x) with (String ":" x). rewrite compare_same_head.
    rewrite compare_pad by pad_bounds.
    destruct (Z.compare_spec ((ta / 60000) mod 60) ((tb / 60000) mod 60));
      [|done|exfalso; Z.div_mod_to_equations; lia].
    change (":" +:+ ?x) with (String ":" x). rewrite compare_same_head.
    rewrite compare_pad by pad_bounds.
    destruct (Z.compare_spec ((ta / 1000) mod 60) ((tb / 1000) mod 60));
      [|done|exfalso; Z.div_mod_to_equations; lia].
    change ("." +:+ ?x) with (String "." x). rewrite compare_same_head.
    rewrite compare_pad by pad_bounds.
    destruct (Z.compare_spec (ta mod 1000) (tb mod 1000));
      [exfalso; Z.div_mod_to_equations; lia|done|exfalso; Z.div_mod_to_equations; lia].
Qed.

Lemma string_compare_refl (s : string) : String.compare s s = Eq.
Proof. induction s as [|c s IH]; [reflexivity|]. by rewrite compare_same_head. Qed.

(** SQLite compares the two ISO texts byte by byte; for time values of the
    years 0000 to 9999 that is the order of the time values. *)
Lemma toISOString_ltb (a b : Z) :
  -62167219200000 <= a < 253402300800000 ->
  -62167219200000 <= b < 253402300800000 ->
  String.ltb (JsDate.toISOString a) (JsDate.toISOString b) = bool_decide (a < b).
Proof.
  intros Ha Hb. unfold String.ltb.
  destruct (Z.lt_total a b) as [Hlt | [-> | Hgt]].
  - rewrite (toISOString_lt a b Ha Hb Hlt). by rewrite bool_decide_eq_true_2.
  - rewrite string_compare_refl. by rewrite bool_decide_eq_false_2 by lia.
  - rewrite String.compare_antisym, (toISOString_lt b a Hb Ha Hgt).
    by rewrite bool_decide_eq_false_2 by lia.
Qed.

Lemma pad_head (w : nat) : forall x : Z,
  exists d r, 0 <= d <= 9 /\ JsDate.pad (S w) x = String (JsDate.digit d) r.
Proof.
  induction w as [|w IH]; intros x.
  - exists (x mod 10), EmptyString. split; [Z.div_mod_to_equations; lia | reflexivity].
  - destruct (IH (x / 10)) as (d & r & Hd & Hr).
    exists d, (r +:+ String (JsDate.digit (x mod 10)) EmptyString). split; [done|].
    change (JsDate.pad (S (S w)) x)
      with (JsDate.pad (S w) (x / 10) +:+ String (JsDate.digit (x mod 10)) EmptyString).
    by rewrite Hr.
Qed.

(** The text of a time value past the year 9999 starts with a plus sign, which
    sorts before every digit: it is smaller than the text of any time value of a
    four-digit year. *)
Lemma toISOString_far_future (expiry now : Z) :
  253402300800000 <= expiry ->
  -62167219200000 <= now < 253402300800000 ->
  String.ltb (JsDate.toISOString expiry) (JsDate.toISOString now) = true
  /\ String.ltb (JsDate.toISOString now) (JsDate.toISOString expiry) = false.
Proof.
  intros He Hn. pose proof (far_future_year expiry He) as Hy.
  rewrite (toISOString_four_digit now Hn).
  destruct (pad_head 3 (JsDate.YearFromTime now)) as (d & r & Hd & ->).
  unfold JsDate.toISOString, JsDate.year_text.
  destruct (Z.leb_spec (JsDate.YearFromTime expiry) 9999); [lia|].
  destruct (Z.ltb_spec (JsDate.YearFromTime expiry) 0); [lia|].
  rewrite andb_false_r.
  assert (Hc : Ascii.compare "+" (JsDate.digit d) = Lt).
  { assert (Hcases : d = 0 \/ d = 1 \/ d = 2 \/ d = 3 \/ d = 4 \/ d = 5 \/ d = 6 \/ d = 7
                     \/ d = 8 \/ d = 9) by lia.
    destruct Hcases as [->|[->|[->|[->|[->|[->|[->|[->|[->| ->]]]]]]]]]; reflexivity. }
  unfold String.ltb.
  change (("+" +:+ ?p) +:+ ?q) with (String "+" (p +:+ q)).
  change (String ?c ?p +:+ ?q) with (String c (p +:+ q)).
  split.
  - cbn [String.compare]. by rewrite Hc.
  - rewrite String.compare_antisym. cbn [String.compare]. by rewrite Hc.
Qed.

Lemma four_digit_year_range (t : Z) :
  JsDate.four_digit_year t = true <-> -62167219200000 <= t < 253402300800000.
Proof. unfold JsDate.four_digit_year. rewrite andb_true_iff, Z.leb_le, Z.ltb_lt. tauto. Qed.

Lemma far_past_year (t : Z) :
  t < -62167219200000 -> JsDate.YearFromTime t < 0.
Proof.
  intros Ht. unfold JsDate.YearFromTime.
  destruct (year_and_day_spec (JsDate.Day t)) as [Hd Bd].
  set (y := (JsDate.year_and_day (JsDate.Day t)).1) in *.
  assert (Hday : JsDate.Day t < -719528).
  { unfold JsDate.Day, JsDate.msPerDay. Z.div_mod_to_equations. lia. }
  destruct (Z.lt_ge_cases y 0) as [|Hbig]; [done|].
  pose proof (DayFromYear_mono 0 y ltac:(lia)) as Hm.
  change (JsDate.DayFromYear 0) with (-719528) in Hm. lia.
Qed.

(** The text of a time value before the year 0000 starts with a minus sign,
    which sorts before every digit as well. *)
Lemma toISOString_far_past (expiry now : Z) :
  expiry < -62167219200000 ->
  -62167219200000 <= now < 253402300800000 ->
  String.ltb (JsDate.toISOString expiry) (JsDate.toISOString now) = true
  /\ String.ltb (JsDate.toISOString now) (JsDate.toISOString expiry) = false.
Proof.
  intros He Hn. pose proof (far_past_year expiry He) as Hy.
  rewrite (toISOString_four_digit now Hn).
  destruct (pad_head 3 (JsDate.YearFromTime now)) as (d & r & Hd & ->).
  unfold JsDate.toISOString, JsDate.year_text.
  destruct (Z.leb_spec 0 (JsDate.YearFromTime expiry)); [lia|].
  destruct (Z.ltb_spec (JsDate.YearFromTime expiry) 0); [|lia].
  rewrite andb_false_l.
  assert (Hc : Ascii.compare "-" (JsDate.digit d) = Lt).
  { assert (Hcases : d = 0 \/ d = 1 \/ d = 2 \/ d = 3 \/ d = 4 \/ d = 5 \/ d = 6 \/ d = 7
                     \/ d = 8 \/ d = 9) by lia.
    destruct Hcases as [->|[->|[->|[->|[->|[->|[->|[->|[->| ->]]]]]]]]]; reflexivity. }
  unfold String.ltb.
  change (("-" +:+ ?p) +:+ ?q) with (String "-" (p +:+ q)).
  change (String ?c ?p +:+ ?q) with (String c (p +:+ q)).
  split.
  - cbn [String.compare]. by rewrite Hc.
  - rewrite String.compare_antisym. cbn [String.compare]. by rewrite Hc.
Qed.

(** [expires_at < ?] at a clock reading: true of a request that has expired
    and of one whose expiry lies outside the years 0000 to 9999. *)
Lemma text_lt_expired (expiry now : Z) :
  JsDate.four_digit_year now = true ->
  Db.text_lt expiry now = negb (JsDate.four_digit_year expiry && (now <=? expiry)).
Proof.
  intros Hnow. apply four_digit_year_range in Hnow. unfold Db.text_lt.
  destruct (JsDate.four_digit_year expiry) eqn:He.
  - apply four_digit_year_range in He. rewrite toISOString_ltb by done.
    cbn [andb]. destruct (Z.leb_spec now expiry).
    + by rewrite bool_decide_eq_false_2 by lia.
    + by rewrite bool_decide_eq_true_2 by lia.
  - cbn [andb negb]. unfold JsDate.four_digit_year in He.
    apply andb_false_iff in He as [He | He].
    + apply Z.leb_gt in He. by apply toISOString_far_past.
    + apply Z.ltb_ge in He. by apply toISOString_far_future.
Qed.

(** [expires_at > ?] at a clock reading: true of a request that has not
    expired and whose expiry lies in the years 0000 to 9999. *)
Lemma text_lt_pending (expiry now : Z) :
  JsDate.four_digit_year now = true ->
  Db.text_lt now expiry = JsDate.four_digit_year expiry && (now <? expiry).
Proof.
  intros Hnow. apply four_digit_year_range in Hnow. unfold Db.text_lt.
  destruct (JsDate.four_digit_year expiry) eqn:He.
  - apply four_digit_year_range in He. rewrite toISOString_ltb by done.
    cbn [andb]. destruct (Z.ltb_spec now expiry).
    + by rewrite bool_decide_eq_true_2 by lia.
    + by rewrite bool_decide_eq_false_2 by lia.
  - cbn [andb]. unfold JsDate.four_digit_year in He.
    apply andb_false_iff in He as [He | He].
    + apply Z.leb_gt in He. by apply toISOString_far_past.
    + apply Z.ltb_ge in He. by apply toISOString_far_future.
Qed.

Lemma text_lt_irrefl (t : Z) : Db.text_lt t t = false.
Proof. unfold Db.text_lt, String.ltb. by rewrite string_compare_refl. Qed.


(** Every code handed out by [generateCode] is in upper case already. *)
Lemma generateCode_upper db now hex chatKey userInfo ttl code db' :
  PairingManager.generateCode db now hex chatKey userInfo ttl = (Ok code, db') ->
  Js.toUpperCase code = code.
Proof.
  unfold PairingManager.generateCode.
  destruct (Db.savePairingRequest _ _ _ _ _ _); intros [= <- _].
  apply toUpperCase_fixed. unfold Js.slice0.
  apply all_chars_substring, toUpperCase_all_fixed.
Qed.

Lemma generateCode_stored db now hex chatKey userInfo ttl code db' :
  PairingManager.generateCode db now hex chatKey userInfo ttl = (Ok code, db') ->
  exists request,
    Db.getPairingRequest db' code = Some request
    /\ pr_code request = code
    /\ pr_chatKey request = chatKey
    /\ pr_expiresAt request = now + default PairingManager.DEFAULT_EXPIRY_MS ttl.
Proof.
  unfold PairingManager.generateCode, Db.savePairingRequest.
  destruct (negb _); [discriminate|].
  destruct (pairing_requests _ !! _); intros [= <- <-].
  unfold Db.getPairingRequest. simpl. rewrite lookup_insert_eq. simpl. eauto.
Qed.

Lemma empty_codes_upper : Spec.codes_upper Db.empty.
Proof. intros code row H. simpl in H. by rewrite lookup_empty in H. Qed.

Lemma generateCode_codes_upper db now hex chatKey userInfo ttl code db' :
  Spec.codes_upper db ->
  PairingManager.generateCode db now hex chatKey userInfo ttl = (Ok code, db') ->
  Spec.codes_upper db'.
Proof.
  intros Hinv Hgen. pose proof (generateCode_upper _ _ _ _ _ _ _ _ Hgen) as Hup.
  revert Hgen. unfold PairingManager.generateCode, Db.savePairingRequest.
  destruct (negb _); [discriminate|].
  destruct (pairing_requests _ !! _); intros [= <- <-].
  intros c row. simpl. rewrite lookup_insert. case_decide as Hc.
  - intros _. by subst c.
  - intros Hrow. apply map_lookup_filter_Some in Hrow as [Hrow _]. eauto.
Qed.

(** The pending list holds the stored requests whose [expires_at] text is
    greater than the text of the clock reading. *)
Lemma listPending_text (db : BridgeDatabase) (now : Z) (r : PairingRequest) :
  r ∈ PairingManager.listPending db now
  <-> exists code row,
        pairing_requests db !! code = Some row
        /\ Db.text_lt now (prow_expires_at row) = true
        /\ r = Db.pairingRequest code row.
Proof.
  unfold PairingManager.listPending, Db.listPendingPairingRequests.
  rewrite merge_sort_Permutation, list_elem_of_fmap. split.
  - intros ([code row] & -> & Hin). apply list_elem_of_filter in Hin as [Hexp Hin].
    apply elem_of_map_to_list in Hin. exists code, row. auto.
  - intros (code & row & Hrow & Hexp & ->). exists (code, row). split; [reflexivity|].
    apply list_elem_of_filter. split; [exact Hexp|]. by apply elem_of_map_to_list.
Qed.

Lemma listPending_elem (db : BridgeDatabase) (now : Z) (r : PairingRequest) :
  JsDate.four_digit_year now = true ->
  r ∈ PairingManager.listPending db now
  <-> exists code row,
        pairing_requests db !! code = Some row
        /\ now < prow_expires_at row
        /\ JsDate.four_digit_year (prow_expires_at row) = true
        /\ r = Db.pairingRequest code row.
Proof.
  intros Hnow. rewrite listPending_text. split.
  - intros (code & row & Hrow & Hlt & ->). rewrite text_lt_pending in Hlt by done.
    apply andb_true_iff in Hlt as [Hfour Hlt]. apply Z.ltb_lt in Hlt.
    exists code, row. auto.
  - intros (code & row & Hrow & Hlt & Hfour & ->). exists code, row.
    split; [done|]. split; [|done].
    rewrite text_lt_pending by done. rewrite Hfour. by apply Z.ltb_lt.
Qed.

(** With the code spelled as it is stored, a pairing request is consumed
    by the first [approve]. *)
Lemma approve_stored_spelling_single_use db now code request :
  Js.toUpperCase code = code ->
  Db.getPairingRequest db code = Some request ->
  ~ pr_expiresAt request < now ->
  let result := PairingManager.approve db now code in
  result.1 = ApproveSuccess (pr_chatKey request) (pr_userInfo request)
  /\ Db.isAllowed result.2 (pr_chatKey request) = true
  /\ Db.getPairingRequest result.2 code = None
  /\ forall later, (PairingManager.approve result.2 later code).1
                   = ApproveFailure "Invalid or expired pairing code".
Proof.
  intros Hup Hreq Hfresh. unfold PairingManager.approve. rewrite Hup, Hreq.
  rewrite bool_decide_eq_false_2 by exact Hfresh. simpl.
  assert (Hgone : forall d, Db.getPairingRequest (Db.deletePairingRequest d code) code = None).
  { intros d. unfold Db.getPairingRequest, Db.deletePairingRequest. simpl.
    by rewrite lookup_delete_eq. }
  repeat split.
  - unfold Db.isAllowed, Db.addToAllowlist. apply bool_decide_eq_true.
    destruct (allowlist db !! pr_chatKey request) eqn:Hal; simpl.
    + by rewrite Hal.
    + by rewrite lookup_insert_eq.
  - apply Hgone.
  - intros later. by rewrite Hgone.
Qed.

(** With the code spelled as it is stored, approving a request whose expiry
    time has passed fails with "Pairing code has expired" and deletes the
    request's row without touching the allowlist; no later pending list
    holds it. *)
Lemma approve_expired_stored_spelling db now code request :
  Js.toUpperCase code = code ->
  Db.getPairingRequest db code = Some request ->
  pr_expiresAt request < now ->
  let result := PairingManager.approve db now code in
  result.1 = ApproveFailure "Pairing code has expired"
  /\ Db.getPairingRequest result.2 code = None
  /\ allowlist result.2 = allowlist db
  /\ (forall later r, r ∈ PairingManager.listPending result.2 later -> pr_code r <> code).
Proof.
  intros Hup Hreq Hexpired.
  unfold PairingManager.approve. rewrite Hup, Hreq.
  rewrite bool_decide_eq_true_2 by exact Hexpired. simpl.
  repeat split.
  - unfold Db.getPairingRequest. simpl. by rewrite lookup_delete_eq.
  - intros later r Hin Hcode. apply listPending_text in Hin as (c & row & Hrow & _ & ->).
    simpl in Hrow, Hcode. subst c. by rewrite lookup_delete_eq in Hrow.
Qed.

(** With any other spelling of the code, approving an expired request
    fails with "Pairing code has expired" as well, but the database is
    left as it was: the row stays. *)
Lemma approve_expired_other_spelling db now code request :
  Js.toUpperCase code <> code ->
  pairing_requests db !! code = None ->
  Db.getPairingRequest db (Js.toUpperCase code) = Some request ->
  pr_expiresAt request < now ->
  PairingManager.approve db now code = (ApproveFailure "Pairing code has expired", db).
Proof.
  intros Hne Hnone Hreq Hexpired. unfold PairingManager.approve. rewrite Hreq.
  rewrite bool_decide_eq_true_2 by exact Hexpired. f_equal.
  unfold Db.deletePairingRequest. rewrite delete_id by done. by destruct db.
Qed.

(** C8. Approving an expired request deletes its row only when the code is
    typed as it is stored. A request issued as "A1B2C3" with a time to live
    of 0 and approved one millisecond later as "a1b2c3" is found under the
    upper-cased code and reported as "Pairing code has expired", but the
    deletion is addressed to "a1b2c3": the database is unchanged, the row
    is still stored, and the same call gives the same answer again. Typed
    as "A1B2C3", the same approval deletes the row. The pending list holds
    the request in neither case, since it lists unexpired rows only (at a
    clock reading before the expiry instant it does hold the request). *)
Theorem approve_expired_lowercase_keeps_row :
  exists db1,
    PairingManager.generateCode Db.empty 1000 "a1b2c3" "telegram:42"
      (Examples.user "42" (Some "alice") "telegram") (Some 0) = (Ok "A1B2C3", db1)
    /\ let typed := PairingManager.approve db1 1001 "a1b2c3" in
       let stored := PairingManager.approve db1 1001 "A1B2C3" in
       typed.1 = ApproveFailure "Pairing code has expired"
       /\ typed.2 = db1
       /\ is_Some (Db.getPairingRequest typed.2 "A1B2C3")
       /\ (PairingManager.approve typed.2 1002 "a1b2c3").1
          = ApproveFailure "Pairing code has expired"
       /\ PairingManager.listPending typed.2 1002 = []
       /\ stored.1 = ApproveFailure "Pairing code has expired"
       /\ Db.getPairingRequest stored.2 "A1B2C3" = None
       /\ pairing_requests stored.2 = ∅
       /\ PairingManager.listPending stored.2 1002 = []
       /\ length (PairingManager.listPending db1 999) = 1%nat.
Proof.
  eexists. split; [reflexivity|].
  repeat split; try (vm_compute; eauto; fail).
Qed.

(** C3. The code is looked up in upper case but deleted as typed: a code
    issued as "A1B2C3" and approved as "a1b2c3" is found and promoted, its
    row is not deleted, and the same call succeeds a second time; [reject]
    with that spelling returns [true] and leaves the row in place as well. *)
Theorem approve_lowercase_replays :
  exists db1,
    PairingManager.generateCode Db.empty 1000 "a1b2c3" "telegram:42"
      (Examples.user "42" (Some "alice") "telegram") None = (Ok "A1B2C3", db1)
    /\ let first := PairingManager.approve db1 2000 "a1b2c3" in
       let second := PairingManager.approve first.2 3000 "a1b2c3" in
       first.1 = ApproveSuccess "telegram:42" (Examples.user "42" (Some "alice") "telegram")
       /\ is_Some (Db.getPairingRequest first.2 "A1B2C3")
       /\ second.1 = ApproveSuccess "telegram:42" (Examples.user "42" (Some "alice") "telegram")
       /\ second.1 <> ApproveFailure "Invalid or expired pairing code"
       /\ (PairingManager.reject db1 "a1b2c3").1 = true
       /\ is_Some (Db.getPairingRequest (PairingManager.reject db1 "a1b2c3").2 "A1B2C3").
Proof.
  eexists. split; [reflexivity|].
  repeat split; try (vm_compute; eauto; fail). discriminate.
Qed.

(** ** BridgeDatabase: the session upsert *)

Lemma getSession_saveSession_other db now chatKey handle agentId sessionName workspace ck sn :
  (ck, sn) <> (chatKey, sessionName) ->
  Db.getSession (Db.saveSession db now chatKey handle agentId sessionName workspace) ck sn
  = Db.getSession db ck sn.
Proof.
  intros Hne. unfold Db.getSession, Db.saveSession.
  destruct (sessions db !! (chatKey, sessionName)); simpl;
    by rewrite lookup_insert_ne.
Qed.

Lemma getSession_saveSession_handle db now chatKey handle agentId sessionName workspace :
  ses_sdkSessionId <$>
    Db.getSession (Db.saveSession db now chatKey handle agentId sessionName workspace)
      chatKey sessionName
  = Some handle.
Proof.
  unfold Db.getSession, Db.saveSession.
  destruct (sessions db !! (chatKey, sessionName)); simpl;
    by rewrite lookup_insert_eq.
Qed.

(** C9. Saving a session whose (chat_key, session_name) row already
    exists replaces the row's handle and last-active time only: its id,
    agent id, workspace, creation time and status stay as they were,
    whatever agent id and workspace the call supplies; every other session
    row and every other table is untouched. Outside the rows, the
    attempted insert consumes one value of the AUTOINCREMENT sequence. *)
Theorem saveSession_conflict_updates_handle_only
    (db : BridgeDatabase) (now : Z) (chatKey sessionName : string) (old : SessionInfo)
    (sdkSessionId agentId : string) (workspace : option string) :
  Db.getSession db chatKey sessionName = Some old ->
  let db' := Db.saveSession db now chatKey sdkSessionId agentId sessionName workspace in
  Db.getSession db' chatKey sessionName
  = Some {| ses_id := ses_id old;
            ses_chatKey := ses_chatKey old;
            ses_sessionName := ses_sessionName old;
            ses_sdkSessionId := sdkSessionId;
            ses_workspace := ses_workspace old;
            ses_agentId := ses_agentId old;
            ses_createdAt := ses_createdAt old;
            ses_lastActive := now;
            ses_status := ses_status old |}
  /\ (forall ck sn, (ck, sn) <> (chatKey, sessionName) ->
        Db.getSession db' ck sn = Db.getSession db ck sn)
  /\ sessions_seq db' = sessions_seq db + 1
  /\ active_sessions db' = active_sessions db
  /\ pairing_requests db' = pairing_requests db
  /\ allowlist db' = allowlist db.
Proof.
  intros Hold db'. split; [|split].
  - subst db'. unfold Db.getSession, Db.saveSession in *.
    destruct (sessions db !! (chatKey, sessionName)) as [row|]; [|discriminate].
    simpl in *. rewrite lookup_insert_eq. simpl. by injection Hold as <-.
  - intros ck sn Hne. by apply getSession_saveSession_other.
  - subst db'. unfold Db.getSession, Db.saveSession in *.
    destruct (sessions db !! (chatKey, sessionName)); [|discriminate]. by simpl.
Qed.

Lemma saveSession_conflict_updates_handle_only_witness :
  let db := Db.saveSession Db.empty 1000 "telegram:42" "ccb-1000-abc123" "main" "main"
              (Some "/srv/main") in
  Db.getSession (Db.saveSession db 2000 "telegram:42" "sdk-session-1" "coder" "main"
                   (Some "/srv/coder")) "telegram:42" "main"
  = Some {| ses_id := 1; ses_chatKey := "telegram:42"; ses_sessionName := "main";
            ses_sdkSessionId := "sdk-session-1"; ses_workspace := Some "/srv/main";
            ses_agentId := "main"; ses_createdAt := 1000; ses_lastActive := 2000;
            ses_status := "active" |}.
Proof.
  intros db.
  apply (saveSession_conflict_updates_handle_only db 2000 "telegram:42" "main"
           {| ses_id := 1; ses_chatKey := "telegram:42"; ses_sessionName := "main";
              ses_sdkSessionId := "ccb-1000-abc123"; ses_workspace := Some "/srv/main";
              ses_agentId := "main"; ses_createdAt := 1000; ses_lastActive := 1000;
              ses_status := "active" |}
           "sdk-session-1" "coder" (Some "/srv/coder")).
  reflexivity.
Defined.

(** ** SessionManager: one turn *)

Lemma first_chunk_not_error content chunk :
  SessionManager.first_chunk content = Some chunk -> Spec.is_error_chunk chunk = false.
Proof.
  induction content as [|[text|name|] rest IH]; simpl; intros H;
    try discriminate; try (by injection H as <-); auto.
Qed.

Lemma processSDKMessage_not_error event chunk :
  SessionManager.processSDKMessage event = Some chunk -> Spec.is_error_chunk chunk = false.
Proof.
  destruct event as [[content|]| |]; simpl; try discriminate.
  apply first_chunk_not_error.
Qed.

(** Forwarding the port's events never yields an [error] chunk. *)
Lemma stream_no_error events sessionId :
  filter Spec.is_error_chunk (SessionManager.stream events sessionId).1 = [].
Proof.
  revert sessionId. induction events as [|event rest IH]; intros sessionId; simpl; [done|].
  destruct (SessionManager.stream rest _) as [chunks final] eqn:Hrest. simpl.
  specialize (IH (match event with ResultMessage sid => Some sid | _ => sessionId end)).
  rewrite Hrest in IH. simpl in IH.
  destruct (SessionManager.processSDKMessage event) as [chunk|] eqn:Hchunk; [|exact IH].
  apply processSDKMessage_not_error in Hchunk.
  rewrite filter_cons. rewrite Hchunk. simpl. exact IH.
Qed.

(** What a turn that reaches the port calls it with. *)
Lemma sendMessage_query sm now query message options prompt opts :
  turn_query (SessionManager.sendMessage sm now query message options) = Some (prompt, opts) ->
  exists agent,
    SessionManager.resolveAgent sm message options = Ok (Some agent)
    /\ prompt = msg_text message
    /\ opts = SessionManager.queryOptions agent message
                (ses_sdkSessionId <$>
                   Db.getSession (sm_db sm) (msg_chatKey message)
                     (Spec.turn_sessionName sm message options)).
Proof.
  unfold SessionManager.sendMessage, Spec.turn_sessionName.
  destruct (SessionManager.resolveAgent sm message options) as [[agent|]|e];
    simpl; try discriminate.
  destruct (SessionManager.stream _ _) as [chunks sessionId].
  destruct (run_error _); simpl; intros [= <- <-]; eauto.
Qed.

(** C7. When the run of the agent-execution port started by a turn raises
    an error, the turn yields the chunks forwarded so far followed by one
    [error] chunk carrying the error's message and nothing after it; that
    is the only [error] chunk of the turn, the generator itself does not
    reject, and the session manager (database and cache) is exactly as it
    was before the turn, so no session row was written. *)
Theorem sendMessage_port_error_single_error_chunk
    (sm : SessionManager) (now : Z) (query : Query)
    (message : IncomingMessage) (options : SendMessageOptions)
    (prompt : string) (opts : Options) (errorMessage : string) :
  let turn := SessionManager.sendMessage sm now query message options in
  turn_query turn = Some (prompt, opts) ->
  run_error (query prompt opts) = Some errorMessage ->
  (exists forwarded,
      turn_chunks turn = (forwarded ++ [ChunkError errorMessage])%list
      /\ filter Spec.is_error_chunk forwarded = [])
  /\ last (turn_chunks turn) = Some (ChunkError errorMessage)
  /\ length (filter Spec.is_error_chunk (turn_chunks turn)) = 1%nat
  /\ turn_thrown turn = None
  /\ turn_after turn = sm
  /\ (forall chatKey sessionName,
        Db.getSession (sm_db (turn_after turn)) chatKey sessionName
        = Db.getSession (sm_db sm) chatKey sessionName).
Proof.
  intros turn Hquery Herror.
  destruct (sendMessage_query _ _ _ _ _ _ _ Hquery) as (agent & Hagent & -> & Hopts).
  subst turn. unfold SessionManager.sendMessage in *.
  rewrite Hagent in *. fold (Spec.turn_sessionName sm message options) in *.
  rewrite <- Hopts in *. clear Hquery.
  pose proof (stream_no_error (run_events (query (msg_text message) opts))
                (ses_sdkSessionId <$>
                   Db.getSession (sm_db sm) (msg_chatKey message)
                     (Spec.turn_sessionName sm message options))) as Hclean.
  destruct (SessionManager.stream _ _) as [chunks sessionId]. simpl in Hclean.
  rewrite Herror. simpl. repeat split.
  - exists chunks. auto.
  - apply last_snoc.
  - rewrite filter_app, Hclean. reflexivity.
Qed.

Lemma sendMessage_port_error_single_error_chunk_witness :
  let sm := Examples.fresh_manager in
  let turn := SessionManager.sendMessage sm 1000 Examples.failing_query Examples.group_hello
                Examples.no_options in
  turn_chunks turn = [ChunkText "partial"; ChunkError "socket hang up"]
  /\ turn_after turn = sm.
Proof.
  intros sm turn.
  destruct (sendMessage_port_error_single_error_chunk sm 1000 Examples.failing_query
              Examples.group_hello Examples.no_options
              "hello"
              (SessionManager.queryOptions Examples.coder_agent Examples.group_hello None)
              "socket hang up" eq_refl eq_refl)
    as (_ & _ & _ & _ & Hafter & _).
  split; [reflexivity | exact Hafter].
Defined.

(** ** SessionManager: resumption *)

Lemma placeholderId_is_placeholder now rnd :
  Spec.is_placeholder (SessionManager.placeholderId now rnd) = true.
Proof. reflexivity. Qed.

Lemma resumable_iff (stored : option string) :
  SessionManager.resumable stored = true
  <-> exists h, stored = Some h /\ h <> "" /\ Spec.is_placeholder h = false.
Proof.
  unfold SessionManager.resumable, Spec.is_placeholder.
  destruct stored as [h|]; simpl.
  - rewrite andb_true_iff, negb_true_iff, negb_true_iff.
    destruct (String.eqb_spec h ""); split.
    + intros [? _]. discriminate.
    + intros (? & [= <-] & ? & _). contradiction.
    + intros [_ ?]. eauto.
    + intros (? & [= <-] & _ & ?). auto.
  - split; [discriminate | intros (? & ? & _); discriminate].
Qed.

Lemma sendMessage_reaches_port sm now query message options agent :
  SessionManager.resolveAgent sm message options = Ok (Some agent) ->
  turn_query (SessionManager.sendMessage sm now query message options)
  = Some (msg_text message,
          SessionManager.queryOptions agent message
            (ses_sdkSessionId <$>
               Db.getSession (sm_db sm) (msg_chatKey message)
                 (Spec.turn_sessionName sm message options))).
Proof.
  intros Hagent. unfold SessionManager.sendMessage. rewrite Hagent.
  fold (Spec.turn_sessionName sm message options).
  destruct (SessionManager.stream _ _) as [chunks sessionId].
  by destruct (run_error _).
Qed.

(** A completed turn records the last handle it has seen. *)
Lemma sendMessage_completed sm now query message options agent handle :
  SessionManager.resolveAgent sm message options = Ok (Some agent) ->
  let stored := ses_sdkSessionId <$>
                  Db.getSession (sm_db sm) (msg_chatKey message)
                    (Spec.turn_sessionName sm message options) in
  let response := query (msg_text message)
                    (SessionManager.queryOptions agent message stored) in
  run_error response = None ->
  (SessionManager.stream (run_events response) stored).2 = Some handle ->
  handle <> "" ->
  turn_after (SessionManager.sendMessage sm now query message options)
  = SessionManager.with_db sm
      (Db.saveSession (sm_db sm) now (msg_chatKey message) handle (agent_id agent)
         (Spec.turn_sessionName sm message options) (Some (agent_workspace agent))).
Proof.
  intros Hagent stored response Hdone Hfinal Hne.
  unfold SessionManager.sendMessage. rewrite Hagent.
  fold (Spec.turn_sessionName sm message options). fold stored. fold response.
  destruct (SessionManager.stream _ _) as [chunks sessionId]. simpl in Hfinal. subst sessionId.
  rewrite Hdone. simpl.
  destruct (String.eqb_spec handle "") as [? | _]; [contradiction | reflexivity].
Qed.

(** The manager's writes keep stored handles non-empty. *)
Lemma saveSession_handles_nonempty db now chatKey handle agentId sessionName workspace :
  Spec.handles_nonempty db -> handle <> "" ->
  Spec.handles_nonempty (Db.saveSession db now chatKey handle agentId sessionName workspace).
Proof.
  intros Hinv Hne key row. unfold Db.saveSession.
  destruct (sessions db !! (chatKey, sessionName)) as [old|] eqn:Hold; simpl;
    rewrite lookup_insert; case_decide; intros Hrow; simplify_eq; simpl; eauto.
Qed.

Lemma empty_handles_nonempty : Spec.handles_nonempty Db.empty.
Proof. intros key row H. simpl in H. by rewrite lookup_empty in H. Qed.

Lemma createNewSession_handles_nonempty sm now rnd chatKey agent sessionName :
  Spec.handles_nonempty (sm_db sm) ->
  Spec.handles_nonempty
    (sm_db (SessionManager.createNewSession sm now rnd chatKey agent sessionName).2).
Proof. intros Hinv. simpl. by apply saveSession_handles_nonempty. Qed.

Lemma sendMessage_handles_nonempty sm now query message options :
  Spec.handles_nonempty (sm_db sm) ->
  Spec.handles_nonempty
    (sm_db (turn_after (SessionManager.sendMessage sm now query message options))).
Proof.
  intros Hinv. unfold SessionManager.sendMessage.
  destruct (SessionManager.resolveAgent sm message options) as [[agent|]|e]; simpl; auto.
  destruct (SessionManager.stream _ _) as [chunks [handle|]].
  all: destruct (run_error _); simpl; auto.
  destruct (String.eqb_spec handle ""); simpl; auto.
  by apply saveSession_handles_nonempty.
Qed.

Lemma resume_of_query sm now query message options prompt opts :
  turn_query (SessionManager.sendMessage sm now query message options) = Some (prompt, opts) ->
  let stored := ses_sdkSessionId <$>
                  Db.getSession (sm_db sm) (msg_chatKey message)
                    (Spec.turn_sessionName sm message options) in
  o_resume opts = if SessionManager.resumable stored then stored else None.
Proof.
  intros Hq. apply sendMessage_query in Hq as (agent & _ & _ & ->). reflexivity.
Qed.

Lemma saveSession_active_sessions db now chatKey handle agentId sessionName workspace :
  active_sessions (Db.saveSession db now chatKey handle agentId sessionName workspace)
  = active_sessions db.
Proof. unfold Db.saveSession. by destruct (sessions db !! (chatKey, sessionName)). Qed.

Lemma turn_sessionName_saveSession sm cache now chatKey handle agentId sessionName workspace
    message options :
  Spec.turn_sessionName
    (SessionManager.with_cache sm
       (Db.saveSession (sm_db sm) now chatKey handle agentId sessionName workspace) cache)
    message options
  = Spec.turn_sessionName sm message options.
Proof.
  unfold Spec.turn_sessionName, Db.getActiveSessionName. simpl.
  by rewrite saveSession_active_sessions.
Qed.

(** C2. In a session manager whose stored handles are non-empty (as all
    handles it writes are), take a turn that reaches the agent-execution
    port. The resume token it passes is never a "ccb-" placeholder; a
    token is passed exactly when a session row is stored for the turn's
    (chatKey, sessionName) and its handle is not a placeholder, and the
    token is then that handle. A session just created by
    [createNewSession] is not resumed by the next turn; and once a turn
    has completed with a non-placeholder handle, the next turn on the same
    key reaches the port with that handle as resume token. *)
Theorem sendMessage_resumes_only_real_handles
    (sm : SessionManager) (now : Z) (query : Query)
    (message : IncomingMessage) (options : SendMessageOptions)
    (prompt : string) (opts : Options) :
  Spec.handles_nonempty (sm_db sm) ->
  turn_query (SessionManager.sendMessage sm now query message options) = Some (prompt, opts) ->
  let chatKey := msg_chatKey message in
  let sessionName := Spec.turn_sessionName sm message options in
  let stored := ses_sdkSessionId <$> Db.getSession (sm_db sm) chatKey sessionName in
  (forall h, o_resume opts = Some h -> Spec.is_placeholder h = false)
  /\ (forall h, o_resume opts = Some h
                <-> stored = Some h /\ Spec.is_placeholder h = false)
  /\ (forall t rnd agent now' query',
        let created := (SessionManager.createNewSession sm t rnd chatKey agent sessionName).2 in
        exists opts',
          turn_query (SessionManager.sendMessage created now' query' message options)
          = Some (prompt, opts')
          /\ o_resume opts' = None)
  /\ (forall h now' query',
        run_error (query prompt opts) = None ->
        (SessionManager.stream (run_events (query prompt opts)) stored).2 = Some h ->
        h <> "" ->
        Spec.is_placeholder h = false ->
        let after := turn_after (SessionManager.sendMessage sm now query message options) in
        Db.getSession (sm_db after) chatKey sessionName <> None
        /\ exists opts',
             turn_query (SessionManager.sendMessage after now' query' message options)
             = Some (prompt, opts')
             /\ o_resume opts' = Some h).
Proof.
  intros Hinv Hq chatKey sessionName stored.
  pose proof (resume_of_query _ _ _ _ _ _ _ Hq) as Hres. fold chatKey sessionName stored in Hres.
  destruct (sendMessage_query _ _ _ _ _ _ _ Hq) as (agent & Hagent & -> & Hopts).
  fold chatKey sessionName stored in Hopts.
  assert (Hiff : forall h, o_resume opts = Some h
                           <-> stored = Some h /\ Spec.is_placeholder h = false).
  { intros h. rewrite Hres.
    destruct (SessionManager.resumable stored) eqn:Hr.
    - apply resumable_iff in Hr as (h' & Hst & _ & Hreal). rewrite Hst.
      split; [intros [= <-]; auto | intros [? _]; done].
    - split; [discriminate|]. intros [Hst Hreal]. exfalso.
      assert (Hno : ~ SessionManager.resumable stored = true) by congruence.
      apply Hno, resumable_iff. exists h. repeat split; auto.
      subst stored. unfold Db.getSession in Hst.
      destruct (sessions (sm_db sm) !! (chatKey, sessionName)) as [row|] eqn:Hrow;
        [|discriminate].
      injection Hst as <-. simpl. exact (Hinv _ _ Hrow). }
  split; [intros h Hh; by apply Hiff in Hh as [_ ?]|]. split; [exact Hiff|]. split.
  - intros t rnd agent' now' query' created.
    assert (Hagent' : SessionManager.resolveAgent created message options = Ok (Some agent))
      by exact Hagent.
    assert (Hname : Spec.turn_sessionName created message options = sessionName)
      by apply turn_sessionName_saveSession.
    eexists. split; [apply (sendMessage_reaches_port _ _ _ _ _ _ Hagent')|].
    rewrite Hname. subst created. cbn [SessionManager.createNewSession snd sm_db
      SessionManager.with_cache].
    fold chatKey. rewrite getSession_saveSession_handle. reflexivity.
  - intros h now' query' Hdone Hfinal Hne Hreal after.
    assert (Hafter : after = SessionManager.with_db sm
              (Db.saveSession (sm_db sm) now chatKey h (agent_id agent) sessionName
                 (Some (agent_workspace agent)))).
    { subst after.
      pose proof (sendMessage_completed sm now query message options agent h Hagent) as Hc.
      cbv zeta in Hc. fold chatKey sessionName stored in Hc. rewrite <- Hopts in Hc.
      exact (Hc Hdone Hfinal Hne). }
    assert (Hagent' : SessionManager.resolveAgent after message options = Ok (Some agent))
      by (rewrite Hafter; exact Hagent).
    assert (Hname : Spec.turn_sessionName after message options = sessionName)
      by (rewrite Hafter; apply turn_sessionName_saveSession).
    assert (Hstored : ses_sdkSessionId <$> Db.getSession (sm_db after) chatKey sessionName
                      = Some h).
    { rewrite Hafter. simpl. apply getSession_saveSession_handle. }
    split; [intros Hnone; rewrite Hnone in Hstored; discriminate|].
    eexists. split; [apply (sendMessage_reaches_port _ _ _ _ _ _ Hagent')|].
    rewrite Hname. fold chatKey. rewrite Hstored. simpl.
    assert (Hr : SessionManager.resumable (Some h) = true).
    { apply resumable_iff. eauto. }
    by rewrite Hr.
Qed.

Lemma sendMessage_resumes_only_real_handles_witness :
  let created := (SessionManager.getOrCreateSession Examples.fresh_manager 1000 "abc123"
                    "telegram:group:555" Examples.coder_agent None).2 in
  let turn1 := SessionManager.sendMessage created 2000 Examples.replying_query
                 Examples.group_hello Examples.no_options in
  let turn2 := SessionManager.sendMessage (turn_after turn1) 3000 Examples.replying_query
                 Examples.group_hello Examples.no_options in
  (ses_sdkSessionId <$> Db.getSession (sm_db created) "telegram:group:555" "main")
  = Some "ccb-1000-abc123"
  /\ (o_resume ∘ snd <$> turn_query turn1) = Some None
  /\ (o_resume ∘ snd <$> turn_query turn2) = Some (Some "sdk-session-1").
Proof.
  intros created turn1 turn2.
  split; [reflexivity|]. split; [reflexivity|].
  assert (Hinv : Spec.handles_nonempty (sm_db created))
    by apply createNewSession_handles_nonempty, empty_handles_nonempty.
  destruct (sendMessage_resumes_only_real_handles created 2000 Examples.replying_query
              Examples.group_hello Examples.no_options "hello"
              (SessionManager.queryOptions Examples.coder_agent Examples.group_hello
                 (Some "ccb-1000-abc123")) Hinv eq_refl)
    as (_ & _ & _ & Hnext).
  destruct (Hnext "sdk-session-1" 3000 Examples.replying_query
              eq_refl eq_refl ltac:(discriminate) eq_refl)
    as (_ & opts' & Hq & Hresume).
  subst turn2 turn1. rewrite Hq. simpl. by rewrite Hresume.
Defined.

(** ** BridgeDatabase: listings, deletion and the allowlist table *)

Lemma by_recency_total : Total Db.by_recency.
Proof. intros a b. unfold Db.by_recency. lia. Qed.

Lemma by_recency_transitive : Transitive Db.by_recency.
Proof. intros a b c. unfold Db.by_recency. lia. Qed.

Lemma sessionInfo_inj : Inj (=) (=) (uncurry Db.sessionInfo).
Proof.
  intros [[ck sn] r] [[ck' sn'] r'] H. unfold uncurry, Db.sessionInfo in H. simpl in H.
  destruct r, r'. simpl in H. injection H. intros. by subst.
Qed.

Lemma listSessions_elem (db : BridgeDatabase) (chatKey : string) (s : SessionInfo) :
  s ∈ Db.listSessions db chatKey <-> exists sn, Db.getSession db chatKey sn = Some s.
Proof.
  unfold Db.listSessions, Db.getSession.
  rewrite merge_sort_Permutation, list_elem_of_fmap. split.
  - intros ([[ck sn] row] & -> & Hin). apply list_elem_of_filter in Hin as [Hck Hin].
    simpl in Hck. subst ck. apply elem_of_map_to_list in Hin.
    exists sn. by rewrite Hin.
  - intros (sn & Hs).
    destruct (sessions db !! (chatKey, sn)) as [row|] eqn:Hrow; [|discriminate].
    injection Hs as <-. exists ((chatKey, sn), row). split; [reflexivity|].
    apply list_elem_of_filter. split; [reflexivity|]. by apply elem_of_map_to_list.
Qed.

(** X1. [listSessions] returns exactly the stored sessions of the chat,
    each once, most recently active first. *)
Theorem listSessions_complete_sorted (db : BridgeDatabase) (chatKey : string) :
  (forall s, s ∈ Db.listSessions db chatKey
             <-> exists sn, Db.getSession db chatKey sn = Some s)
  /\ NoDup (Db.listSessions db chatKey)
  /\ StronglySorted (fun a b => ses_lastActive b <= ses_lastActive a)
       (Db.listSessions db chatKey).
Proof.
  split; [intros s; apply listSessions_elem|]. split.
  - unfold Db.listSessions. rewrite merge_sort_Permutation.
    apply (@NoDup_fmap_2 _ _ (uncurry Db.sessionInfo) sessionInfo_inj).
    apply NoDup_filter, NoDup_map_to_list.
  - apply (@StronglySorted_merge_sort _ Db.by_recency _ by_recency_transitive
             by_recency_total).
Qed.

(** X2. [deleteAllSessions] removes every session row of the chat
    and its active-session pointer, so the chat's active session reads as
    "main" again; sessions and pointers of other chats, pairing requests
    and the allowlist are untouched. *)
Theorem deleteAllSessions_clears_chat_only (db : BridgeDatabase) (chatKey : string) :
  let db' := Db.deleteAllSessions db chatKey in
  (forall sn, Db.getSession db' chatKey sn = None)
  /\ Db.listSessions db' chatKey = []
  /\ Db.getActiveSessionName db' chatKey = "main"
  /\ (forall ck sn, ck <> chatKey -> Db.getSession db' ck sn = Db.getSession db ck sn)
  /\ (forall ck, ck <> chatKey ->
        Db.getActiveSessionName db' ck = Db.getActiveSessionName db ck)
  /\ pairing_requests db' = pairing_requests db
  /\ allowlist db' = allowlist db.
Proof.
  intros db'.
  assert (Hgone : forall sn, Db.getSession db' chatKey sn = None).
  { intros sn. unfold Db.getSession. simpl.
    destruct (filter _ (sessions db) !! (chatKey, sn)) as [row|] eqn:Hrow; [|done].
    apply map_lookup_filter_Some in Hrow as [_ Hne]. by destruct Hne. }
  repeat split; try done.
  - destruct (Db.listSessions db' chatKey) as [|s l] eqn:Hl; [done|].
    assert (Hin : s ∈ Db.listSessions db' chatKey) by (rewrite Hl; left).
    apply listSessions_elem in Hin as (sn & Hs). by rewrite Hgone in Hs.
  - unfold Db.getActiveSessionName. simpl. by rewrite lookup_delete_eq.
  - intros ck sn Hne. unfold Db.getSession. simpl. f_equal.
    destruct (sessions db !! (ck, sn)) as [row|] eqn:Hrow.
    + by apply map_lookup_filter_Some.
    + apply map_lookup_filter_None. left. exact Hrow.
  - intros ck Hne. unfold Db.getActiveSessionName. simpl. by rewrite lookup_delete_ne.
Qed.

(** The clean-up keeps the rows whose [expires_at] text is not smaller than
    the text of the clock reading. *)
Lemma cleanup_text (db : BridgeDatabase) (now : Z) (code : string) (row : PairingRow) :
  pairing_requests (Db.cleanupExpiredPairingRequests db now).2 !! code = Some row
  <-> pairing_requests db !! code = Some row
      /\ Db.text_lt (prow_expires_at row) now = false.
Proof. simpl. by rewrite map_lookup_filter_Some. Qed.

Lemma cleanup_lookup (db : BridgeDatabase) (now : Z) (code : string) (row : PairingRow) :
  JsDate.four_digit_year now = true ->
  pairing_requests (Db.cleanupExpiredPairingRequests db now).2 !! code = Some row
  <-> pairing_requests db !! code = Some row
      /\ now <= prow_expires_at row
      /\ JsDate.four_digit_year (prow_expires_at row) = true.
Proof.
  intros Hnow. rewrite cleanup_text, text_lt_expired by done.
  rewrite negb_false_iff, andb_true_iff, Z.leb_le. tauto.
Qed.

Lemma getPairingRequest_cleanup db now code r :
  JsDate.four_digit_year now = true ->
  Db.getPairingRequest (Db.cleanupExpiredPairingRequests db now).2 code = Some r
  <-> Db.getPairingRequest db code = Some r
      /\ now <= pr_expiresAt r
      /\ JsDate.four_digit_year (pr_expiresAt r) = true.
Proof.
  intros Hnow. unfold Db.getPairingRequest.
  destruct (pairing_requests (Db.cleanupExpiredPairingRequests db now).2 !! code)
    as [row|] eqn:Hrow.
  - apply cleanup_lookup in Hrow as (Hrow & Hexp & Hfour); [|done]. rewrite Hrow. simpl.
    split; [intros [= <-]; auto | intros [? _]; done].
  - destruct (pairing_requests db !! code) as [row|] eqn:Hold; simpl.
    + split; [discriminate|]. intros ([= <-] & Hexp & Hfour). simpl in Hexp, Hfour.
      assert (Hkeep : pairing_requests (Db.cleanupExpiredPairingRequests db now).2 !! code
                      = Some row) by (apply cleanup_lookup; auto).
      congruence.
    + split; [discriminate | intros [? _]; discriminate].
Qed.

(** X3. At a clock reading [now], [cleanupExpiredPairingRequests]
    compares the ISO-8601 texts of the expiry time and of the clock
    reading. A request is stored afterwards iff it was stored before, its
    expiry time is not before [now], and its expiry lies in the years 0000
    to 9999: a request that expires later than the year 9999 has a text
    that starts with "+", which sorts before every digit, and is deleted
    although it has not expired. The returned count is the number of rows
    that disappeared; the pending list at that time or later is
    unaffected; no other table is touched. *)
Theorem cleanupExpired_removes_exactly_expired (db : BridgeDatabase) (now : Z) :
  JsDate.four_digit_year now = true ->
  let count := (Db.cleanupExpiredPairingRequests db now).1 in
  let db' := (Db.cleanupExpiredPairingRequests db now).2 in
  (forall code r, Db.getPairingRequest db' code = Some r
                  <-> Db.getPairingRequest db code = Some r
                      /\ now <= pr_expiresAt r
                      /\ JsDate.four_digit_year (pr_expiresAt r) = true)
  /\ (forall code r, Db.getPairingRequest db code = Some r ->
        253402300800000 <= pr_expiresAt r -> Db.getPairingRequest db' code = None)
  /\ 0 <= count
  /\ Z.of_nat (size (pairing_requests db')) = Z.of_nat (size (pairing_requests db)) - count
  /\ (forall later r, JsDate.four_digit_year later = true -> now <= later ->
        (r ∈ Db.listPendingPairingRequests db' later
         <-> r ∈ Db.listPendingPairingRequests db later))
  /\ sessions db' = sessions db
  /\ active_sessions db' = active_sessions db
  /\ allowlist db' = allowlist db.
Proof.
  intros Hnow count db'.
  assert (Hget : forall code r, Db.getPairingRequest db' code = Some r
                 <-> Db.getPairingRequest db code = Some r
                     /\ now <= pr_expiresAt r
                     /\ JsDate.four_digit_year (pr_expiresAt r) = true).
  { intros code r. by apply getPairingRequest_cleanup. }
  split; [exact Hget|]. split.
  { intros code r Hr Hfar.
    destruct (Db.getPairingRequest db' code) as [r'|] eqn:Hr'; [|done].
    apply Hget in Hr' as (Hr' & _ & Hfour). rewrite Hr in Hr'. injection Hr' as <-.
    apply four_digit_year_range in Hfour. lia. }
  assert (Hsize : (size (pairing_requests db') <= size (pairing_requests db))%nat).
  { apply map_subseteq_size. subst db'. simpl. apply map_filter_subseteq. }
  repeat split; try done.
  - subst count. simpl. simpl in Hsize. lia.
  - subst count. simpl. lia.
  - intros Hin. apply (listPending_elem _ _ _ H) in Hin as (code & row & Hrow & Hlt & Hfour & ->).
    apply (listPending_elem _ _ _ H). apply cleanup_lookup in Hrow as [Hrow _]; [|done].
    exists code, row. auto.
  - intros Hin. apply (listPending_elem _ _ _ H) in Hin as (code & row & Hrow & Hlt & Hfour & ->).
    apply (listPending_elem _ _ _ H). exists code, row. repeat split; auto.
    apply cleanup_lookup; [done|]. repeat split; [exact Hrow | lia | exact Hfour].
Qed.

Lemma cleanupExpired_removes_exactly_expired_witness :
  let row t := {| prow_chat_key := "telegram:42"; prow_user_id := "42";
                  prow_username := None; prow_display_name := None;
                  prow_channel := "telegram"; prow_created_at := 100;
                  prow_expires_at := t |} in
  let db := Db.with_pairing Db.empty
              {[ "AAAAAA" := row 500; "BBBBBB" := row 5000;
                 "CCCCCC" := row 253402300800000 ]} in
  (Db.cleanupExpiredPairingRequests db 1000).1 = 2
  /\ Db.getPairingRequest (Db.cleanupExpiredPairingRequests db 1000).2 "AAAAAA" = None
  /\ Db.getPairingRequest (Db.cleanupExpiredPairingRequests db 1000).2 "BBBBBB"
     = Some (Db.pairingRequest "BBBBBB" (row 5000))
  /\ Db.getPairingRequest (Db.cleanupExpiredPairingRequests db 1000).2 "CCCCCC" = None.
Proof.
  intros row db.
  destruct (cleanupExpired_removes_exactly_expired db 1000 eq_refl)
    as (Hget & Hfar & _ & _ & _).
  split; [reflexivity|]. split; [reflexivity|]. split.
  - apply Hget. split; [reflexivity|]. split; [simpl; lia | reflexivity].
  - apply (Hfar "CCCCCC" (Db.pairingRequest "CCCCCC" (row 253402300800000)));
      [reflexivity | simpl; lia].
Defined.

Lemma listAllowlist_elem (db : BridgeDatabase) (e : Db.AllowlistEntry) :
  e ∈ Db.listAllowlist db
  <-> exists row, allowlist db !! Db.al_chatKey e = Some row
                  /\ e = Db.allowlistEntry (Db.al_chatKey e) row.
Proof.
  unfold Db.listAllowlist. rewrite merge_sort_Permutation, list_elem_of_fmap. split.
  - intros ([ck row] & -> & Hin). apply elem_of_map_to_list in Hin. simpl. eauto.
  - intros (row & Hrow & He). exists (Db.al_chatKey e, row). split; [exact He|].
    by apply elem_of_map_to_list.
Qed.

(** X4. The allowlist table behaves as a set of chat keys with
    first-writer-wins metadata: after [addToAllowlist] the key is allowed;
    adding a key that is already present changes nothing (the first
    [added_at]/[added_by] are kept); after [removeFromAllowlist] the key is
    not allowed; neither operation affects another key; and
    [listAllowlist] lists exactly the allowed keys. *)
Theorem allowlist_add_remove_list
    (db : BridgeDatabase) (now later : Z) (chatKey : string) (addedBy other : option string) :
  let added := Db.addToAllowlist db now chatKey addedBy in
  Db.isAllowed added chatKey = true
  /\ Db.addToAllowlist added later chatKey other = added
  /\ Db.isAllowed (Db.removeFromAllowlist added chatKey) chatKey = false
  /\ (forall ck, ck <> chatKey ->
        Db.isAllowed added ck = Db.isAllowed db ck
        /\ Db.isAllowed (Db.removeFromAllowlist db chatKey) ck = Db.isAllowed db ck)
  /\ (forall ck, Db.isAllowed db ck = true
                 <-> exists e, e ∈ Db.listAllowlist db /\ Db.al_chatKey e = ck).
Proof.
  intros added.
  assert (Hin : is_Some (allowlist added !! chatKey)).
  { subst added. unfold Db.addToAllowlist.
    destruct (allowlist db !! chatKey) eqn:Hold; simpl.
    - rewrite Hold. eauto.
    - rewrite lookup_insert_eq. eauto. }
  split; [by apply bool_decide_eq_true|]. split.
  { unfold Db.addToAllowlist at 1. by destruct Hin as [row ->]. }
  split.
  { apply bool_decide_eq_false. simpl. rewrite lookup_delete_eq. by intros [? ?]. }
  split.
  - intros ck Hne. unfold Db.isAllowed. split; apply bool_decide_ext.
    + subst added. unfold Db.addToAllowlist.
      destruct (allowlist db !! chatKey); simpl; [done|]. by rewrite lookup_insert_ne.
    + simpl. by rewrite lookup_delete_ne.
  - intros ck. unfold Db.isAllowed. rewrite bool_decide_eq_true. split.
    + intros [row Hrow]. exists (Db.allowlistEntry ck row). split; [|done].
      apply listAllowlist_elem. simpl. eauto.
    + intros (e & He & <-). apply listAllowlist_elem in He as (row & Hrow & _). eauto.
Qed.

(** ** PairingManager: issuing, expiry boundary, rejection *)

(** X5. For a stored request addressed by its code as stored,
    with expiry time [t]: [approve] succeeds and [getRequest] returns the
    request at every clock reading up to and including [t]; both compare
    the times as numbers. [listPending] compares the ISO-8601 texts: it
    lists the request strictly before [t], and only if [t] lies in the
    years 0000 to 9999. So at the instant [t] itself the request is
    approvable although it is no longer listed, and a request that expires
    later than the year 9999 is approvable and never listed. *)
Theorem approve_and_listPending_at_expiry
    (db : BridgeDatabase) (code : string) (request : PairingRequest) :
  Js.toUpperCase code = code ->
  Db.getPairingRequest db code = Some request ->
  let t := pr_expiresAt request in
  (forall now, (PairingManager.approve db now code).1
               = ApproveSuccess (pr_chatKey request) (pr_userInfo request)
               <-> now <= t)
  /\ (forall now, PairingManager.getRequest db now code = Some request <-> now <= t)
  /\ (forall now, JsDate.four_digit_year now = true ->
        (request ∈ PairingManager.listPending db now
         <-> now < t /\ JsDate.four_digit_year t = true))
  /\ (PairingManager.approve db t code).1
     = ApproveSuccess (pr_chatKey request) (pr_userInfo request)
  /\ (request ∉ PairingManager.listPending db t)
  /\ (253402300800000 <= t ->
      forall now, JsDate.four_digit_year now = true ->
        (PairingManager.approve db now code).1
        = ApproveSuccess (pr_chatKey request) (pr_userInfo request)
        /\ request ∉ PairingManager.listPending db now).
Proof.
  intros Hup Hreq t.
  assert (Happrove : forall now, (PairingManager.approve db now code).1
               = ApproveSuccess (pr_chatKey request) (pr_userInfo request)
               <-> now <= t).
  { intros now. unfold PairingManager.approve. rewrite Hup, Hreq. fold t.
    case_bool_decide; simpl; split; intros; try done; lia. }
  assert (Hrow : exists row, pairing_requests db !! code = Some row
                             /\ request = Db.pairingRequest code row).
  { unfold Db.getPairingRequest in Hreq.
    destruct (pairing_requests db !! code) as [row|]; [|discriminate].
    injection Hreq as <-. eauto. }
  destruct Hrow as (row & Hrow & Hrequest).
  assert (Ht : prow_expires_at row = t) by (subst t; by rewrite Hrequest).
  assert (Hlist : forall now, JsDate.four_digit_year now = true ->
            (request ∈ PairingManager.listPending db now
             <-> now < t /\ JsDate.four_digit_year t = true)).
  { intros now Hnow. rewrite (listPending_elem _ _ _ Hnow). split.
    - intros (c & row' & _ & Hlt & Hfour & Heq). rewrite Hrequest in Heq.
      injection Heq as _ _ _ _ _ _ _ Hexp. rewrite <- Ht, Hexp. auto.
    - intros [Hlt Hfour]. exists code, row. rewrite Ht. auto. }
  split; [exact Happrove|]. split.
  { intros now. unfold PairingManager.getRequest. rewrite Hup, Hreq. fold t.
    case_bool_decide; split; intros; try done; lia. }
  split; [exact Hlist|]. split; [apply Happrove; lia|]. split.
  { rewrite listPending_text. intros (c & row' & _ & Hlt & Heq).
    rewrite Hrequest in Heq. injection Heq as _ _ _ _ _ _ _ Hexp.
    rewrite <- Hexp, Ht in Hlt. by rewrite text_lt_irrefl in Hlt. }
  intros Hfar now Hnow. split.
  - apply Happrove. apply four_digit_year_range in Hnow. lia.
  - rewrite (Hlist now Hnow). intros [_ Hfour].
    apply four_digit_year_range in Hfour. lia.
Qed.

Lemma approve_and_listPending_at_expiry_witness :
  let row t := {| prow_chat_key := "telegram:42"; prow_user_id := "42";
                  prow_username := None; prow_display_name := None;
                  prow_channel := "telegram"; prow_created_at := 1000;
                  prow_expires_at := t |} in
  let db := Db.with_pairing Db.empty
              {[ "A1B2C3" := row 5000; "D4E5F6" := row 253402300800000 ]} in
  (PairingManager.approve db 5000 "A1B2C3").1
  = ApproveSuccess "telegram:42" (Examples.user "42" None "telegram")
  /\ PairingManager.listPending db 5000 = []
  /\ PairingManager.listPending db 4999 = [Db.pairingRequest "A1B2C3" (row 5000)]
  /\ (PairingManager.approve db 4999 "D4E5F6").1
     = ApproveSuccess "telegram:42" (Examples.user "42" None "telegram").
Proof.
  intros row db.
  destruct (approve_and_listPending_at_expiry db "A1B2C3"
              (Db.pairingRequest "A1B2C3" (row 5000)) eq_refl eq_refl)
    as (_ & _ & _ & Hok & _).
  split; [exact Hok|]. split; [reflexivity|]. split; reflexivity.
Defined.

Lemma getPairingRequest_delete_ne db code c :
  c <> code ->
  Db.getPairingRequest (Db.deletePairingRequest db code) c = Db.getPairingRequest db c.
Proof. intros Hne. unfold Db.getPairingRequest. simpl. by rewrite lookup_delete_ne. Qed.

Lemma getPairingRequest_delete_eq db code :
  Db.getPairingRequest (Db.deletePairingRequest db code) code = None.
Proof. unfold Db.getPairingRequest. simpl. by rewrite lookup_delete_eq. Qed.

Lemma pairing_addToAllowlist db now chatKey addedBy :
  pairing_requests (Db.addToAllowlist db now chatKey addedBy) = pairing_requests db
  /\ sessions (Db.addToAllowlist db now chatKey addedBy) = sessions db
  /\ active_sessions (Db.addToAllowlist db now chatKey addedBy) = active_sessions db.
Proof. unfold Db.addToAllowlist. by destruct (allowlist db !! chatKey). Qed.

(** X6. Approving a stored, unexpired request by its code as
    stored returns the request's chat key and user, puts the chat key into
    the allowlist (a new entry is stamped with the clock reading and
    "pairing:CODE"), removes that pairing request and no other, leaves the
    rest of the allowlist and the session tables alone, and makes every
    later approval of the code fail with "Invalid or expired pairing
    code". *)
Theorem approve_promotes_and_consumes
    (db : BridgeDatabase) (now : Z) (code : string) (request : PairingRequest) :
  Js.toUpperCase code = code ->
  Db.getPairingRequest db code = Some request ->
  now <= pr_expiresAt request ->
  let result := PairingManager.approve db now code in
  result.1 = ApproveSuccess (pr_chatKey request) (pr_userInfo request)
  /\ Db.isAllowed result.2 (pr_chatKey request) = true
  /\ (Db.isAllowed db (pr_chatKey request) = false ->
      allowlist result.2 !! pr_chatKey request
      = Some {| arow_added_at := now; arow_added_by := Some ("pairing:" +:+ code) |})
  /\ (forall ck, ck <> pr_chatKey request -> allowlist result.2 !! ck = allowlist db !! ck)
  /\ Db.getPairingRequest result.2 code = None
  /\ (forall c, c <> code -> Db.getPairingRequest result.2 c = Db.getPairingRequest db c)
  /\ sessions result.2 = sessions db
  /\ active_sessions result.2 = active_sessions db
  /\ (forall later, (PairingManager.approve result.2 later code).1
                    = ApproveFailure "Invalid or expired pairing code").
Proof.
  intros Hup Hreq Hfresh result.
  assert (Happ : result
            = (ApproveSuccess (pr_chatKey request) (pr_userInfo request),
               Db.deletePairingRequest
                 (Db.addToAllowlist db now (pr_chatKey request) (Some ("pairing:" +:+ code)))
                 code)).
  { subst result. unfold PairingManager.approve. rewrite Hup, Hreq.
    by rewrite bool_decide_eq_false_2 by lia. }
  rewrite Happ. clear Happ result. cbn [fst snd].
  destruct (pairing_addToAllowlist db now (pr_chatKey request) (Some ("pairing:" +:+ code)))
    as (Hp & Hs & Ha).
  split; [reflexivity|]. split.
  { unfold Db.isAllowed, Db.addToAllowlist. apply bool_decide_eq_true.
    destruct (allowlist db !! pr_chatKey request) eqn:Hal; simpl.
    - by rewrite Hal.
    - by rewrite lookup_insert_eq. }
  split.
  { unfold Db.isAllowed, Db.addToAllowlist. intros Hno.
    apply bool_decide_eq_false in Hno.
    destruct (allowlist db !! pr_chatKey request) eqn:Hal; [by destruct Hno; eauto|].
    simpl. by rewrite lookup_insert_eq. }
  split.
  { intros ck Hne. unfold Db.addToAllowlist.
    destruct (allowlist db !! pr_chatKey request); simpl; [done|].
    by rewrite lookup_insert_ne. }
  split; [apply getPairingRequest_delete_eq|]. split.
  { intros c Hne. rewrite getPairingRequest_delete_ne by done.
    unfold Db.getPairingRequest. by rewrite Hp. }
  split; [exact Hs|]. split; [exact Ha|].
  intros later. unfold PairingManager.approve. rewrite Hup.
  by rewrite getPairingRequest_delete_eq.
Qed.

Lemma approve_promotes_and_consumes_witness :
  let db := Db.with_pairing Db.empty
              {[ "A1B2C3" := {| prow_chat_key := "telegram:42"; prow_user_id := "42";
                                prow_username := None; prow_display_name := None;
                                prow_channel := "telegram"; prow_created_at := 1000;
                                prow_expires_at := 5000 |} ]} in
  Db.isAllowed (PairingManager.approve db 2000 "A1B2C3").2 "telegram:42" = true
  /\ (PairingManager.approve (PairingManager.approve db 2000 "A1B2C3").2 2001 "A1B2C3").1
     = ApproveFailure "Invalid or expired pairing code".
Proof.
  intros db.
  destruct (approve_promotes_and_consumes db 2000 "A1B2C3"
              (Db.pairingRequest "A1B2C3"
                 {| prow_chat_key := "telegram:42"; prow_user_id := "42";
                    prow_username := None; prow_display_name := None;
                    prow_channel := "telegram"; prow_created_at := 1000;
                    prow_expires_at := 5000 |}) eq_refl eq_refl ltac:(simpl; lia))
    as (_ & Hallowed & _ & _ & _ & _ & _ & _ & Hreplay).
  split; [exact Hallowed | exact (Hreplay 2001)].
Defined.

Lemma substring_length_le (n : nat) (s : string) :
  String.length (String.substring 0 n s) = Nat.min n (String.length s).
Proof.
  revert s. induction n as [|n IH]; intros [|c s]; simpl; try reflexivity.
  by rewrite IH.
Qed.

Lemma map_string_length (f : ascii -> ascii) (s : string) :
  String.length (Js.map_string f s) = String.length s.
Proof. induction s as [|c s IH]; simpl; [reflexivity | by rewrite IH]. Qed.

(** X7. [generateCode] first deletes the requests the clean-up
    takes for expired (X3), whatever happens next, and never touches the
    allowlist or the session tables. The code is the first six characters
    of the upper-cased random hex string. With [expiry] the clock reading
    plus [expiresInMs] (default one hour):
    - when it returns, it returns that code; [expiry] is a time value a
      [Date] can hold; the request is stored under the code with the
      caller's chat key, user id and channel, created at the clock reading
      and expiring at [expiry]; the stored username (display name) is the
      caller's if that is a non-empty text and is absent otherwise; and no
      request was stored under the code after the clean-up;
    - when it throws, nothing is stored beyond what the clean-up left, and
      either [expiry] is out of the range of a [Date] ("Invalid time
      value"), or it is in range and a request that survived the clean-up
      already uses the code ("UNIQUE constraint failed"). *)
Theorem generateCode_effects
    (db : BridgeDatabase) (now : Z) (hex chatKey : string) (userInfo : UserInfo)
    (expiresInMs : option Z) :
  JsDate.four_digit_year now = true ->
  let code := Js.slice0 6 (Js.toUpperCase hex) in
  let expiry := now + default 3600000 expiresInMs in
  let result := PairingManager.generateCode db now hex chatKey userInfo expiresInMs in
  let kept c r := Db.getPairingRequest db c = Some r /\ now <= pr_expiresAt r
                  /\ JsDate.four_digit_year (pr_expiresAt r) = true in
  (String.length code <= 6)%nat
  /\ allowlist result.2 = allowlist db
  /\ sessions result.2 = sessions db
  /\ active_sessions result.2 = active_sessions db
  /\ (forall c r, c <> code -> (Db.getPairingRequest result.2 c = Some r <-> kept c r))
  /\ match result.1 with
     | Ok c =>
         c = code
         /\ -8640000000000000 <= expiry <= 8640000000000000
         /\ (forall r, ~ kept code r)
         /\ exists r,
              Db.getPairingRequest result.2 code = Some r
              /\ pr_code r = code
              /\ pr_chatKey r = chatKey
              /\ user_id (pr_userInfo r) = user_id userInfo
              /\ user_channel (pr_userInfo r) = user_channel userInfo
              /\ pr_createdAt r = now
              /\ pr_expiresAt r = expiry
              /\ (forall n, user_username (pr_userInfo r) = Some n
                            <-> user_username userInfo = Some n /\ n <> "")
              /\ (forall n, user_displayName (pr_userInfo r) = Some n
                            <-> user_displayName userInfo = Some n /\ n <> "")
     | Throw message =>
         (forall r, Db.getPairingRequest result.2 code = Some r <-> kept code r)
         /\ ((message = "Invalid time value"
              /\ ~ (-8640000000000000 <= expiry <= 8640000000000000))
             \/ (message = "UNIQUE constraint failed: pairing_requests.code"
                 /\ -8640000000000000 <= expiry <= 8640000000000000
                 /\ exists r, kept code r))
     end.
Proof.
  intros Hnow code expiry result kept.
  assert (Hlen : (String.length code <= 6)%nat).
  { subst code. unfold Js.slice0. rewrite substring_length_le. lia. }
  split; [exact Hlen|].
  assert (Hkept : forall c r,
            Db.getPairingRequest (Db.cleanupExpiredPairingRequests db now).2 c = Some r
            <-> kept c r).
  { intros c r. by apply getPairingRequest_cleanup. }
  assert (Hvalid : JsDate.valid expiry = true
                   <-> -8640000000000000 <= expiry <= 8640000000000000).
  { unfold JsDate.valid, JsDate.MAX_TIME. rewrite andb_true_iff, !Z.leb_le. lia. }
  subst result. unfold PairingManager.generateCode.
  change (Js.slice0 PairingManager.CODE_LENGTH (Js.toUpperCase hex)) with code.
  change (now + default PairingManager.DEFAULT_EXPIRY_MS expiresInMs) with expiry.
  unfold Db.savePairingRequest.
  change (now + default PairingManager.DEFAULT_EXPIRY_MS expiresInMs) with expiry.
  destruct (JsDate.valid expiry) eqn:Hv; cbn [negb].
  2: { cbn [fst snd]. split; [done|]. split; [done|]. split; [done|].
       split; [intros c r _; apply Hkept|].
       split; [intros r; apply Hkept|].
       left. split; [done|]. intros Hr. apply Hvalid in Hr. discriminate. }
  clear Hv. pose proof (proj1 Hvalid eq_refl) as Hv.
  destruct (pairing_requests (Db.cleanupExpiredPairingRequests db now).2 !! code)
    as [row|] eqn:Hrow; cbn [fst snd].
  - split; [done|]. split; [done|]. split; [done|].
    split; [intros c r _; apply Hkept|].
    split; [intros r; apply Hkept|].
    right. split; [done|]. split; [done|].
    exists (Db.pairingRequest code row). apply Hkept.
    unfold Db.getPairingRequest. by rewrite Hrow.
  - assert (Hor : forall o n, Db.or_null o = Some n <-> o = Some n /\ n <> "").
    { intros o n. unfold Db.or_null, Js.truthy.
      destruct o as [[|c s]|]; cbn; split.
      - discriminate.
      - intros [[= <-] Hn]. done.
      - intros [= <-]. done.
      - intros [Ho _]. exact Ho.
      - discriminate.
      - intros [Ho _]. discriminate. }
    split; [done|]. split; [done|]. split; [done|]. split.
    { intros c r Hne. rewrite <- Hkept. unfold Db.getPairingRequest.
      cbn [pairing_requests Db.with_pairing]. by rewrite lookup_insert_ne. }
    split; [done|]. split; [exact Hv|]. split.
    { intros r Hr. apply Hkept in Hr. unfold Db.getPairingRequest in Hr.
      by rewrite Hrow in Hr. }
    eexists. split.
    { unfold Db.getPairingRequest. cbn [pairing_requests Db.with_pairing].
      rewrite lookup_insert_eq. reflexivity. }
    cbn [Db.pairingRequest pr_code pr_chatKey pr_userInfo pr_createdAt pr_expiresAt
         user_id user_channel user_username user_displayName prow_chat_key prow_user_id
         prow_username prow_display_name prow_channel prow_created_at prow_expires_at].
    split; [done|]. split; [done|]. split; [done|]. split; [done|]. split; [done|].
    split; [done|]. split; intros n; apply Hor.
Qed.

Lemma generateCode_effects_witness :
  let user := {| user_id := "42"; user_username := Some ""; user_displayName := Some "Al";
                 user_channel := "telegram" |} in
  let first := PairingManager.generateCode Db.empty 1000 "a1b2c3" "telegram:42" user None in
  let again := PairingManager.generateCode first.2 2000 "a1b2c3" "telegram:7" user None in
  let never := PairingManager.generateCode first.2 3601001 "d4e5f6" "telegram:7" user
                 (Some 8640000000000000) in
  (String.length "A1B2C3" <= 6)%nat
  /\ first.1 = Ok "A1B2C3"
  /\ Db.getPairingRequest first.2 "A1B2C3"
     = Some {| pr_code := "A1B2C3"; pr_chatKey := "telegram:42";
               pr_userInfo := {| user_id := "42"; user_username := None;
                                 user_displayName := Some "Al";
                                 user_channel := "telegram" |};
               pr_createdAt := 1000; pr_expiresAt := 3601000 |}
  /\ again = (Throw "UNIQUE constraint failed: pairing_requests.code", first.2)
  /\ never.1 = Throw "Invalid time value"
  /\ Db.getPairingRequest never.2 "A1B2C3" = None.
Proof.
  intros user first again never.
  split; [|repeat split; reflexivity].
  exact (proj1 (generateCode_effects Db.empty 1000 "a1b2c3" "telegram:42" user None eq_refl)).
Defined.


(** ** Pairing through the command line, and the access gate *)

Lemma approve_fresh_eq db now code request :
  Js.toUpperCase code = code ->
  Db.getPairingRequest db code = Some request ->
  now <= pr_expiresAt request ->
  PairingManager.approve db now code
  = (ApproveSuccess (pr_chatKey request) (pr_userInfo request),
     Db.deletePairingRequest
       (Db.addToAllowlist db now (pr_chatKey request) (Some ("pairing:" +:+ code))) code).
Proof.
  intros Hup Hreq Hfresh. unfold PairingManager.approve. rewrite Hup, Hreq.
  by rewrite bool_decide_eq_false_2 by lia.
Qed.

Lemma isAllowed_addToAllowlist_eq db now chatKey addedBy :
  Db.isAllowed (Db.addToAllowlist db now chatKey addedBy) chatKey = true.
Proof.
  unfold Db.isAllowed, Db.addToAllowlist. apply bool_decide_eq_true.
  destruct (allowlist db !! chatKey) eqn:Hal; simpl.
  - by rewrite Hal.
  - by rewrite lookup_insert_eq.
Qed.

(** X8. The command-line commands upper-case the code before calling
    the manager, so they are case-insensitive and single-use: for every
    spelling of a stored, unexpired code, [approvePairing] promotes the
    chat and deletes the request, after which approving or rejecting any
    spelling of the code finds nothing; [rejectPairing] deletes the
    request without promoting anything. *)
Theorem cli_pairing_commands_consume_any_spelling
    (db : BridgeDatabase) (now : Z) (spelling : string) (request : PairingRequest) :
  Db.getPairingRequest db (Js.toUpperCase spelling) = Some request ->
  now <= pr_expiresAt request ->
  let approved := Cli.approvePairing db now spelling in
  let rejected := Cli.rejectPairing db spelling in
  approved.1 = ApproveSuccess (pr_chatKey request) (pr_userInfo request)
  /\ Db.isAllowed approved.2 (pr_chatKey request) = true
  /\ Db.getPairingRequest approved.2 (Js.toUpperCase spelling) = None
  /\ (forall later other,
        Js.toUpperCase other = Js.toUpperCase spelling ->
        (Cli.approvePairing approved.2 later other).1
        = ApproveFailure "Invalid or expired pairing code"
        /\ (Cli.rejectPairing approved.2 other).1 = false)
  /\ rejected.1 = true
  /\ Db.getPairingRequest rejected.2 (Js.toUpperCase spelling) = None
  /\ allowlist rejected.2 = allowlist db.
Proof.
  intros Hreq Hfresh approved rejected.
  pose proof (toUpperCase_idempotent spelling) as Hup.
  assert (Happ : approved = _) by exact (approve_fresh_eq _ _ _ _ Hup Hreq Hfresh).
  rewrite Happ. cbn [fst snd].
  split; [reflexivity|]. split.
  { unfold Db.isAllowed. cbn [allowlist Db.deletePairingRequest Db.with_pairing].
    apply isAllowed_addToAllowlist_eq. }
  split; [apply getPairingRequest_delete_eq|]. split.
  { intros later other Hother. unfold Cli.approvePairing, Cli.rejectPairing,
      PairingManager.approve, PairingManager.reject.
    rewrite toUpperCase_idempotent, Hother, getPairingRequest_delete_eq. done. }
  subst rejected. unfold Cli.rejectPairing, PairingManager.reject.
  rewrite Hup, Hreq. cbn [fst snd].
  split; [reflexivity|]. split; [apply getPairingRequest_delete_eq | reflexivity].
Qed.

Lemma cli_pairing_commands_consume_any_spelling_witness :
  let db := Db.with_pairing Db.empty
              {[ "A1B2C3" := {| prow_chat_key := "telegram:42"; prow_user_id := "42";
                                prow_username := None; prow_display_name := None;
                                prow_channel := "telegram"; prow_created_at := 1000;
                                prow_expires_at := 5000 |} ]} in
  (Cli.approvePairing db 2000 "a1b2c3").1
  = ApproveSuccess "telegram:42" (Examples.user "42" None "telegram")
  /\ (Cli.approvePairing (Cli.approvePairing db 2000 "a1b2c3").2 2001 "a1B2c3").1
     = ApproveFailure "Invalid or expired pairing code".
Proof.
  intros db.
  destruct (cli_pairing_commands_consume_any_spelling db 2000 "a1b2c3"
              (Db.pairingRequest "A1B2C3"
                 {| prow_chat_key := "telegram:42"; prow_user_id := "42";
                    prow_username := None; prow_display_name := None;
                    prow_channel := "telegram"; prow_created_at := 1000;
                    prow_expires_at := 5000 |}) eq_refl ltac:(simpl; lia))
    as (Hok & _ & _ & Hreplay & _).
  split; [exact Hok|]. exact (proj1 (Hreplay 2001 "a1B2c3" eq_refl)).
Defined.

(** X9. [revokePairing] reports whether the chat was in the
    allowlist. If it was, the chat is removed from the allowlist and all of
    its sessions and its active-session pointer are deleted; if it was not,
    nothing at all changes, sessions included. Other chats and the pairing
    requests are never affected. *)
Theorem revokePairing_cascades_to_sessions (db : BridgeDatabase) (chatKey : string) :
  let result := Cli.revokePairing db chatKey in
  result.1 = Db.isAllowed db chatKey
  /\ Db.isAllowed result.2 chatKey = false
  /\ (Db.isAllowed db chatKey = true ->
      (forall sn, Db.getSession result.2 chatKey sn = None)
      /\ Db.getActiveSessionName result.2 chatKey = "main")
  /\ (Db.isAllowed db chatKey = false -> result.2 = db)
  /\ (forall ck, ck <> chatKey ->
        Db.isAllowed result.2 ck = Db.isAllowed db ck
        /\ (forall sn, Db.getSession result.2 ck sn = Db.getSession db ck sn)
        /\ Db.getActiveSessionName result.2 ck = Db.getActiveSessionName db ck)
  /\ pairing_requests result.2 = pairing_requests db.
Proof.
  intros result. subst result. unfold Cli.revokePairing, AllowlistManager.check,
    AllowlistManager.remove.
  destruct (Db.isAllowed db chatKey) eqn:Hallowed; cbn [negb fst snd].
  - split; [reflexivity|]. split.
    { unfold Db.isAllowed. apply bool_decide_eq_false. simpl.
      rewrite lookup_delete_eq. by intros [? ?]. }
    split.
    { intros _. split.
      - intros sn. unfold Db.getSession. simpl.
        destruct (filter _ (sessions db) !! (chatKey, sn)) as [row|] eqn:Hrow; [|done].
        apply map_lookup_filter_Some in Hrow as [_ Hne]. by destruct Hne.
      - unfold Db.getActiveSessionName. simpl. by rewrite lookup_delete_eq. }
    split; [discriminate|]. split; [|reflexivity].
    intros ck Hne. split; [|split].
    + unfold Db.isAllowed. apply bool_decide_ext. simpl. by rewrite lookup_delete_ne.
    + intros sn. unfold Db.getSession. simpl. f_equal.
      destruct (sessions db !! (ck, sn)) as [row|] eqn:Hrow.
      * by apply map_lookup_filter_Some.
      * apply map_lookup_filter_None. left. exact Hrow.
    + unfold Db.getActiveSessionName. simpl. by rewrite lookup_delete_ne.
  - repeat split; try done.
Qed.

(** X10. The access decision is Allowed exactly for an enabled,
    configured channel whose policy is "open", or whose policy is
    "pairing" or "allowlist" while the chat key is in the persisted
    allowlist or the user is in the configured [allowFrom]; Allowed
    decisions carry no reason; and the reason "Pairing required", on which
    callers issue a pairing code, is given exactly when the channel is
    enabled with policy "pairing" and neither source admits the caller. *)
Theorem isAllowed_decision_table
    (db : BridgeDatabase) (chatKey : string) (userInfo : UserInfo)
    (channelConfig : option ChannelConfig) :
  let decision := AllowlistManager.isAllowed db chatKey userInfo channelConfig in
  (allowed decision = true
   <-> exists cfg,
         channelConfig = Some cfg
         /\ cc_enabled cfg = true
         /\ (cc_dmPolicy cfg = "open"
             \/ ((cc_dmPolicy cfg = "pairing" \/ cc_dmPolicy cfg = "allowlist")
                 /\ (Db.isAllowed db chatKey = true
                     \/ AllowlistManager.isInConfigAllowlist userInfo cfg = true))))
  /\ (allowed decision = true <-> reason decision = None)
  /\ (reason decision = Some "Pairing required"
      <-> exists cfg,
            channelConfig = Some cfg
            /\ cc_enabled cfg = true
            /\ cc_dmPolicy cfg = "pairing"
            /\ Db.isAllowed db chatKey = false
            /\ AllowlistManager.isInConfigAllowlist userInfo cfg = false).
Proof.
  intros decision. subst decision. unfold AllowlistManager.isAllowed.
  destruct channelConfig as [cfg|]; simpl.
  2: { repeat split; try discriminate; intros (cfg & ? & _); discriminate. }
  destruct (cc_enabled cfg) eqn:Hen; simpl.
  2: { repeat split; try discriminate; intros (c & [= <-] & ? & _); congruence. }
  destruct (String.eqb_spec (cc_dmPolicy cfg) "open") as [Hopen|Hopen].
  { repeat split; try done; try discriminate.
    - intros _. exists cfg. auto.
    - intros (c & [= <-] & _ & Hp & _). rewrite Hopen in Hp. discriminate. }
  destruct (String.eqb_spec (cc_dmPolicy cfg) "pairing") as [Hpair|Hpair];
    [|destruct (String.eqb_spec (cc_dmPolicy cfg) "allowlist") as [Hal|Hal]].
  all: destruct (Db.isAllowed db chatKey) eqn:Hdb;
    try destruct (AllowlistManager.isInConfigAllowlist userInfo cfg) eqn:Hcfg; simpl.
  all: repeat split; try done; try discriminate.
  all: try (intros _; exists cfg; repeat split; auto; fail).
  all: try (intros (c & [= <-] & _ & [? | [[? | ?] [? | ?]]]); congruence).
  all: try (intros (c & [= <-] & _ & ? & ? & ?); congruence).
Qed.

Lemma generateCode_allowlist db now hex chatKey userInfo ttl code issued :
  PairingManager.generateCode db now hex chatKey userInfo ttl = (Ok code, issued) ->
  allowlist issued = allowlist db.
Proof.
  unfold PairingManager.generateCode, Db.savePairingRequest.
  destruct (negb _); [discriminate|].
  destruct (pairing_requests _ !! _); intros [= _ <-]. reflexivity.
Qed.

Lemma gate_pairing db chatKey userInfo allowFrom :
  let cfg := {| cc_enabled := true; cc_dmPolicy := "pairing"; cc_allowFrom := allowFrom |} in
  AllowlistManager.isAllowed db chatKey userInfo (Some cfg)
  = if Db.isAllowed db chatKey || AllowlistManager.isInConfigAllowlist userInfo cfg
    then AllowlistManager.allow else AllowlistManager.deny "Pairing required".
Proof.
  intros cfg. unfold AllowlistManager.isAllowed. simpl.
  destruct (Db.isAllowed db chatKey); [done|]. by destruct (AllowlistManager.isInConfigAllowlist _ _).
Qed.

(** X11. Under the "pairing" policy, for a chat that neither the
    allowlist nor the configured [allowFrom] admits: the gate denies with
    "Pairing required"; issuing a pairing code does not change that;
    approving the issued code before it expires makes the gate allow the
    chat; and revoking the chat makes the gate deny it again. *)
Theorem pairing_lifecycle_through_gate
    (db : BridgeDatabase) (now later : Z) (hex chatKey : string) (userInfo : UserInfo)
    (expiresInMs : option Z) (allowFrom : option (list string))
    (code : string) (issued : BridgeDatabase) :
  let cfg := {| cc_enabled := true; cc_dmPolicy := "pairing"; cc_allowFrom := allowFrom |} in
  let gate d := AllowlistManager.isAllowed d chatKey userInfo (Some cfg) in
  Db.isAllowed db chatKey = false ->
  AllowlistManager.isInConfigAllowlist userInfo cfg = false ->
  PairingManager.generateCode db now hex chatKey userInfo expiresInMs = (Ok code, issued) ->
  later <= now + default 3600000 expiresInMs ->
  let approved := (PairingManager.approve issued later code).2 in
  gate db = {| allowed := false; reason := Some "Pairing required" |}
  /\ gate issued = {| allowed := false; reason := Some "Pairing required" |}
  /\ gate approved = {| allowed := true; reason := None |}
  /\ gate (Cli.revokePairing approved chatKey).2
     = {| allowed := false; reason := Some "Pairing required" |}.
Proof.
  intros cfg gate Hdb Hcfg Hgen Hlater approved. subst gate cfg. cbv beta.
  rewrite !gate_pairing. cbv zeta. rewrite Hcfg, !orb_false_r.
  destruct (generateCode_stored _ _ _ _ _ _ _ _ Hgen) as (request & Hreq & _ & Hck & Hexp).
  pose proof (generateCode_upper _ _ _ _ _ _ _ _ Hgen) as Hup.
  pose proof (generateCode_allowlist _ _ _ _ _ _ _ _ Hgen) as Hal.
  assert (Happ : approved
            = Db.deletePairingRequest
                (Db.addToAllowlist issued later chatKey (Some ("pairing:" +:+ code))) code).
  { subst approved. rewrite (approve_fresh_eq _ _ _ request Hup Hreq).
    - by rewrite Hck.
    - rewrite Hexp. exact Hlater. }
  assert (Hissued : Db.isAllowed issued chatKey = false).
  { unfold Db.isAllowed in *. by rewrite Hal. }
  assert (Happroved : Db.isAllowed approved chatKey = true).
  { rewrite Happ. unfold Db.isAllowed.
    cbn [allowlist Db.deletePairingRequest Db.with_pairing].
    apply isAllowed_addToAllowlist_eq. }
  rewrite Hdb, Hissued, Happroved.
  repeat split.
  unfold Cli.revokePairing, AllowlistManager.check, AllowlistManager.remove.
  rewrite Happroved. cbn [negb snd].
  assert (Hgone : Db.isAllowed (Db.deleteAllSessions (Db.removeFromAllowlist approved chatKey)
                                  chatKey) chatKey = false).
  { unfold Db.isAllowed. apply bool_decide_eq_false. simpl.
    rewrite lookup_delete_eq. by intros [? ?]. }
  by rewrite Hgone.
Qed.

Lemma pairing_lifecycle_through_gate_witness :
  exists code issued,
    PairingManager.generateCode Db.empty 1000 "a1b2c3" "telegram:42"
      (Examples.user "42" None "telegram") None = (Ok code, issued)
    /\ allowed (AllowlistManager.isAllowed (PairingManager.approve issued 2000 code).2
                  "telegram:42" (Examples.user "42" None "telegram")
                  (Some {| cc_enabled := true; cc_dmPolicy := "pairing";
                           cc_allowFrom := Some [] |})) = true.
Proof.
  eexists _, _. split; [reflexivity|].
  match goal with
  | |- allowed (AllowlistManager.isAllowed (PairingManager.approve ?d _ ?c).2 _ _ _) = _ =>
      destruct (pairing_lifecycle_through_gate Db.empty 1000 2000 "a1b2c3" "telegram:42"
                  (Examples.user "42" None "telegram") None (Some []) c d
                  eq_refl eq_refl eq_refl ltac:(simpl; lia)) as (_ & _ & Hok & _)
  end.
  by rewrite Hok.
Defined.

(** ** Router: construction, routing without drift, shadowed bindings *)

Lemma agents_fold_lookup (l : list AgentConfig) (m : gmap string AgentConfig) (id : string)
    (a : AgentConfig) :
  foldl (fun (m : gmap string AgentConfig) a => <[agent_id a := a]> m) m l !! id = Some a ->
  (a ∈ l /\ agent_id a = id) \/ m !! id = Some a.
Proof.
  revert m. induction l as [|x l IH]; intros m; simpl; [auto|].
  intros H. apply IH in H as [[Hin Hid] | H].
  - left. split; [by right | done].
  - rewrite lookup_insert in H. case_decide as Hx.
    + injection H as <-. left. split; [by left | done].
    + by right.
Qed.

Lemma agents_fold_listed (l : list AgentConfig) (m : gmap string AgentConfig) (a : AgentConfig) :
  a ∈ l ->
  exists a', foldl (fun (m : gmap string AgentConfig) a => <[agent_id a := a]> m) m l
               !! agent_id a = Some a'
             /\ a' ∈ l /\ agent_id a' = agent_id a.
Proof.
  revert m. induction l as [|x l IH]; intros m Hin; [by apply elem_of_nil in Hin|].
  simpl. apply elem_of_cons in Hin as [-> | Hin].
  - destruct (foldl _ (<[agent_id x:=x]> m) l !! agent_id x) as [a'|] eqn:Hl.
    + pose proof Hl as Hl'. apply agents_fold_lookup in Hl as [[Hin Hid] | Hm].
      * exists a'. repeat split; auto. by right.
      * rewrite lookup_insert_eq in Hm. injection Hm as <-.
        exists x. repeat split; auto. by left.
    + exfalso.
      assert (Hsome : forall (l : list AgentConfig) (m : gmap string AgentConfig) id,
                 is_Some (m !! id) ->
                 is_Some (foldl (fun (m : gmap string AgentConfig) a =>
                                   <[agent_id a := a]> m) m l !! id)).
      { clear. induction l as [|y l IH]; intros m id Hm; simpl; [done|].
        apply IH. rewrite lookup_insert. case_decide; eauto. }
      destruct (Hsome l (<[agent_id x:=x]> m) (agent_id x)) as [? Hs].
      * rewrite lookup_insert_eq. eauto.
      * congruence.
  - destruct (IH (<[agent_id x:=x]> m) Hin) as (a' & Hl & Hin' & Hid).
    exists a'. repeat split; auto. by right.
Qed.

Lemma agents_fold_nodup (l : list AgentConfig) (m : gmap string AgentConfig) (a : AgentConfig) :
  NoDup (agent_id <$> l) -> a ∈ l ->
  foldl (fun (m : gmap string AgentConfig) a => <[agent_id a := a]> m) m l !! agent_id a
  = Some a.
Proof.
  intros Hnd Hin. destruct (agents_fold_listed l m a Hin) as (a' & Hl & Hin' & Hid).
  rewrite Hl. f_equal.
  apply list_elem_of_lookup in Hin as [i Hi]. apply list_elem_of_lookup in Hin' as [j Hj].
  assert (i = j).
  { eapply NoDup_lookup; [exact Hnd| |].
    - rewrite list_lookup_fmap, Hi. reflexivity.
    - rewrite list_lookup_fmap, Hj. simpl. by rewrite Hid. }
  subst j. congruence.
Qed.

Lemma Router_new_fields config r :
  Router.new config = Ok r ->
  agents r = foldl (fun (m : gmap string AgentConfig) a => <[agent_id a := a]> m) ∅
               (cfg_agents_list config)
  /\ bindings r = cfg_bindings config
  /\ ((exists b, List.find (fun b => match binding_match b with None => true | Some _ => false end)
                   (cfg_bindings config) = Some b
                 /\ binding_agentId b <> "" /\ defaultAgentId r = binding_agentId b)
      \/ (exists a rest, cfg_agents_list config = a :: rest /\ defaultAgentId r = agent_id a)).
Proof.
  unfold Router.new.
  destruct (List.find _ (cfg_bindings config)) as [b|] eqn:Hfind; simpl.
  - destruct (String.eqb_spec (binding_agentId b) "") as [He|Hne]; simpl.
    + destruct (cfg_agents_list config) as [|a rest]; [discriminate|].
      intros [= <-]. simpl. repeat split. right. eauto.
    + intros [= <-]. simpl. repeat split. left. eauto.
  - destruct (cfg_agents_list config) as [|a rest]; [discriminate|].
    intros [= <-]. simpl. repeat split. right. eauto.
Qed.

Lemma find_first {A} (p : A -> bool) (pre : list A) (b : A) (post : list A) :
  Forall (fun x => p x = false) pre -> p b = true ->
  List.find p (pre ++ b :: post) = Some b.
Proof.
  intros Hpre Hb. induction Hpre as [|x pre Hx _ IH]; simpl.
  - by rewrite Hb.
  - by rewrite Hx.
Qed.

Lemma find_none {A} (p : A -> bool) (l : list A) :
  Forall (fun x => p x = false) l -> List.find p l = None.
Proof. intros Hl. induction Hl as [|x l Hx _ IH]; simpl; [done | by rewrite Hx]. Qed.

(** X12. A router is constructed from every configuration that lists
    at least one agent, and construction fails only on an empty agent
    list. In the constructed router every listed agent id resolves to a
    listed agent with that id (to the agent itself when ids are unique),
    nothing else resolves, and the bindings are the configured ones. The
    default agent id is the agentId of the first binding without a match
    object, when that agentId is not empty; when no binding is without a
    match object, or the first such binding has an empty agentId, it is
    the id of the first listed agent. *)
Theorem Router_new_resolves_listed_agents (config : BridgeConfig) :
  match Router.new config with
  | Ok r =>
      bindings r = cfg_bindings config
      /\ (forall a, a ∈ cfg_agents_list config ->
            exists a', Router.getAgent r (agent_id a) = Some a'
                       /\ a' ∈ cfg_agents_list config /\ agent_id a' = agent_id a)
      /\ (forall id a, Router.getAgent r id = Some a ->
            a ∈ cfg_agents_list config /\ agent_id a = id)
      /\ (NoDup (agent_id <$> cfg_agents_list config) ->
          forall a, a ∈ cfg_agents_list config -> Router.getAgent r (agent_id a) = Some a)
      /\ (forall pre b post,
            cfg_bindings config = (pre ++ b :: post)%list ->
            Forall (fun x => binding_match x <> None) pre ->
            binding_match b = None ->
            (binding_agentId b <> "" -> defaultAgentId r = binding_agentId b)
            /\ (binding_agentId b = "" ->
                exists a, head (cfg_agents_list config) = Some a
                          /\ defaultAgentId r = agent_id a))
      /\ (Forall (fun x => binding_match x <> None) (cfg_bindings config) ->
          exists a, head (cfg_agents_list config) = Some a
                    /\ defaultAgentId r = agent_id a)
  | Throw _ => cfg_agents_list config = []
  end
  /\ (cfg_agents_list config <> [] -> exists r, Router.new config = Ok r).
Proof.
  split.
  - destruct (Router.new config) as [r|e] eqn:Hnew.
    + destruct (Router_new_fields _ _ Hnew) as (Hagents & Hbind & Hdef).
      unfold Router.getAgent. rewrite Hagents.
      split; [done|]. split; [intros a Ha; by apply agents_fold_listed|].
      split.
      { intros id a Hget. apply agents_fold_lookup in Hget as [[? ?] | Hget]; [done|].
        by rewrite lookup_empty in Hget. }
      split; [intros Hnd a Ha; by apply agents_fold_nodup|].
      assert (Hno : forall l : list AgentBinding,
                Forall (fun x => binding_match x <> None) l ->
                Forall (fun x => match binding_match x with
                                 | None => true
                                 | Some _ => false
                                 end = false) l).
      { intros l Hl. eapply Forall_impl; [exact Hl|]. intros x Hx. simpl in Hx.
        by destruct (binding_match x). }
      split.
      * intros pre b post Hsplit Hpre Hb.
        assert (Hfind : List.find (fun b => match binding_match b with
                                            | None => true
                                            | Some _ => false
                                            end) (cfg_bindings config) = Some b).
        { rewrite Hsplit. apply find_first; [by apply Hno | by rewrite Hb]. }
        unfold Router.new in Hnew. rewrite Hfind in Hnew. simpl in Hnew.
        destruct (String.eqb_spec (binding_agentId b) "") as [Hempty|Hgiven];
          simpl in Hnew.
        -- split; [done|]. intros _.
           destruct (cfg_agents_list config) as [|a rest]; [discriminate|].
           injection Hnew as <-. by exists a.
        -- split; [|done]. intros _. by injection Hnew as <-.
      * intros Hall.
        unfold Router.new in Hnew. rewrite (find_none _ _ (Hno _ Hall)) in Hnew.
        simpl in Hnew.
        destruct (cfg_agents_list config) as [|a rest]; [discriminate|].
        injection Hnew as <-. by exists a.
    + unfold Router.new in Hnew.
      destruct (Js.truthy _); [discriminate|].
      by destruct (cfg_agents_list config).
  - intros Hne. unfold Router.new.
    destruct (Js.truthy _); [eauto|].
    destruct (cfg_agents_list config); [done | eauto].
Qed.

Lemma scan_agentId_in_bindings bs channel peerId groupId a :
  Router.scan bs channel peerId groupId = Some a ->
  exists b, b ∈ bs /\ binding_agentId b = a.
Proof.
  induction bs as [|b bs IH]; simpl; [discriminate|].
  destruct (Router.matchesBinding b channel peerId groupId).
  - intros [= <-]. exists b. split; [by left | done].
  - intros H. destruct (IH H) as (b' & Hin & Hid). exists b'. split; [by right | done].
Qed.

(** X13. When every binding of the configuration names a listed
    agent, the constructed router never fails to route: for every message
    [routeMessage] returns a listed agent whose id is the one the binding
    scan selects. *)
Theorem routeMessage_total_without_drift
    (config : BridgeConfig) (r : Router) (message : IncomingMessage) :
  Router.new config = Ok r ->
  (forall b, b ∈ cfg_bindings config ->
     exists a, a ∈ cfg_agents_list config /\ agent_id a = binding_agentId b) ->
  exists agent,
    Router.routeMessage r message = Ok agent
    /\ agent ∈ cfg_agents_list config
    /\ agent_id agent
       = Router.findAgentId r (msg_channel message) (msg_userId message) (msg_groupId message).
Proof.
  intros Hnew Hlisted.
  destruct (Router_new_fields _ _ Hnew) as (Hagents & Hbind & Hdef).
  set (sel := Router.findAgentId r (msg_channel message) (msg_userId message)
                (msg_groupId message)).
  assert (Hsel : exists a, a ∈ cfg_agents_list config /\ agent_id a = sel).
  { subst sel. unfold Router.findAgentId.
    destruct (Router.scan (bindings r) _ _ _) as [a|] eqn:Hscan; simpl.
    - apply scan_agentId_in_bindings in Hscan as (b & Hin & <-).
      rewrite Hbind in Hin. auto.
    - destruct Hdef as [(b & Hfind & _ & ->) | (a & rest & Hl & ->)].
      + apply find_some in Hfind as [Hin _]. apply Hlisted. by apply list_elem_of_In.
      + exists a. split; [|done]. rewrite Hl. by left. }
  destruct Hsel as (a & Hin & Hid).
  destruct (agents_fold_listed (cfg_agents_list config) ∅ a Hin) as (a' & Hl & Hin' & Hid').
  exists a'. unfold Router.routeMessage. fold sel. rewrite Hagents, <- Hid, Hl.
  repeat split; auto.
Qed.

Lemma routeMessage_total_without_drift_witness :
  Router.routeMessage Examples.coder_router Examples.group_hello = Ok Examples.coder_agent.
Proof.
  destruct (routeMessage_total_without_drift Examples.coder_config Examples.coder_router
              Examples.group_hello) as (agent & Hroute & _ & _).
  - vm_compute. reflexivity.
  - intros b Hb. simpl in Hb.
    apply elem_of_cons in Hb as [-> | Hb];
      [exists Examples.coder_agent; split; [right; left | reflexivity]|].
    apply elem_of_cons in Hb as [-> | Hb];
      [exists Examples.main_agent; split; [left | reflexivity]|].
    by apply elem_of_nil in Hb.
  - vm_compute in Hroute. injection Hroute as <-. reflexivity.
Defined.

Lemma scan_app_catch_all pre agentId m post channel peerId groupId :
  Router.matchesBinding {| binding_agentId := agentId; binding_match := m |}
    channel peerId groupId = true ->
  Router.scan (pre ++ {| binding_agentId := agentId; binding_match := m |} :: post)
    channel peerId groupId
  = Router.scan (pre ++ [{| binding_agentId := agentId; binding_match := m |}])
      channel peerId groupId.
Proof.
  intros Hm. induction pre as [|b pre IH]; simpl.
  - by rewrite Hm.
  - destruct (Router.matchesBinding b channel peerId groupId); [done | exact IH].
Qed.

(** X14. A binding without match criteria, or with a match object
    that sets no criterion, matches every message, so whatever follows it
    in the binding list is never consulted and the router's default agent
    id is never used: two routers whose binding lists agree up to and
    including such a binding resolve every message alike. *)
Theorem findAgentId_ignores_bindings_after_catch_all
    (pre post1 post2 : list AgentBinding) (agentId default1 default2 : string)
    (agents1 agents2 : gmap string AgentConfig)
    (channel : ChannelType) (peerId : string) (groupId : option string) :
  let no_criteria := Some {| match_channel := None; match_peer := None; match_group := None |} in
  let router m post dflt ags :=
    {| agents := ags;
       bindings := pre ++ {| binding_agentId := agentId; binding_match := m |} :: post;
       defaultAgentId := dflt |} in
  Router.findAgentId (router None post1 default1 agents1) channel peerId groupId
  = Router.findAgentId (router None post2 default2 agents2) channel peerId groupId
  /\ Router.findAgentId (router no_criteria post1 default1 agents1) channel peerId groupId
     = Router.findAgentId (router no_criteria post2 default2 agents2) channel peerId groupId
  /\ Router.findAgentId (router None post1 default1 agents1) channel peerId groupId
     = Router.findAgentId (router no_criteria [] default2 agents2) channel peerId groupId
  /\ exists b, b ∈ (pre ++ [{| binding_agentId := agentId; binding_match := None |}])%list
               /\ Router.findAgentId (router None post1 default1 agents1)
                    channel peerId groupId = binding_agentId b.
Proof.
  intros no_criteria router. subst router no_criteria. unfold Router.findAgentId. simpl.
  rewrite (scan_app_catch_all pre agentId None post1) by reflexivity.
  rewrite (scan_app_catch_all pre agentId None post2) by reflexivity.
  rewrite (scan_app_catch_all pre agentId (Some _) post1) by reflexivity.
  rewrite (scan_app_catch_all pre agentId (Some _) post2) by reflexivity.
  assert (Hsame : forall m,
             Router.matchesBinding {| binding_agentId := agentId; binding_match := m |}
               channel peerId groupId = true ->
             Router.scan (pre ++ [{| binding_agentId := agentId; binding_match := m |}])
               channel peerId groupId
             = Router.scan (pre ++ [{| binding_agentId := agentId; binding_match := None |}])
                 channel peerId groupId).
  { intros m Hm. induction pre as [|b pre IH]; simpl.
    - by rewrite Hm.
    - destruct (Router.matchesBinding b channel peerId groupId); [done | exact IH]. }
  rewrite (Hsame (Some _)) by reflexivity. clear Hsame.
  assert (Hsome : exists b,
             b ∈ (pre ++ [{| binding_agentId := agentId; binding_match := None |}])%list
             /\ Router.scan (pre ++ [{| binding_agentId := agentId; binding_match := None |}])
                  channel peerId groupId = Some (binding_agentId b)).
  { destruct (Router.scan (pre ++ [_]) channel peerId groupId) as [a|] eqn:Hscan.
    - apply scan_agentId_in_bindings in Hscan as (b & Hin & <-). eauto.
    - exfalso. induction pre as [|b pre IH]; simpl in Hscan; [discriminate|].
      destruct (Router.matchesBinding b channel peerId groupId); [discriminate | auto]. }
  destruct Hsome as (b & Hin & ->). simpl. repeat split. exists b. split; [exact Hin | reflexivity].
Qed.

Lemma split_nonempty (s : string) : (1 <= length (Js.split ":" s))%nat.
Proof.
  induction s as [|c s IH]; simpl; [lia|].
  destruct (Ascii.eqb c ":"); simpl; [lia|].
  destruct (Js.split ":" s); simpl; lia.
Qed.

Lemma split_length_colon (s : string) :
  Spec.contains ":" s = true -> (2 <= length (Js.split ":" s))%nat.
Proof.
  induction s as [|c s IH]; simpl; [discriminate|].
  destruct (Ascii.eqb c ":") eqn:Hc; simpl.
  - intros _. pose proof (split_nonempty s). lia.
  - intros H. specialize (IH H). destruct (Js.split ":" s) as [|p ps]; simpl in *; lia.
Qed.

(** X15. [parseChatKey] throws exactly on keys without a colon,
    with the message "Invalid chat key format: KEY"; every key that
    contains a colon is parsed, and the parsed channel is the text before
    the first colon. *)
Theorem parseChatKey_throws_iff_no_colon (chatKey : string) :
  match Router.parseChatKey chatKey with
  | Ok p =>
      Spec.contains ":" chatKey = true
      /\ Some (pk_channel p) = head (Js.split ":" chatKey)
  | Throw e =>
      Spec.contains ":" chatKey = false
      /\ e = "Invalid chat key format: " +:+ chatKey
  end.
Proof.
  unfold Router.parseChatKey.
  destruct (Spec.contains ":" chatKey) eqn:Hc.
  - pose proof (split_length_colon _ Hc) as Hlen.
    destruct (Js.split ":" chatKey) as [|p0 [|p1 ps]] eqn:Hs; simpl in Hlen; try lia.
    cbn [length Nat.ltb Nat.leb lookup list_lookup default from_option id head].
    repeat match goal with
           | |- context [if ?b then _ else _] => destruct b
           end; simpl; auto.
  - rewrite (split_colon_free _ Hc). simpl. auto.
Qed.

(** ** SessionManager: completed turns, overrides, synchronous sending *)

Lemma stream_final events stored :
  (SessionManager.stream events stored).2
  = match Spec.last_result events with
    | Some h => Some h
    | None => stored
    end.
Proof.
  revert stored. induction events as [|event rest IH]; intros stored; simpl; [done|].
  destruct (SessionManager.stream rest _) as [chunks final] eqn:Hrest. simpl.
  specialize (IH (match event with ResultMessage sid => Some sid | _ => stored end)).
  rewrite Hrest in IH. simpl in IH. rewrite IH.
  destruct event as [content|sid|]; simpl; try done.
  by destruct (Spec.last_result rest).
Qed.

Lemma stream_shape events stored :
  filter Spec.is_done_chunk (SessionManager.stream events stored).1 = []
  /\ (length (SessionManager.stream events stored).1 <= length events)%nat.
Proof.
  revert stored. induction events as [|event rest IH]; intros stored; simpl; [auto|].
  destruct (SessionManager.stream rest _) as [chunks final] eqn:Hrest. simpl.
  specialize (IH (match event with ResultMessage sid => Some sid | _ => stored end)).
  rewrite Hrest in IH. simpl in IH. destruct IH as [IHd IHl].
  destruct event as [[content|]|sid|]; simpl; try (split; [done | lia]).
  destruct (SessionManager.first_chunk content) as [chunk|] eqn:Hchunk;
    [|split; [done | lia]].
  split; [|simpl; lia].
  rewrite filter_cons.
  assert (Hnd : Spec.is_done_chunk chunk = false).
  { clear -Hchunk. induction content as [|[text|name|] content IH]; simpl in Hchunk;
      try discriminate; try (by injection Hchunk as <-); auto. }
  by rewrite Hnd.
Qed.

Lemma sendMessage_turn_after_cache sm now query message options :
  sm_activeSessions (turn_after (SessionManager.sendMessage sm now query message options))
  = sm_activeSessions sm
  /\ sm_router (turn_after (SessionManager.sendMessage sm now query message options))
     = sm_router sm.
Proof.
  unfold SessionManager.sendMessage.
  destruct (SessionManager.resolveAgent sm message options) as [[agent|]|e]; simpl; auto.
  destruct (SessionManager.stream _ _) as [chunks sessionId].
  destruct (run_error _); simpl; auto.
Qed.

Lemma sendMessage_done_eq sm now query message options agent :
  SessionManager.resolveAgent sm message options = Ok (Some agent) ->
  let sessionName := Spec.turn_sessionName sm message options in
  let stored := ses_sdkSessionId <$> Db.getSession (sm_db sm) (msg_chatKey message) sessionName in
  let opts := SessionManager.queryOptions agent message stored in
  let response := query (msg_text message) opts in
  run_error response = None ->
  SessionManager.sendMessage sm now query message options
  = {| turn_chunks := ((SessionManager.stream (run_events response) stored).1 ++ [ChunkDone])%list;
       turn_thrown := None;
       turn_query := Some (msg_text message, opts);
       turn_after :=
         SessionManager.with_db sm
           (if Js.truthy (SessionManager.stream (run_events response) stored).2
            then Db.saveSession (sm_db sm) now (msg_chatKey message)
                   (default "" (SessionManager.stream (run_events response) stored).2)
                   (agent_id agent) sessionName (Some (agent_workspace agent))
            else sm_db sm) |}.
Proof.
  intros Hagent sessionName stored opts response Hdone.
  subst response opts stored sessionName.
  unfold SessionManager.sendMessage, Spec.turn_sessionName in *.
  rewrite Hagent. cbv zeta.
  destruct (SessionManager.stream _ _) as [chunks sid]. by rewrite Hdone.
Qed.

(** X16. When the port's run for a turn ends without raising, the
    turn yields at most one chunk per event, none of them [error] or
    [done], followed by exactly one [done] chunk. The handle recorded for
    the turn's (chatKey, sessionName) is the session id of the last
    ["result"] event, or the handle already stored when the run had no such
    event; it is written with the clock reading as last-active time. If
    there is no such handle, or it is empty, the database is unchanged. No
    other session row, and no cache entry, is touched. *)
Theorem sendMessage_completed_turn_records_last_result
    (sm : SessionManager) (now : Z) (query : Query)
    (message : IncomingMessage) (options : SendMessageOptions)
    (prompt : string) (opts : Options) :
  let turn := SessionManager.sendMessage sm now query message options in
  turn_query turn = Some (prompt, opts) ->
  run_error (query prompt opts) = None ->
  let chatKey := msg_chatKey message in
  let sessionName := Spec.turn_sessionName sm message options in
  let stored := ses_sdkSessionId <$> Db.getSession (sm_db sm) chatKey sessionName in
  let final := match Spec.last_result (run_events (query prompt opts)) with
               | Some h => Some h
               | None => stored
               end in
  (exists forwarded,
      turn_chunks turn = (forwarded ++ [ChunkDone])%list
      /\ filter Spec.is_error_chunk forwarded = []
      /\ filter Spec.is_done_chunk forwarded = []
      /\ (length forwarded <= length (run_events (query prompt opts)))%nat)
  /\ turn_thrown turn = None
  /\ sm_activeSessions (turn_after turn) = sm_activeSessions sm
  /\ (forall h, final = Some h -> h <> "" ->
        exists row, Db.getSession (sm_db (turn_after turn)) chatKey sessionName = Some row
                    /\ ses_sdkSessionId row = h /\ ses_lastActive row = now)
  /\ (final = None \/ final = Some "" -> sm_db (turn_after turn) = sm_db sm)
  /\ (forall ck sn, (ck, sn) <> (chatKey, sessionName) ->
        Db.getSession (sm_db (turn_after turn)) ck sn = Db.getSession (sm_db sm) ck sn).
Proof.
  intros turn Hquery Hdone chatKey sessionName stored final.
  destruct (sendMessage_query _ _ _ _ _ _ _ Hquery) as (agent & Hagent & -> & Hopts).
  fold chatKey sessionName stored in Hopts. subst opts.
  pose proof (sendMessage_done_eq sm now query message options agent Hagent Hdone) as Heq.
  fold turn chatKey sessionName stored in Heq.
  set (events := run_events (query (msg_text message)
                   (SessionManager.queryOptions agent message stored))) in *.
  pose proof (stream_no_error events stored) as Hne.
  pose proof (stream_shape events stored) as [Hnd Hlen].
  pose proof (stream_final events stored) as Hfinal.
  fold final in Hfinal. rewrite Hfinal in Heq. rewrite Heq. simpl.
  split; [eauto 6|]. split; [done|]. split; [by destruct sm|].
  split; [|split].
  - intros h -> Hh. apply truthy_Some in Hh. rewrite Hh. simpl.
    unfold Db.getSession, Db.saveSession.
    destruct (sessions (sm_db sm) !! (chatKey, sessionName)); simpl;
      rewrite lookup_insert_eq; simpl; eauto.
  - intros [-> | ->]; by destruct sm.
  - intros ck sn Hother. destruct (Js.truthy final); [|by destruct sm].
    destruct sm; simpl. by apply getSession_saveSession_other.
Qed.

Lemma sendMessage_completed_turn_records_last_result_witness :
  let turn := SessionManager.sendMessage Examples.fresh_manager 2000 Examples.replying_query
                Examples.group_hello Examples.no_options in
  turn_chunks turn = [ChunkText "hi"; ChunkDone]
  /\ exists row,
       Db.getSession (sm_db (turn_after turn)) "telegram:group:555" "main" = Some row
       /\ ses_sdkSessionId row = "sdk-session-1" /\ ses_lastActive row = 2000.
Proof.
  intros turn.
  destruct (sendMessage_completed_turn_records_last_result Examples.fresh_manager 2000
              Examples.replying_query Examples.group_hello Examples.no_options "hello"
              (SessionManager.queryOptions Examples.coder_agent Examples.group_hello None)
              eq_refl eq_refl) as (_ & _ & _ & Hrec & _).
  split; [reflexivity|].
  exact (Hrec "sdk-session-1" eq_refl ltac:(discriminate)).
Defined.

(** ** SessionManager: [sendMessageSync] *)

Lemma append_empty_r (s : string) : s +:+ "" = s.
Proof.
  induction s as [|c s IH]; [done|].
  change (String c (s +:+ "") = String c s). by rewrite IH.
Qed.

Lemma append_assoc (a b c : string) : (a +:+ b) +:+ c = a +:+ (b +:+ c).
Proof.
  induction a as [|x a IH]; [done|].
  change (String x ((a +:+ b) +:+ c) = String x (a +:+ (b +:+ c))). by rewrite IH.
Qed.

Lemma join_empty_app (l1 l2 : list string) :
  Js.join "" (l1 ++ l2) = Js.join "" l1 +:+ Js.join "" l2.
Proof.
  induction l1 as [|p l1 IH]; [done|].
  change ((p :: l1) ++ l2)%list with (p :: (l1 ++ l2))%list.
  assert (Hcons : forall l, Js.join "" (p :: l) = p +:+ Js.join "" l).
  { intros [|q l]; simpl; [by rewrite append_empty_r | done]. }
  by rewrite !Hcons, IH, append_assoc.
Qed.

Lemma collect_no_error (chunks : list StreamChunk) (texts : list string) :
  filter Spec.is_error_chunk chunks = [] ->
  exists more, SessionManager.collect chunks texts = Ok (texts ++ more)%list
               /\ Js.join "" more = Spec.chunk_text chunks.
Proof.
  revert texts. induction chunks as [|chunk chunks IH]; intros texts Hne.
  - exists []. by rewrite app_nil_r.
  - rewrite filter_cons in Hne.
    destruct chunk as [text|name| |e|]; simpl in Hne; try discriminate;
      try exact (IH texts Hne).
    simpl. destruct (String.eqb_spec text "") as [->|Htext]; simpl.
    + exact (IH texts Hne).
    + destruct (IH (texts ++ [text])%list Hne) as (more & -> & Hjoin).
      exists (text :: more). split; [by rewrite <- app_assoc|].
      change (text :: more) with ([text] ++ more)%list.
      by rewrite join_empty_app, Hjoin.
Qed.

Lemma collect_error_last (chunks : list StreamChunk) (e : string) (texts : list string) :
  filter Spec.is_error_chunk chunks = [] ->
  SessionManager.collect (chunks ++ [ChunkError e]) texts = Throw e.
Proof.
  revert texts. induction chunks as [|chunk chunks IH]; intros texts Hne; [done|].
  rewrite filter_cons in Hne.
  destruct chunk as [text|name| |e'|]; simpl in Hne; try discriminate; simpl; auto.
Qed.

Lemma chunk_text_app (a b : list StreamChunk) :
  Spec.chunk_text (a ++ b) = Spec.chunk_text a +:+ Spec.chunk_text b.
Proof.
  induction a as [|chunk a IH]; [done|].
  destruct chunk; simpl; try done. by rewrite IH, append_assoc.
Qed.

(** The three ways a turn can go. *)
Lemma sendMessage_cases sm now query message options :
  let turn := SessionManager.sendMessage sm now query message options in
  (exists e, turn_chunks turn = [] /\ turn_thrown turn = Some e /\ turn_after turn = sm)
  \/ (exists forwarded e,
        turn_chunks turn = (forwarded ++ [ChunkError e])%list
        /\ filter Spec.is_error_chunk forwarded = []
        /\ turn_thrown turn = None /\ turn_after turn = sm)
  \/ (exists forwarded,
        turn_chunks turn = (forwarded ++ [ChunkDone])%list
        /\ filter Spec.is_error_chunk forwarded = []
        /\ turn_thrown turn = None).
Proof.
  unfold SessionManager.sendMessage.
  destruct (SessionManager.resolveAgent sm message options) as [[agent|]|e]; simpl.
  - match goal with
    | |- context [SessionManager.stream ?ev ?st] =>
        pose proof (stream_no_error ev st) as Hne;
        destruct (SessionManager.stream ev st) as [chunks sid]
    end.
    simpl in Hne. destruct (run_error _) as [e|]; simpl.
    + right; left. eauto 10.
    + right; right. eauto 10.
  - right; left. exists [], ("Unknown agent: " +:+ default "" (smo_agentId options)). auto.
  - left. eauto.
Qed.

(** X17. [sendMessageSync] resolves to the text of all the turn's
    [text] chunks, concatenated in order, exactly when the turn ends with
    its [done] chunk. When the turn ends with an [error] chunk it rejects
    with that chunk's message, and when the generator itself rejects
    (routing failure) it rejects with the same message; in both cases the
    text forwarded so far is discarded and the session manager is left as
    it was before the call. *)
Theorem sendMessageSync_joins_text_or_rejects
    (sm : SessionManager) (now : Z) (query : Query)
    (message : IncomingMessage) (options : SendMessageOptions) :
  let turn := SessionManager.sendMessage sm now query message options in
  let out := SessionManager.sendMessageSync sm now query message options in
  out.2 = turn_after turn
  /\ match out.1 with
     | Ok text =>
         text = Spec.chunk_text (turn_chunks turn)
         /\ (exists forwarded, turn_chunks turn = (forwarded ++ [ChunkDone])%list
                               /\ filter Spec.is_error_chunk forwarded = [])
         /\ turn_thrown turn = None
     | Throw e =>
         out.2 = sm
         /\ (turn_thrown turn = Some e /\ turn_chunks turn = []
             \/ exists forwarded, turn_chunks turn = (forwarded ++ [ChunkError e])%list
                                  /\ filter Spec.is_error_chunk forwarded = [])
     end.
Proof.
  intros turn out. split; [reflexivity|].
  subst out. unfold SessionManager.sendMessageSync. fold turn. simpl.
  destruct (sendMessage_cases sm now query message options)
    as [(e & Hc & Ht & Ha) | [(fw & e & Hc & Hne & Ht & Ha) | (fw & Hc & Hne & Ht)]];
    fold turn in Hc, Ht; try fold turn in Ha; rewrite Hc.
  - simpl. rewrite Ht. rewrite <- Hc. auto.
  - rewrite (collect_error_last fw e [] Hne). split; [done|]. right. eauto.
  - assert (Hne' : filter Spec.is_error_chunk (fw ++ [ChunkDone])%list = []).
    { by rewrite filter_app, Hne. }
    destruct (collect_no_error _ [] Hne') as (more & -> & Hjoin).
    rewrite Ht. simpl. split; [exact Hjoin|]. split; [eauto | done].
Qed.

(** ** SessionManager: which agent serves a turn *)

(** X18. An [agentId] option that is a non-empty string bypasses the
    bindings: when it names a configured agent the port is called with
    that agent's options, and when it does not, the turn yields the single
    chunk [error "Unknown agent: <id>"], the port is not called and the
    manager is unchanged. Without the option (or with the empty string) the
    turn is routed; if routing fails the generator rejects before yielding
    anything, again without calling the port or changing the manager. *)
Theorem sendMessage_agent_selection
    (sm : SessionManager) (now : Z) (query : Query)
    (message : IncomingMessage) (options : SendMessageOptions) :
  let turn := SessionManager.sendMessage sm now query message options in
  let stored := ses_sdkSessionId <$>
                  Db.getSession (sm_db sm) (msg_chatKey message)
                    (Spec.turn_sessionName sm message options) in
  (forall id agent,
      smo_agentId options = Some id -> id <> "" ->
      Router.getAgent (sm_router sm) id = Some agent ->
      turn_query turn
      = Some (msg_text message, SessionManager.queryOptions agent message stored))
  /\ (forall id,
        smo_agentId options = Some id -> id <> "" ->
        Router.getAgent (sm_router sm) id = None ->
        turn_chunks turn = [ChunkError ("Unknown agent: " +:+ id)]
        /\ turn_thrown turn = None /\ turn_query turn = None /\ turn_after turn = sm)
  /\ (smo_agentId options = None \/ smo_agentId options = Some "" ->
      match Router.routeMessage (sm_router sm) message with
      | Ok agent =>
          turn_query turn
          = Some (msg_text message, SessionManager.queryOptions agent message stored)
      | Throw e =>
          turn_chunks turn = [] /\ turn_thrown turn = Some e
          /\ turn_query turn = None /\ turn_after turn = sm
      end).
Proof.
  intros turn stored. split; [|split].
  - intros id agent Hid Hne Hagent. apply sendMessage_reaches_port.
    unfold SessionManager.resolveAgent. rewrite Hid.
    apply truthy_Some in Hne. rewrite Hne. simpl. by rewrite Hagent.
  - intros id Hid Hne Hagent. subst turn. unfold SessionManager.sendMessage.
    unfold SessionManager.resolveAgent. rewrite Hid.
    apply truthy_Some in Hne. rewrite Hne. simpl. by rewrite Hagent.
  - intros Hid.
    assert (Hres : SessionManager.resolveAgent sm message options
                   = match Router.routeMessage (sm_router sm) message with
                     | Ok agent => Ok (Some agent)
                     | Throw e => Throw e
                     end).
    { unfold SessionManager.resolveAgent. by destruct Hid as [-> | ->]. }
    destruct (Router.routeMessage (sm_router sm) message) as [agent|e] eqn:Hroute.
    + by apply sendMessage_reaches_port.
    + subst turn. unfold SessionManager.sendMessage. by rewrite Hres.
Qed.

(** ** SessionManager: resetting, deleting, switching and caching sessions *)

Lemma foldl_delete_lookup {A B} (f : B -> string) (l : list B) (m : gmap string A)
    (k : string) :
  foldl (fun c x => delete (f x) c) m l !! k
  = if bool_decide (k ∈ f <$> l) then None else m !! k.
Proof.
  revert m. induction l as [|x l IH]; intros m.
  - done.
  - change (foldl (fun c x => delete (f x) c) (delete (f x) m) l !! k
            = if bool_decide (k ∈ f x :: (f <$> l)) then None else m !! k).
    rewrite IH. destruct (decide (k = f x)) as [->|Hk].
    + rewrite lookup_delete_eq.
      rewrite (bool_decide_eq_true_2 (f x ∈ f x :: (f <$> l))) by left.
      by case_bool_decide.
    + rewrite lookup_delete_ne by done.
      destruct (decide (k ∈ f <$> l)) as [Hin|Hin].
      * rewrite (bool_decide_eq_true_2 _ Hin).
        by rewrite (bool_decide_eq_true_2 (k ∈ f x :: (f <$> l))) by (by right).
      * rewrite (bool_decide_eq_false_2 _ Hin).
        rewrite (bool_decide_eq_false_2 (k ∈ f x :: (f <$> l))); [done|].
        intros Hc. apply elem_of_cons in Hc as [?|?]; contradiction.
Qed.

Lemma getSession_deleteAllSessions_same db chatKey sn :
  Db.getSession (Db.deleteAllSessions db chatKey) chatKey sn = None.
Proof.
  unfold Db.getSession. simpl.
  destruct (filter _ (sessions db) !! (chatKey, sn)) as [row|] eqn:Hrow; [|done].
  apply map_lookup_filter_Some in Hrow as [_ Hne]. by destruct Hne.
Qed.

Lemma getSession_deleteAllSessions_other db chatKey ck sn :
  ck <> chatKey ->
  Db.getSession (Db.deleteAllSessions db chatKey) ck sn = Db.getSession db ck sn.
Proof.
  intros Hne. unfold Db.getSession. simpl. f_equal.
  destruct (sessions db !! (ck, sn)) as [row|] eqn:Hrow.
  - by apply map_lookup_filter_Some.
  - apply map_lookup_filter_None. left. exact Hrow.
Qed.

Lemma not_resumed_without_row sm now query message options prompt opts :
  Db.getSession (sm_db sm) (msg_chatKey message) (Spec.turn_sessionName sm message options)
  = None ->
  turn_query (SessionManager.sendMessage sm now query message options) = Some (prompt, opts) ->
  o_resume opts = None.
Proof.
  intros Hrow Hq. rewrite (resume_of_query _ _ _ _ _ _ _ Hq). by rewrite Hrow.
Qed.

(** X19. After [resetChat] the chat has no stored session, its
    active session is "main" again, the cache entry of each session that
    was stored for it is evicted, and the next turn of the chat reaching
    the port starts a new conversation (no [resume] handle), whatever
    session name it is addressed to. Cache entries under other keys and
    the sessions of other chats are untouched. *)
Theorem resetChat_starts_fresh (sm : SessionManager) (chatKey : string) :
  let sm' := SessionManager.resetChat sm chatKey in
  SessionManager.listSessions sm' chatKey = []
  /\ SessionManager.getActiveSessionName sm' chatKey = "main"
  /\ (forall name,
        is_Some (Db.getSession (sm_db sm) chatKey name) ->
        sm_activeSessions sm' !! SessionManager.fullKey chatKey name = None)
  /\ (forall key,
        (forall name, is_Some (Db.getSession (sm_db sm) chatKey name) ->
                      key <> SessionManager.fullKey chatKey name) ->
        sm_activeSessions sm' !! key = sm_activeSessions sm !! key)
  /\ (forall now query message options prompt opts,
        msg_chatKey message = chatKey ->
        turn_query (SessionManager.sendMessage sm' now query message options)
        = Some (prompt, opts) ->
        o_resume opts = None)
  /\ (forall ck name,
        ck <> chatKey ->
        Db.getSession (sm_db sm') ck name = Db.getSession (sm_db sm) ck name).
Proof.
  intros sm'.
  assert (Hkeys : forall key,
            key ∈ (fun s => SessionManager.fullKey chatKey (ses_sessionName s))
                    <$> Db.listSessions (sm_db sm) chatKey
            <-> exists name, is_Some (Db.getSession (sm_db sm) chatKey name)
                             /\ key = SessionManager.fullKey chatKey name).
  { intros key. rewrite list_elem_of_fmap. split.
    - intros (s & -> & Hin). apply listSessions_elem in Hin as (sn & Hs).
      exists sn. split; [by rewrite Hs|].
      unfold Db.getSession in Hs. destruct (sessions (sm_db sm) !! _); [|discriminate].
      by injection Hs as <-.
    - intros (name & [s Hs] & ->). exists s. split.
      + unfold Db.getSession in Hs. destruct (sessions (sm_db sm) !! _); [|discriminate].
        by injection Hs as <-.
      + apply listSessions_elem. eauto. }
  assert (Hcache : forall key,
            sm_activeSessions sm' !! key
            = if bool_decide (key ∈ (fun s => SessionManager.fullKey chatKey (ses_sessionName s))
                                <$> Db.listSessions (sm_db sm) chatKey)
              then None else sm_activeSessions sm !! key).
  { intros key. subst sm'. unfold SessionManager.resetChat. simpl.
    apply (foldl_delete_lookup
             (fun s => SessionManager.fullKey chatKey (ses_sessionName s))). }
  split; [|split; [|split; [|split; [|split]]]].
  - unfold SessionManager.listSessions.
    change (sm_db sm') with (Db.deleteAllSessions (sm_db sm) chatKey).
    destruct (Db.listSessions (Db.deleteAllSessions (sm_db sm) chatKey) chatKey)
      as [|s l] eqn:Hl; [done|].
    assert (Hin : s ∈ Db.listSessions (Db.deleteAllSessions (sm_db sm) chatKey) chatKey)
      by (rewrite Hl; left).
    apply listSessions_elem in Hin as (sn & Hs).
    by rewrite getSession_deleteAllSessions_same in Hs.
  - unfold SessionManager.getActiveSessionName, Db.getActiveSessionName. simpl.
    by rewrite lookup_delete_eq.
  - intros name Hname. rewrite Hcache, bool_decide_eq_true_2; [done|].
    apply Hkeys. eauto.
  - intros key Hkey. rewrite Hcache, bool_decide_eq_false_2; [done|].
    intros Hin. apply Hkeys in Hin as (name & Hname & ->). by apply (Hkey name).
  - intros now query message options prompt opts <-.
    apply not_resumed_without_row. apply getSession_deleteAllSessions_same.
  - intros ck name Hne. by apply getSession_deleteAllSessions_other.
Qed.

(** X20. [deleteSession] removes the session's row and its cache
    entry, so a later turn addressed to that session starts a new
    conversation. It leaves every other session row alone, and it does not
    move the chat's active-session pointer, even when the pointer names
    the deleted session. *)
Theorem deleteSession_forgets_handle_keeps_pointer
    (sm : SessionManager) (chatKey : string) (sessionName : option string) :
  let name := default "main" sessionName in
  let sm' := SessionManager.deleteSession sm chatKey sessionName in
  Db.getSession (sm_db sm') chatKey name = None
  /\ sm_activeSessions sm' !! SessionManager.fullKey chatKey name = None
  /\ (forall ck, SessionManager.getActiveSessionName sm' ck
                 = SessionManager.getActiveSessionName sm ck)
  /\ (forall ck sn, (ck, sn) <> (chatKey, name) ->
        Db.getSession (sm_db sm') ck sn = Db.getSession (sm_db sm) ck sn)
  /\ (forall now query message options prompt opts,
        msg_chatKey message = chatKey ->
        Spec.turn_sessionName sm' message options = name ->
        turn_query (SessionManager.sendMessage sm' now query message options)
        = Some (prompt, opts) ->
        o_resume opts = None).
Proof.
  intros name sm'.
  assert (Hgone : Db.getSession (sm_db sm') chatKey name = None).
  { unfold Db.getSession. simpl. fold name. by rewrite lookup_delete_eq. }
  split; [exact Hgone|]. split; [|split; [|split]].
  - simpl. fold name. by rewrite lookup_delete_eq.
  - reflexivity.
  - intros ck sn Hne. unfold Db.getSession. simpl. fold name.
    by rewrite lookup_delete_ne.
  - intros now query message options prompt opts <- Hname.
    apply not_resumed_without_row. by rewrite Hname.
Qed.

(** X21. [switchSession] succeeds exactly when the named session is
    stored for the chat; otherwise it returns [false] and changes nothing.
    On success only the chat's active-session pointer moves: the chat's
    active session then reads as the given name (as "main" for the empty
    name), and a later turn of the chat that gives no [sessionName]
    resumes the handle stored for that session when it is a real one. *)
Theorem switchSession_directs_next_turn
    (sm : SessionManager) (chatKey sessionName : string) :
  match Db.getSession (sm_db sm) chatKey sessionName with
  | None => SessionManager.switchSession sm chatKey sessionName = (false, sm)
  | Some session =>
      exists sm',
        SessionManager.switchSession sm chatKey sessionName = (true, sm')
        /\ sessions (sm_db sm') = sessions (sm_db sm)
        /\ sm_activeSessions sm' = sm_activeSessions sm
        /\ SessionManager.getActiveSessionName sm' chatKey
           = (if String.eqb sessionName "" then "main" else sessionName)
        /\ (forall ck, ck <> chatKey ->
              SessionManager.getActiveSessionName sm' ck
              = SessionManager.getActiveSessionName sm ck)
        /\ (sessionName <> "" ->
            forall now query message options prompt opts,
              msg_chatKey message = chatKey ->
              smo_sessionName options = None ->
              turn_query (SessionManager.sendMessage sm' now query message options)
              = Some (prompt, opts) ->
              o_resume opts
              = if SessionManager.resumable (Some (ses_sdkSessionId session))
                then Some (ses_sdkSessionId session) else None)
  end.
Proof.
  unfold SessionManager.switchSession.
  destruct (Db.getSession (sm_db sm) chatKey sessionName) as [session|] eqn:Hrow; [|done].
  eexists. split; [reflexivity|]. split; [done|]. split; [done|].
  assert (Hactive : SessionManager.getActiveSessionName
                      (SessionManager.with_db sm
                         (Db.setActiveSession (sm_db sm) chatKey sessionName)) chatKey
                    = if String.eqb sessionName "" then "main" else sessionName).
  { unfold SessionManager.getActiveSessionName, Db.getActiveSessionName. simpl.
    by rewrite lookup_insert_eq. }
  split; [exact Hactive|]. split.
  - intros ck Hne. unfold SessionManager.getActiveSessionName, Db.getActiveSessionName.
    simpl. by rewrite lookup_insert_ne.
  - intros Hname now query message options prompt opts <- Hopt Hq.
    rewrite (resume_of_query _ _ _ _ _ _ _ Hq).
    unfold Spec.turn_sessionName. rewrite Hopt.
    change (default ?d None) with d.
    unfold SessionManager.getActiveSessionName in Hactive. rewrite Hactive.
    apply String.eqb_neq in Hname. rewrite Hname.
    change (Db.getSession _ (msg_chatKey message) sessionName)
      with (Db.getSession (sm_db sm) (msg_chatKey message) sessionName).
    by rewrite Hrow.
Qed.

(** X22. Whatever [getOrCreateSession] returns is cached under the
    session's key and returned unchanged by every later call for that
    session, with any agent and at any time, also after turns have
    recorded newer handles in the database: the cache is written once per
    key and a turn never refreshes it. On a cache miss the call leaves a
    row for the session in the database, and the returned id is the
    stored handle, or a fresh placeholder that the port will not be asked
    to resume. *)
Theorem getOrCreateSession_cache_written_once
    (sm : SessionManager) (now : Z) (rnd chatKey : string)
    (agentConfig : AgentConfig) (sessionName : option string) :
  let name := default "main" sessionName in
  let out := SessionManager.getOrCreateSession sm now rnd chatKey agentConfig sessionName in
  sm_activeSessions out.2 !! SessionManager.fullKey chatKey name = Some out.1
  /\ (forall now' rnd' agentConfig',
        SessionManager.getOrCreateSession out.2 now' rnd' chatKey agentConfig' sessionName
        = out)
  /\ (forall now1 query message options now' rnd' agentConfig',
        let after := turn_after (SessionManager.sendMessage out.2 now1 query message options) in
        SessionManager.getOrCreateSession after now' rnd' chatKey agentConfig' sessionName
        = (out.1, after))
  /\ (sm_activeSessions sm !! SessionManager.fullKey chatKey name = None ->
      out.1 = {| cs_id := match Db.getSession (sm_db sm) chatKey name with
                          | Some stored => ses_sdkSessionId stored
                          | None => SessionManager.placeholderId now rnd
                          end;
                 cs_agentConfig := agentConfig;
                 cs_chatKey := chatKey; cs_sessionName := name |}
      /\ (ses_sdkSessionId <$> Db.getSession (sm_db out.2) chatKey name) = Some (cs_id out.1)
      /\ (Db.getSession (sm_db sm) chatKey name = None ->
          SessionManager.resumable (Some (cs_id out.1)) = false)).
Proof.
  intros name out.
  assert (Hcached : sm_activeSessions out.2 !! SessionManager.fullKey chatKey name = Some out.1).
  { subst out. unfold SessionManager.getOrCreateSession. fold name.
    destruct (sm_activeSessions sm !! _) as [cached|] eqn:Hc; [exact Hc|].
    destruct (Db.getSession (sm_db sm) chatKey name); simpl; by rewrite lookup_insert_eq. }
  assert (Hhit : forall sm2 now' rnd' agentConfig',
            sm_activeSessions sm2 = sm_activeSessions out.2 ->
            SessionManager.getOrCreateSession sm2 now' rnd' chatKey agentConfig' sessionName
            = (out.1, sm2)).
  { intros sm2 now' rnd' agentConfig' Heq.
    unfold SessionManager.getOrCreateSession at 1. fold name. by rewrite Heq, Hcached. }
  split; [exact Hcached|]. split; [|split].
  - intros now' rnd' agentConfig'. rewrite (Hhit out.2) by done. by destruct out.
  - intros now1 query message options now' rnd' agentConfig' after.
    apply Hhit. apply sendMessage_turn_after_cache.
  - intros Hmiss. subst out. unfold SessionManager.getOrCreateSession. fold name.
    rewrite Hmiss.
    destruct (Db.getSession (sm_db sm) chatKey name) as [stored|] eqn:Hrow; simpl.
    + split; [done|]. split; [|discriminate].
      unfold Db.getSession in *. simpl. rewrite lookup_alter_eq.
      destruct (sessions (sm_db sm) !! (chatKey, name)); [|discriminate].
      by injection Hrow as <-.
    + split; [done|]. split; [apply getSession_saveSession_handle|].
      intros _. unfold SessionManager.resumable.
      change (default "" (Some ?x)) with x.
      change (Js.startsWith (SessionManager.placeholderId now rnd) "ccb-") with true.
      by rewrite andb_false_r.
Qed.

(** ** BaseAdapter: splitting long messages *)

Lemma length_zero_empty (s : string) : String.length s = 0%nat -> s = "".
Proof. by destruct s. Qed.

Lemma substring_0_all (s : string) : String.substring 0 (String.length s) s = s.
Proof. induction s as [|c s IH]; simpl; [done | by rewrite IH]. Qed.

Lemma slice_split (n : nat) (s : string) :
  (n <= String.length s)%nat ->
  Js.slice0 n s +:+ BaseAdapter.slice_from n s = s.
Proof.
  unfold Js.slice0, BaseAdapter.slice_from. revert n.
  induction s as [|c s IH]; intros [|n] Hn; simpl in *; try done; try lia.
  - by rewrite substring_0_all.
  - change (String c (String.substring 0 n s
                      +:+ String.substring n (String.length s - n) s) = String c s).
    rewrite IH; [done | lia].
Qed.

Lemma slice0_length (n : nat) (s : string) :
  (n <= String.length s)%nat -> String.length (Js.slice0 n s) = n.
Proof.
  unfold Js.slice0. revert n.
  induction s as [|c s IH]; intros [|n] Hn; simpl in *; try done; try lia.
  rewrite IH; [done | lia].
Qed.

Lemma append_length (a b : string) :
  String.length (a +:+ b) = (String.length a + String.length b)%nat.
Proof.
  induction a as [|c a IH]; [done|].
  change (S (String.length (a +:+ b)) = S (String.length a + String.length b)).
  by rewrite IH.
Qed.

Lemma slice_from_length (n : nat) (s : string) :
  (n <= String.length s)%nat ->
  String.length (BaseAdapter.slice_from n s) = (String.length s - n)%nat.
Proof.
  intros Hn. pose proof (slice_split n s Hn) as Heq.
  apply (f_equal String.length) in Heq.
  rewrite append_length, slice0_length in Heq by done. lia.
Qed.

Lemma slice0_get (n k : nat) (s : string) :
  (k < n)%nat -> String.get k (Js.slice0 n s) = String.get k s.
Proof.
  unfold Js.slice0. revert n k.
  induction s as [|c s IH]; intros [|n] [|k] Hk; simpl; try done; try lia.
  apply IH. lia.
Qed.

Lemma get_Some_length (k : nat) (s : string) (c : ascii) :
  String.get k s = Some c -> (k < String.length s)%nat.
Proof.
  revert k. induction s as [|x s IH]; intros [|k] Hk; simpl in *; try done; try lia.
  apply IH in Hk. lia.
Qed.

Lemma lastIndexOf_from_spec (c : ascii) (s : string) (i fromIndex : nat)
    (found : option nat) (k : nat) :
  BaseAdapter.lastIndexOf_from c s i fromIndex found = Some k ->
  found = Some k
  \/ ((i <= k <= fromIndex)%nat /\ String.get (k - i) s = Some c).
Proof.
  revert i found. induction s as [|x s IH]; intros i found Hk; simpl in Hk; [by left|].
  destruct (Nat.leb_spec i fromIndex) as [Hi|Hi]; [|by left].
  apply IH in Hk as [Hk | [Hbound Hget]].
  - destruct (Ascii.eqb_spec x c) as [->|Hx]; [|by left].
    injection Hk as <-. right. split; [lia|]. by rewrite Nat.sub_diag.
  - right. split; [lia|].
    replace (k - i)%nat with (S (k - S i)) by lia. exact Hget.
Qed.

Lemma lastIndexOf_spec (c : ascii) (s : string) (fromIndex k : nat) :
  BaseAdapter.lastIndexOf c s fromIndex = Some k ->
  (k <= fromIndex)%nat /\ String.get k s = Some c.
Proof.
  intros Hk. apply lastIndexOf_from_spec in Hk as [Hk | [Hbound Hget]]; [discriminate|].
  rewrite Nat.sub_0_r in Hget. split; [lia | done].
Qed.

(** The break point of a round lies within the text that is left, is at
    most one past the limit, and is past the limit only just after a line
    feed or a space found at the limit. *)
Lemma breakPoint_bounds (remaining : string) (maxLength : nat) :
  (1 <= maxLength)%nat ->
  (maxLength < String.length remaining)%nat ->
  let bp := BaseAdapter.breakPoint remaining maxLength in
  (bp <= String.length remaining)%nat
  /\ (maxLength < 2 * bp)%nat
  /\ ((bp <= maxLength)%nat
      \/ (bp = maxLength + 1)%nat
         /\ (String.get maxLength remaining = Some "010"%char
             \/ String.get maxLength remaining = Some " "%char)).
Proof.
  intros Hmax Hlen. unfold BaseAdapter.breakPoint.
  destruct (BaseAdapter.lastIndexOf "010"%char remaining maxLength) as [k|] eqn:Hk; simpl.
  - destruct (Nat.ltb_spec maxLength (k + (k + 0))) as [Hhalf|Hhalf].
    + apply lastIndexOf_spec in Hk as [Hle Hget]. pose proof (get_Some_length _ _ _ Hget).
      split; [lia|]. split; [lia|].
      destruct (decide (k = maxLength)) as [->|]; [right; auto | left; lia].
    + destruct (BaseAdapter.lastIndexOf " "%char remaining maxLength) as [j|] eqn:Hj; simpl.
      * destruct (Nat.ltb_spec maxLength (j + (j + 0))) as [Hhalf'|Hhalf'].
        -- apply lastIndexOf_spec in Hj as [Hle Hget].
           pose proof (get_Some_length _ _ _ Hget).
           split; [lia|]. split; [lia|].
           destruct (decide (j = maxLength)) as [->|]; [right; auto | left; lia].
        -- split; [lia|]. split; [|left; lia].
           apply lastIndexOf_spec in Hk as [_ Hget]. lia.
      * split; [lia|]. split; [|left; lia]. lia.
  - destruct (BaseAdapter.lastIndexOf " "%char remaining maxLength) as [j|] eqn:Hj; simpl.
    + destruct (Nat.ltb_spec maxLength (j + (j + 0))) as [Hhalf'|Hhalf'].
      * apply lastIndexOf_spec in Hj as [Hle Hget].
        pose proof (get_Some_length _ _ _ Hget).
        split; [lia|]. split; [lia|].
        destruct (decide (j = maxLength)) as [->|]; [right; auto | left; lia].
      * split; [lia|]. split; [|left; lia]. lia.
    + split; [lia|]. split; [|left; lia]. lia.
Qed.

Lemma split_loop_spec (maxLength : nat) (fuel : nat) (remaining : string)
    (chunks : list string) :
  (1 <= maxLength)%nat ->
  (String.length remaining < fuel)%nat ->
  exists more,
    BaseAdapter.split_loop fuel remaining maxLength chunks = Some (chunks ++ more)%list
    /\ Js.join "" more = remaining
    /\ Forall (fun chunk =>
                 chunk <> ""
                 /\ ((String.length chunk <= maxLength)%nat
                     \/ (String.length chunk = maxLength + 1)%nat
                        /\ (String.get maxLength chunk = Some "010"%char
                            \/ String.get maxLength chunk = Some " "%char))) more.
Proof.
  intros Hmax. revert remaining chunks.
  induction fuel as [|fuel IH]; intros remaining chunks Hfuel; [lia|].
  simpl.
  destruct (Nat.eqb_spec (String.length remaining) 0) as [Hzero|Hpos].
  { exists []. rewrite app_nil_r. apply length_zero_empty in Hzero. by subst. }
  destruct (Nat.leb_spec (String.length remaining) maxLength) as [Hshort|Hlong].
  { exists [remaining]. split; [done|]. split; [done|].
    constructor; [|constructor]. split; [|by left].
    intros ->. by apply Hpos. }
  destruct (breakPoint_bounds remaining maxLength Hmax Hlong) as (Hin & Hhalf & Hbound).
  set (bp := BaseAdapter.breakPoint remaining maxLength) in *.
  destruct (IH (BaseAdapter.slice_from bp remaining)
               (chunks ++ [Js.slice0 bp remaining])%list) as (more & -> & Hjoin & Hall).
  { rewrite slice_from_length by done. lia. }
  exists (Js.slice0 bp remaining :: more). split; [by rewrite <- app_assoc|]. split.
  - change (Js.slice0 bp remaining :: more) with ([Js.slice0 bp remaining] ++ more)%list.
    rewrite join_empty_app, Hjoin. by apply slice_split.
  - constructor; [|exact Hall].
    pose proof (slice0_length bp remaining Hin) as Hl.
    split; [intros Heq; rewrite Heq in Hl; simpl in Hl; lia|].
    rewrite Hl. destruct Hbound as [?|[Hbp Hget]]; [by left|].
    right. split; [done|]. rewrite slice0_get by lia. exact Hget.
Qed.

(** X23. For a limit of at least one character, [splitMessage]
    returns (the loop ends within as many rounds as the text has
    characters): the chunks concatenate to the text exactly, a text within
    the limit is returned as one chunk, and for a non-empty text no chunk
    is empty. A chunk is at most one character longer than the limit, and
    it exceeds the limit only when its last character, at index
    [maxLength], is the line feed or the space it was broken after. *)
Theorem splitMessage_chunks_cover_text
    (text : string) (maxLength fuel : nat) :
  (1 <= maxLength)%nat ->
  (String.length text < fuel)%nat ->
  exists chunks,
    BaseAdapter.splitMessage fuel text maxLength = Some chunks
    /\ Js.join "" chunks = text
    /\ ((String.length text <= maxLength)%nat -> chunks = [text])
    /\ (text <> "" -> Forall (fun chunk => chunk <> "") chunks)
    /\ Forall (fun chunk =>
                 (String.length chunk <= maxLength)%nat
                 \/ (String.length chunk = maxLength + 1)%nat
                    /\ (String.get maxLength chunk = Some "010"%char
                        \/ String.get maxLength chunk = Some " "%char)) chunks.
Proof.
  intros Hmax Hfuel. unfold BaseAdapter.splitMessage.
  destruct (Nat.leb_spec (String.length text) maxLength) as [Hshort|Hlong].
  - exists [text]. repeat split; auto.
  - destruct (split_loop_spec maxLength fuel text [] Hmax Hfuel) as (more & -> & Hjoin & Hall).
    exists more. split; [done|]. split; [done|]. split; [lia|]. split.
    + intros _. eapply Forall_impl; [exact Hall|]. by intros chunk [? _].
    + eapply Forall_impl; [exact Hall|]. by intros chunk [_ ?].
Qed.

Lemma splitMessage_chunks_cover_text_witness :
  let text := "abcd" +:+ SessionManager.newline +:+ "xyz" in
  exists chunks,
    BaseAdapter.splitMessage 9 text 4 = Some chunks
    /\ Js.join "" chunks = text
    /\ chunks = ["abcd" +:+ SessionManager.newline; "xyz"].
Proof.
  intros text.
  destruct (splitMessage_chunks_cover_text text 4 9 ltac:(lia) ltac:(vm_compute; lia))
    as (chunks & Hsplit & Hjoin & _).
  exists chunks. split; [exact Hsplit|]. split; [exact Hjoin|].
  vm_compute in Hsplit. by injection Hsplit as <-.
Defined.

(** X24. With a limit of zero and a non-empty text the loop of
    [splitMessage] makes no progress: the break point is 0, an empty chunk
    is pushed and the text that is left stays the same, so no number of
    rounds produces a result. *)
Theorem splitMessage_zero_limit_never_returns (text : string) (fuel : nat) :
  text <> "" -> BaseAdapter.splitMessage fuel text 0 = None.
Proof.
  intros Htext.
  assert (Hlen : (0 < String.length text)%nat) by (destruct text; [done | simpl; lia]).
  assert (Hbp : BaseAdapter.breakPoint text 0 = 0%nat).
  { unfold BaseAdapter.breakPoint, BaseAdapter.lastIndexOf.
    destruct text as [|c [|c' text]]; [done| |]; simpl;
      by destruct (Ascii.eqb c "010"%char), (Ascii.eqb c " "%char). }
  assert (Hsame : BaseAdapter.slice_from 0 text = text).
  { unfold BaseAdapter.slice_from. rewrite Nat.sub_0_r. apply substring_0_all. }
  unfold BaseAdapter.splitMessage.
  destruct (Nat.leb_spec (String.length text) 0) as [?|_]; [lia|].
  generalize (@nil string) as chunks.
  induction fuel as [|fuel IH]; intros chunks; [done|].
  simpl.
  destruct (Nat.eqb_spec (String.length text) 0) as [?|_]; [lia|].
  destruct (Nat.leb_spec (String.length text) 0) as [?|_]; [lia|].
  rewrite Hbp, Hsame. apply IH.
Qed.

Lemma splitMessage_zero_limit_never_returns_witness :
  BaseAdapter.splitMessage 1000 "hello" 0 = None.
Proof. apply splitMessage_zero_limit_never_returns. discriminate. Defined.

(** ** Discord adapter: chat keys *)

Lemma eqb_false_sym (a b : string) : String.eqb a b = false -> String.eqb b a = false.
Proof. rewrite !String.eqb_neq. congruence. Qed.

(** X25. For ids that are non-empty and colon-free, a bot id other
    than "channel" and an author id other than "channel", the key the
    Discord adapter builds for a message is the key [Router.buildChatKey]
    builds for the same facts; [extractChannelId] gets back from it the
    channel id of a guild message and the author id of a direct message;
    and [Router.parseChatKey] reads it back as the same bot, id and guild
    flag, with no session name. *)
Theorem discord_adapter_chat_key_roundtrip
    (botId : option string) (guild : bool) (channelId authorId : string) :
  Spec.opt_segment botId = true ->
  botId <> Some "channel" ->
  Spec.segment channelId = true ->
  Spec.segment authorId = true ->
  authorId <> "channel" ->
  let key := DiscordAdapter.buildChatKey botId guild channelId authorId in
  let id := if guild then channelId else authorId in
  key = Router.buildChatKey "discord" id
          (Some {| opt_botId := botId; opt_isGroup := Some guild; opt_sessionName := None |})
  /\ DiscordAdapter.extractChannelId key = Some id
  /\ Router.parseChatKey key = Ok (Router.parsed "discord" botId (Some id) None guild).
Proof.
  intros Hbot Hbotc Hchan Hauth Hauthc key id.
  apply segment_true in Hchan as [Hc Hcc]. apply segment_true in Hauth as [Ha Hac].
  apply String.eqb_neq in Hauthc.
  pose proof (eqb_false_sym _ _ Hauthc) as Hauthc'.
  assert (Hsplit : forall parts,
            parts <> [] -> Forall (fun p => Spec.contains ":" p = false) parts ->
            Js.split ":" (Js.join ":" parts) = parts) by apply split_join.
  destruct botId as [b|].
  - apply opt_segment_Some in Hbot as [Hb Hbc].
    assert (Hbch : String.eqb b "channel" = false)
      by (apply String.eqb_neq; congruence).
    pose proof (eqb_false_sym _ _ Hbch) as Hbch'.
    destruct guild; subst key id; unfold DiscordAdapter.buildChatKey, Router.buildChatKey,
      Js.truthy; cbn [mbind option_bind opt_botId opt_isGroup opt_sessionName default];
      rewrite Hb; cbn [negb app String.eqb Ascii.eqb Bool.eqb andb];
      cbv [Datatypes.id from_option].
    + change ("discord:" +:+ b +:+ ":channel:" +:+ channelId)
        with (Js.join ":" ["discord"; b; "channel"; channelId]).
      split; [reflexivity|].
      unfold DiscordAdapter.extractChannelId, Router.parseChatKey.
      rewrite Hsplit by (try done; repeat constructor; done).
      unfold DiscordAdapter.includes. cbn [existsb DiscordAdapter.indexOf].
      rewrite Hbch, Hbch'. cbn [String.eqb Ascii.eqb Bool.eqb andb orb fmap option_fmap option_map].
      split; [reflexivity|].
      cbn [length Nat.ltb Nat.leb lookup list_lookup default].
      cbv [Datatypes.id from_option]. cbn [String.eqb Ascii.eqb Bool.eqb andb].
      rewrite bool_decide_eq_false_2 by congruence.
      by rewrite bool_decide_eq_true_2.
    + change ("discord:" +:+ b +:+ ":" +:+ authorId)
        with (Js.join ":" ["discord"; b; authorId]).
      split; [reflexivity|].
      unfold DiscordAdapter.extractChannelId, Router.parseChatKey.
      rewrite Hsplit by (try done; repeat constructor; done).
      unfold DiscordAdapter.includes. cbn [existsb].
      rewrite Hbch', Hauthc'. cbn [String.eqb Ascii.eqb Bool.eqb andb orb last].
      split; [reflexivity|].
      cbn [length Nat.ltb Nat.leb lookup list_lookup default].
      cbv [Datatypes.id from_option]. cbn [String.eqb Ascii.eqb Bool.eqb andb].
      rewrite !bool_decide_eq_false_2; [done | | ]; intros [= ->]; by apply String.eqb_neq in Hauthc || by apply String.eqb_neq in Hbch.
  - destruct guild; subst key id; unfold DiscordAdapter.buildChatKey, Router.buildChatKey,
      Js.truthy; cbn [mbind option_bind opt_botId opt_isGroup opt_sessionName default];
      cbn [negb app String.eqb Ascii.eqb Bool.eqb andb].
    + change ("discord:channel:" +:+ channelId)
        with (Js.join ":" ["discord"; "channel"; channelId]).
      split; [reflexivity|].
      unfold DiscordAdapter.extractChannelId, Router.parseChatKey.
      rewrite Hsplit by (try done; repeat constructor; done).
      split; [reflexivity|].
      cbn [length Nat.ltb Nat.leb lookup list_lookup default].
      cbv [Datatypes.id from_option]. cbn [String.eqb Ascii.eqb Bool.eqb andb].
      by rewrite bool_decide_eq_true_2.
    + change ("discord:" +:+ authorId) with (Js.join ":" ["discord"; authorId]).
      split; [reflexivity|].
      unfold DiscordAdapter.extractChannelId, Router.parseChatKey.
      rewrite Hsplit by (try done; repeat constructor; done).
      unfold DiscordAdapter.includes. cbn [existsb].
      rewrite Hauthc'. cbn [String.eqb Ascii.eqb Bool.eqb andb orb last].
      split; [reflexivity|].
      cbn [length Nat.ltb Nat.leb lookup list_lookup default].
      cbv [Datatypes.id from_option]. cbn [String.eqb Ascii.eqb Bool.eqb andb].
      rewrite bool_decide_eq_false_2; [done|].
      intros [= ->]. by apply String.eqb_neq in Hauthc.
Qed.

Lemma discord_adapter_chat_key_roundtrip_witness :
  DiscordAdapter.extractChannelId
    (DiscordAdapter.buildChatKey (Some "helper") true "777" "42") = Some "777"
  /\ Router.parseChatKey (DiscordAdapter.buildChatKey (Some "helper") true "777" "42")
     = Ok (Router.parsed "discord" (Some "helper") (Some "777") None true).
Proof.
  destruct (discord_adapter_chat_key_roundtrip (Some "helper") true "777" "42"
              eq_refl ltac:(discriminate) eq_refl eq_refl ltac:(discriminate))
    as (_ & Hextract & Hparse).
  split; [exact Hextract | exact Hparse].
Defined.

(** ** Telegram adapter: chat keys *)

Lemma contains_app_colon (a r : string) : Spec.contains ":" (a +:+ String ":" r) = true.
Proof.
  induction a as [|c a IH]; [done|].
  change (Ascii.eqb c ":" || Spec.contains ":" (a +:+ String ":" r) = true).
  by rewrite IH, orb_true_r.
Qed.

(** The last part of a split key is the text after its last colon. *)
Lemma last_split_app (a r : string) :
  last (Js.split ":" (a +:+ String ":" r)) = last (Js.split ":" r).
Proof.
  induction a as [|c a IH].
  - change (last (Js.split ":" (String ":" r)) = last (Js.split ":" r)). simpl.
    pose proof (split_nonempty r) as Hlen.
    destruct (Js.split ":" r); simpl in *; [lia | done].
  - change (last (Js.split ":" (String c (a +:+ String ":" r))) = last (Js.split ":" r)).
    rewrite <- IH. simpl.
    pose proof (split_length_colon _ (contains_app_colon a r)) as Hlen.
    destruct (Js.split ":" (a +:+ String ":" r)) as [|p [|q ps]]; simpl in Hlen; try lia.
    by destruct (Ascii.eqb c ":").
Qed.

Lemma digit_not_colon (l : list ascii) :
  forallb (fun c => Js.is_digit c || Ascii.eqb c "-"%char) l = true ->
  Spec.contains ":" (string_of_list_ascii l) = false.
Proof.
  induction l as [|c l IH]; [done|]. simpl. rewrite andb_true_iff. intros [Hc Hl].
  rewrite (IH Hl), orb_false_r.
  destruct (Ascii.eqb_spec c ":") as [->|]; [discriminate | done].
Qed.

Lemma digits_or_dash (l : list ascii) :
  forallb Js.is_digit l = true ->
  forallb (fun c => Js.is_digit c || Ascii.eqb c "-"%char) l = true.
Proof.
  induction l as [|c l IH]; [done|]. simpl. rewrite !andb_true_iff.
  intros [-> Hl]. auto.
Qed.

Lemma pretty_N_char_digit (x : N) :
  (x < 10)%N ->
  Js.is_digit (pretty_N_char x) = true
  /\ TelegramAdapter.digit_value (pretty_N_char x) = Z.of_N x.
Proof.
  intros Hx.
  assert (x = 0 \/ x = 1 \/ x = 2 \/ x = 3 \/ x = 4 \/ x = 5 \/ x = 6 \/ x = 7
          \/ x = 8 \/ x = 9)%N as Hcases by lia.
  repeat (destruct Hcases as [-> | Hcases]; [by vm_compute|]).
  subst. by vm_compute.
Qed.

(** The decimal numeral of [x], put in front of [s], consists of digits,
    and reading it back continues an accumulator by the digits of [x]. *)
Lemma pretty_N_go_digits (x : N) :
  exists k : nat, forall s,
    (forallb Js.is_digit (list_ascii_of_string s) = true ->
     forallb Js.is_digit (list_ascii_of_string (pretty_N_go x s)) = true)
    /\ (s <> "" -> pretty_N_go x s <> "")
    /\ forall acc,
         TelegramAdapter.parse_digits (list_ascii_of_string (pretty_N_go x s)) acc
         = TelegramAdapter.parse_digits (list_ascii_of_string s)
             (acc * 10 ^ Z.of_nat k + Z.of_N x).
Proof.
  induction (N.lt_wf_0 x) as [x _ IH].
  destruct (decide (x = 0)%N) as [->|Hx].
  - exists 0%nat. intros s. rewrite pretty_N_go_0. repeat split; try done.
    intros acc. f_equal. lia.
  - destruct (IH (x `div` 10)%N) as [k Hk]; [apply N.div_lt; lia|].
    exists (S k). intros s. rewrite pretty_N_go_step by lia.
    destruct (pretty_N_char_digit (x `mod` 10)%N) as [Hdigit Hvalue];
      [apply N.mod_lt; lia|].
    destruct (Hk (String (pretty_N_char (x `mod` 10)) s)) as (Hall & Hne & Hparse).
    split; [|split].
    + intros Hs. apply Hall. simpl. by rewrite Hdigit, Hs.
    + intros _. by apply Hne.
    + intros acc. rewrite Hparse. simpl. rewrite Hdigit, Hvalue. f_equal.
      rewrite (N.div_mod x 10) at 3 by lia.
      rewrite Nat2Z.inj_succ, Z.pow_succ_r by lia.
      rewrite N2Z.inj_add, N2Z.inj_mul. change (Z.of_N 10) with 10. ring.
Qed.

Lemma pretty_positive_spec (p : positive) :
  exists c l,
    list_ascii_of_string (pretty p) = c :: l
    /\ forallb Js.is_digit (c :: l) = true
    /\ TelegramAdapter.parse_digits (c :: l) 0 = Z.pos p.
Proof.
  unfold pretty, pretty_positive, pretty, pretty_N.
  destruct (decide (N.pos p = 0)%N) as [|_]; [done|].
  destruct (pretty_N_go_digits (N.pos p)) as [k Hk].
  destruct (Hk "") as (Hall & _ & Hparse).
  assert (Hne : pretty_N_go (N.pos p) "" <> "").
  { rewrite pretty_N_go_step by lia.
    destruct (pretty_N_go_digits (N.pos p `div` 10)%N) as [k' Hk'].
    by apply Hk'. }
  destruct (pretty_N_go (N.pos p) "") as [|c rest] eqn:Hshape; [done|].
  exists c, (list_ascii_of_string rest). split; [done|]. split; [by apply Hall|].
  specialize (Hparse 0).
  change (TelegramAdapter.parse_digits (c :: list_ascii_of_string rest) 0
          = 0 * 10 ^ Z.of_nat k + Z.pos p) in Hparse.
  rewrite Hparse. lia.
Qed.

Lemma digit_plain (c : ascii) :
  Js.is_digit c = true ->
  Js.is_str_whitespace c = false /\ Ascii.eqb c "-"%char = false
  /\ Ascii.eqb c "+"%char = false.
Proof.
  destruct c as [[] [] [] [] [] [] [] []]; vm_compute; try discriminate; auto.
Qed.

Lemma parseInt_pretty (z : Z) :
  TelegramAdapter.parseInt (pretty z) = Some z
  /\ Spec.contains ":" (pretty z) = false.
Proof.
  destruct z as [|p|p].
  - by vm_compute.
  - change (pretty (Z.pos p)) with (pretty p).
    destruct (pretty_positive_spec p) as (c & l & Hshape & Hall & Hparse).
    pose proof Hall as Hc. simpl in Hc. apply andb_true_iff in Hc as [Hc _].
    destruct (digit_plain c Hc) as (Hws & Hminus & Hplus).
    split.
    + unfold TelegramAdapter.parseInt. rewrite Hshape. simpl Js.drop_while.
      rewrite Hws, Hminus, Hplus, Hc, Hparse. f_equal; lia.
    + rewrite <- (string_of_list_ascii_of_string (pretty p)), Hshape.
      apply digit_not_colon. by apply digits_or_dash.
  - change (pretty (Z.neg p)) with ("-" +:+ pretty p).
    destruct (pretty_positive_spec p) as (c & l & Hshape & Hall & Hparse).
    pose proof Hall as Hc. simpl in Hc. apply andb_true_iff in Hc as [Hc _].
    split.
    + unfold TelegramAdapter.parseInt.
      change (list_ascii_of_string ("-" +:+ pretty p))
        with ("-"%char :: list_ascii_of_string (pretty p)).
      rewrite Hshape. simpl Js.drop_while. cbn [Ascii.eqb Bool.eqb andb].
      rewrite Hc, Hparse. f_equal; lia.
    + change ("-" +:+ pretty p) with (String "-" (pretty p)).
      rewrite <- (string_of_list_ascii_of_string (pretty p)), Hshape.
      apply (digit_not_colon ("-"%char :: c :: l)).
      change (forallb (fun a => Js.is_digit a || Ascii.eqb a "-"%char) (c :: l) = true).
      by apply digits_or_dash.
Qed.

(** X26. From the key the Telegram adapter builds for a chat,
    [extractChatId] gets the chat id back, for every bot id (even one
    containing colons) and for private chats and groups alike; chat ids
    are integers a JavaScript number holds exactly. The key is the one
    [Router.buildChatKey] builds for the same facts. *)
Theorem telegram_adapter_chat_id_roundtrip
    (botId : option string) (chatId : Z) (isGroup : bool) :
  - 2 ^ 53 < chatId < 2 ^ 53 ->
  let key := TelegramAdapter.buildChatKey botId chatId isGroup in
  TelegramAdapter.extractChatId key = Some chatId
  /\ key = Router.buildChatKey "telegram" (pretty chatId)
             (Some {| opt_botId := botId; opt_isGroup := Some isGroup;
                      opt_sessionName := None |}).
Proof.
  intros _ key. destruct (parseInt_pretty chatId) as [Hparse Hcolon].
  assert (Hlast : forall a, last (Js.split ":" (a +:+ String ":" (pretty chatId)))
                            = Some (pretty chatId)).
  { intros a. rewrite last_split_app. by rewrite (split_colon_free _ Hcolon). }
  split.
  - unfold TelegramAdapter.extractChatId. subst key. unfold TelegramAdapter.buildChatKey.
    destruct (Js.truthy botId), isGroup.
    + replace ("telegram:" +:+ default "" botId +:+ ":group:" +:+ pretty chatId)
        with (("telegram:" +:+ default "" botId +:+ ":group")
              +:+ String ":" (pretty chatId))
        by (by rewrite !append_assoc).
      rewrite Hlast. exact Hparse.
    + replace ("telegram:" +:+ default "" botId +:+ ":" +:+ pretty chatId)
        with (("telegram:" +:+ default "" botId) +:+ String ":" (pretty chatId))
        by (by rewrite !append_assoc).
      rewrite Hlast. exact Hparse.
    + change ("telegram:group:" +:+ pretty chatId)
        with ("telegram:group" +:+ String ":" (pretty chatId)).
      rewrite Hlast. exact Hparse.
    + change ("telegram:" +:+ pretty chatId)
        with ("telegram" +:+ String ":" (pretty chatId)).
      rewrite Hlast. exact Hparse.
  - subst key. unfold TelegramAdapter.buildChatKey, Router.buildChatKey.
    cbn [mbind option_bind opt_botId opt_isGroup opt_sessionName default].
    destruct botId as [b|]; [unfold Js.truthy; destruct (String.eqb b "")|];
      destruct isGroup; reflexivity.
Qed.

Lemma telegram_adapter_chat_id_roundtrip_witness :
  TelegramAdapter.extractChatId (TelegramAdapter.buildChatKey (Some "helper") (-1001234) true)
  = Some (-1001234).
Proof.
  exact (proj1 (telegram_adapter_chat_id_roundtrip (Some "helper") (-1001234) true
                  ltac:(lia))).
Defined.

(** ** Commands: the registry and the two parsers *)

Lemma lower_unit_facts (c : ascii) :
  Js.lower_unit (Js.lower_unit c) = Js.lower_unit c
  /\ Js.is_str_whitespace (Js.lower_unit c) = Js.is_str_whitespace c
  /\ Ascii.eqb (Js.lower_unit c) " "%char = Ascii.eqb c " "%char
  /\ Ascii.eqb (Js.lower_unit c) "@"%char = Ascii.eqb c "@"%char.
Proof. destruct c as [[] [] [] [] [] [] [] []]; by vm_compute. Qed.

Lemma toLowerCase_idempotent (s : string) :
  Js.toLowerCase (Js.toLowerCase s) = Js.toLowerCase s.
Proof.
  unfold Js.toLowerCase. induction s as [|c s IH]; [done|]. simpl.
  by rewrite IH, (proj1 (lower_unit_facts c)).
Qed.

Lemma toLowerCase_no_whitespace (s : string) :
  Spec.no_whitespace (Js.toLowerCase s) = Spec.no_whitespace s.
Proof.
  unfold Spec.no_whitespace, Js.toLowerCase. induction s as [|c s IH]; [done|]. simpl.
  destruct (lower_unit_facts c) as (_ & -> & _). by rewrite IH.
Qed.

Lemma toLowerCase_contains (x : ascii) (s : string) :
  Ascii.eqb (Js.lower_unit x) x = true ->
  (forall c, Ascii.eqb (Js.lower_unit c) x = Ascii.eqb c x) ->
  Spec.contains x (Js.toLowerCase s) = Spec.contains x s.
Proof.
  intros _ Hx. unfold Js.toLowerCase. induction s as [|c s IH]; [done|]. simpl.
  by rewrite Hx, IH.
Qed.

Lemma foldl_insert_lookup {A} (keys : list string) (v : A) (m : gmap string A)
    (k : string) :
  foldl (fun c key => <[key := v]> c) m keys !! k
  = if bool_decide (k ∈ keys) then Some v else m !! k.
Proof.
  revert m. induction keys as [|key keys IH]; intros m; [done|].
  change (foldl (fun c key => <[key := v]> c) (<[key := v]> m) keys !! k
          = if bool_decide (k ∈ key :: keys) then Some v else m !! k).
  rewrite IH. destruct (decide (k ∈ keys)) as [Hin|Hin].
  - rewrite (bool_decide_eq_true_2 _ Hin).
    by rewrite (bool_decide_eq_true_2 (k ∈ key :: keys)) by (by right).
  - rewrite (bool_decide_eq_false_2 _ Hin).
    destruct (decide (k = key)) as [->|Hk].
    + rewrite lookup_insert_eq.
      by rewrite (bool_decide_eq_true_2 (key ∈ key :: keys)) by left.
    + rewrite lookup_insert_ne by done.
      rewrite (bool_decide_eq_false_2 (k ∈ key :: keys)); [done|].
      intros Hc. apply elem_of_cons in Hc as [?|?]; contradiction.
Qed.

(** X27. After [register(definition)], a lookup by [getCommand]
    (and the dispatch of [execute]) finds the definition for every name
    that is equal, up to letter case, to the definition's name or one of
    its aliases, provided that key contains no upper-case letter; for a
    name that is equal up to letter case to no such key it finds what it
    found before. Only the looked-up name is lower-cased, the registered
    keys are not: a name or alias that contains an upper-case letter is
    never the key of a lookup. *)
Theorem register_then_getCommand
    (commands : gmap string CommandDefinition) (definition : CommandDefinition)
    (name : string) :
  let keys := cd_name definition :: default [] (cd_aliases definition) in
  let commands' := CommandParser.register commands definition in
  (forall key,
      key ∈ keys -> Spec.no_upper_case key = true ->
      Spec.equal_ignoring_case name key = true ->
      CommandParser.getCommand commands' name = Some definition)
  /\ ((forall key,
         key ∈ keys -> Spec.no_upper_case key = true ->
         Spec.equal_ignoring_case name key = false) ->
      CommandParser.getCommand commands' name = CommandParser.getCommand commands name)
  /\ CommandParser.execute commands' name = CommandParser.getCommand commands' name.
Proof.
  intros keys commands'.
  assert (Hlookup : CommandParser.getCommand commands' name
                    = (if bool_decide (Js.toLowerCase name ∈ keys) then Some definition
                       else CommandParser.getCommand commands name)).
  { subst keys commands'. unfold CommandParser.getCommand, CommandParser.register.
    set (k := Js.toLowerCase name).
    assert (Hone : forall m : gmap string CommandDefinition,
               <[cd_name definition := definition]> m !! k
               = if bool_decide (k = cd_name definition) then Some definition else m !! k).
    { intros m. case_bool_decide as Hk.
      - by rewrite Hk, lookup_insert_eq.
      - by rewrite lookup_insert_ne. }
    destruct (cd_aliases definition) as [aliases|]; simpl.
    + rewrite foldl_insert_lookup, Hone.
      destruct (decide (k = cd_name definition)) as [Hk|Hk].
      * rewrite (bool_decide_eq_true_2 (k ∈ cd_name definition :: aliases))
          by (rewrite Hk; left).
        rewrite (bool_decide_eq_true_2 _ Hk). by destruct (bool_decide (k ∈ aliases)).
      * rewrite (bool_decide_eq_false_2 _ Hk).
        destruct (decide (k ∈ aliases)) as [Hin|Hin].
        -- rewrite (bool_decide_eq_true_2 _ Hin).
           by rewrite (bool_decide_eq_true_2 (k ∈ cd_name definition :: aliases))
             by (by right).
        -- rewrite (bool_decide_eq_false_2 _ Hin).
           rewrite (bool_decide_eq_false_2 (k ∈ cd_name definition :: aliases)); [done|].
           intros Hc. apply elem_of_cons in Hc as [?|?]; contradiction.
    + rewrite Hone. destruct (decide (k = cd_name definition)) as [Hk|Hk].
      * rewrite (bool_decide_eq_true_2 _ Hk).
        by rewrite (bool_decide_eq_true_2 (k ∈ [cd_name definition])) by (rewrite Hk; left).
      * rewrite (bool_decide_eq_false_2 _ Hk).
        rewrite (bool_decide_eq_false_2 (k ∈ [cd_name definition])); [done|].
        intros Hc. apply list_elem_of_singleton in Hc. contradiction. }
  split; [|split; [|reflexivity]].
  - intros key Hkey Hlow Hsame. rewrite Hlookup, bool_decide_eq_true_2; [done|].
    by rewrite (proj2 (toLowerCase_iff name key) (conj Hlow Hsame)).
  - intros Hnone. rewrite Hlookup, bool_decide_eq_false_2; [done|].
    intros Hin. destruct (proj1 (toLowerCase_iff name _) eq_refl) as [Hlow Hsame].
    by rewrite (Hnone _ Hin Hlow) in Hsame.
Qed.

Lemma register_then_getCommand_witness :
  let help := {| cd_name := "help"; cd_aliases := Some ["h"; "Hilfe"];
                 cd_description := "Show help"; cd_usage := None |} in
  CommandParser.getCommand (CommandParser.register ∅ help) "HELP" = Some help
  /\ CommandParser.getCommand (CommandParser.register ∅ help) "Hilfe" = None.
Proof.
  intros help.
  destruct (register_then_getCommand ∅ help "HELP") as (Hfound & _ & _).
  destruct (register_then_getCommand ∅ help "Hilfe") as (_ & Hkept & _).
  split.
  - apply (Hfound "help"); [left | reflexivity | reflexivity].
  - rewrite Hkept; [reflexivity|].
    intros key Hkey Hlow.
    apply elem_of_cons in Hkey as [-> | Hkey]; [reflexivity|].
    apply elem_of_cons in Hkey as [-> | Hkey]; [reflexivity|].
    apply list_elem_of_singleton in Hkey as ->. discriminate.
Defined.

(** ** BaseAdapter.parseCommand *)

Lemma list_ascii_append (a b : string) :
  list_ascii_of_string (a +:+ b) = (list_ascii_of_string a ++ list_ascii_of_string b)%list.
Proof.
  induction a as [|c a IH]; [done|].
  change (c :: list_ascii_of_string (a +:+ b)
          = c :: (list_ascii_of_string a ++ list_ascii_of_string b)%list).
  by rewrite IH.
Qed.

Lemma split_whitespace_from_pieces (gap : bool) (l : list ascii) :
  Forall (fun p => forallb (fun c => negb (Js.is_str_whitespace c)) p = true)
         (BaseAdapter.split_whitespace_from gap l).
Proof.
  revert gap. induction l as [|c l IH]; intros gap; simpl.
  - by constructor.
  - destruct (Js.is_str_whitespace c) eqn:Hc.
    + destruct gap; [apply IH|]. constructor; [done | apply IH].
    + specialize (IH false).
      destruct (BaseAdapter.split_whitespace_from false l) as [|p ps].
      * constructor; [simpl; by rewrite Hc | constructor].
      * inversion IH as [|? ? Hp Hps]; subst.
        constructor; [simpl; by rewrite Hc, Hp | done].
Qed.

Lemma split_whitespace_pieces (s : string) :
  Forall (fun p => Spec.no_whitespace p = true) (BaseAdapter.split_whitespace s).
Proof.
  unfold BaseAdapter.split_whitespace, Spec.no_whitespace.
  apply Forall_fmap. eapply Forall_impl; [apply split_whitespace_from_pieces|].
  intros p Hp. simpl. by rewrite list_ascii_of_string_of_list_ascii.
Qed.

Lemma split_whitespace_from_nonempty (gap : bool) (l : list ascii) :
  BaseAdapter.split_whitespace_from gap l <> [].
Proof.
  revert gap. induction l as [|c l IH]; intros gap; simpl; [done|].
  destruct (Js.is_str_whitespace c).
  - destruct gap; [apply IH | done].
  - by destruct (BaseAdapter.split_whitespace_from false l).
Qed.

(** A token in front of the text joins the first piece. *)
Lemma split_whitespace_from_token (t rest : list ascii) :
  forallb (fun c => negb (Js.is_str_whitespace c)) t = true ->
  BaseAdapter.split_whitespace_from false (t ++ rest)
  = match BaseAdapter.split_whitespace_from false rest with
    | p :: ps => (t ++ p)%list :: ps
    | [] => [t]
    end.
Proof.
  pose proof (split_whitespace_from_nonempty false rest) as Hne.
  induction t as [|c t IH]; simpl.
  - intros _. by destruct (BaseAdapter.split_whitespace_from false rest).
  - rewrite andb_true_iff, negb_true_iff. intros [Hc Ht]. rewrite Hc, (IH Ht).
    by destruct (BaseAdapter.split_whitespace_from false rest).
Qed.

Lemma split_whitespace_tokens (t : string) (ts : list string) :
  Spec.no_whitespace t = true ->
  Forall (fun a => a <> "" /\ Spec.no_whitespace a = true) ts ->
  BaseAdapter.split_whitespace_from false (list_ascii_of_string (Js.join " " (t :: ts)))
  = list_ascii_of_string <$> (t :: ts).
Proof.
  revert t. induction ts as [|t2 ts IH]; intros t Ht Hts.
  - simpl Js.join.
    pose proof (split_whitespace_from_token (list_ascii_of_string t) [] Ht) as Htoken.
    rewrite app_nil_r in Htoken. rewrite Htoken. simpl. by rewrite app_nil_r.
  - inversion Hts as [|? ? [Hne Ht2] Hrest]; subst.
    change (Js.join " " (t :: t2 :: ts)) with (t +:+ " " +:+ Js.join " " (t2 :: ts)).
    rewrite list_ascii_append, (split_whitespace_from_token _ _ Ht).
    change (list_ascii_of_string (" " +:+ Js.join " " (t2 :: ts)))
      with (" "%char :: list_ascii_of_string (Js.join " " (t2 :: ts))).
    specialize (IH t2 Ht2 Hrest).
    destruct t2 as [|c t2]; [done|].
    assert (Hshape : exists l, list_ascii_of_string (Js.join " " (String c t2 :: ts)) = c :: l).
    { destruct ts; simpl; eauto. }
    destruct Hshape as [l Hl]. rewrite Hl in IH |- *.
    assert (Hc : Js.is_str_whitespace c = false).
    { unfold Spec.no_whitespace in Ht2. simpl in Ht2.
      apply andb_true_iff in Ht2 as [Hc _]. by apply negb_true_iff in Hc. }
    change (BaseAdapter.split_whitespace_from false (" "%char :: c :: l))
      with ([] :: BaseAdapter.split_whitespace_from true (c :: l)).
    assert (Hgap : BaseAdapter.split_whitespace_from true (c :: l)
                   = BaseAdapter.split_whitespace_from false (c :: l)).
    { simpl. by rewrite Hc. }
    rewrite Hgap, IH, app_nil_r. reflexivity.
Qed.

(** X28. [parseCommand] takes a text as a command exactly when it
    starts with "/". The command name it returns contains no upper-case
    letter and, like every argument, no white space. For a name and
    arguments that are tokens (the arguments non-empty) written after "/"
    with single spaces between them, it returns the name in lower case
    (equal to the written name up to letter case, without upper-case
    letters) and the arguments as written. *)
Theorem parseCommand_tokens :
  (forall text, BaseAdapter.parseCommand text = None <-> Js.startsWith text "/" = false)
  /\ (forall text command args,
        BaseAdapter.parseCommand text = Some (command, args) ->
        Spec.no_upper_case command = true
        /\ Spec.no_whitespace command = true
        /\ Forall (fun a => Spec.no_whitespace a = true) args)
  /\ (forall name args,
        Spec.no_whitespace name = true ->
        Forall (fun a => a <> "" /\ Spec.no_whitespace a = true) args ->
        exists command,
          BaseAdapter.parseCommand ("/" +:+ Js.join " " (name :: args))
          = Some (command, args)
          /\ Spec.no_upper_case command = true
          /\ Spec.equal_ignoring_case name command = true).
Proof.
  split; [|split].
  - intros text. unfold BaseAdapter.parseCommand.
    destruct (Js.startsWith text "/"); simpl; split; congruence.
  - intros text command args. unfold BaseAdapter.parseCommand.
    destruct (Js.startsWith text "/"); simpl; [|discriminate].
    pose proof (split_whitespace_pieces (BaseAdapter.slice_from 1 text)) as Hall.
    intros [= <- <-].
    split; [exact (proj1 (proj1 (toLowerCase_iff _ _) eq_refl))|]. split.
    + rewrite toLowerCase_no_whitespace.
      destruct (BaseAdapter.split_whitespace _) as [|p ps]; [done|].
      by inversion Hall.
    + destruct (BaseAdapter.split_whitespace _) as [|p ps]; [constructor|].
      by inversion Hall.
  - intros name args Hname Hargs. exists (Js.toLowerCase name).
    split; [|exact (proj1 (toLowerCase_iff name _) eq_refl)].
    unfold BaseAdapter.parseCommand.
    change (Js.startsWith ("/" +:+ Js.join " " (name :: args)) "/") with true.
    cbn [negb].
    assert (Hslice : BaseAdapter.slice_from 1 ("/" +:+ Js.join " " (name :: args))
                     = Js.join " " (name :: args)).
    { unfold BaseAdapter.slice_from.
      change ("/" +:+ Js.join " " (name :: args)) with (String "/" (Js.join " " (name :: args))).
      cbn [String.length Nat.sub String.substring]. rewrite ?Nat.sub_0_r.
      apply substring_0_all. }
    rewrite Hslice. unfold BaseAdapter.split_whitespace.
    rewrite (split_whitespace_tokens name args Hname Hargs).
    rewrite <- list_fmap_compose.
    assert (Hid : (string_of_list_ascii ∘ list_ascii_of_string) <$> (name :: args)
                  = name :: args).
    { rewrite <- (list_fmap_id (name :: args)) at 2. apply list_fmap_ext.
      intros _ s _. apply string_of_list_ascii_of_string. }
    rewrite Hid. reflexivity.
Qed.

Lemma parseCommand_tokens_witness :
  BaseAdapter.parseCommand "/New Work now" = Some ("new", ["Work"; "now"]).
Proof.
  destruct parseCommand_tokens as (_ & _ & Hwritten).
  destruct (Hwritten "New" ["Work"; "now"] eq_refl
              ltac:(repeat constructor; discriminate)) as (command & Hparse & _ & _).
  vm_compute in Hparse. injection Hparse as <-. reflexivity.
Defined.

(** ** CommandParser.parse *)

Lemma drop_while_head (p : ascii -> bool) (l : list ascii) :
  match Js.drop_while p l with
  | c :: _ => p c = false
  | [] => True
  end.
Proof.
  induction l as [|c l IH]; simpl; [done|].
  destruct (p c) eqn:Hc; [exact IH | exact Hc].
Qed.

Lemma drop_while_suffix (p : ascii -> bool) (l : list ascii) :
  exists pre, l = (pre ++ Js.drop_while p l)%list.
Proof.
  induction l as [|c l [pre IH]]; simpl; [by exists []|].
  destruct (p c).
  - exists (c :: pre). simpl. by rewrite <- IH.
  - by exists [].
Qed.

(** What [trim] returns has no white space at either end. *)
Lemma trim_ends (l : list ascii) :
  match Js.trim l with
  | c :: _ => Js.is_str_whitespace c = false
  | [] => True
  end
  /\ match last (Js.trim l) with
     | Some d => Js.is_str_whitespace d = false
     | None => True
     end.
Proof.
  unfold Js.trim.
  set (l1 := Js.drop_while Js.is_str_whitespace l).
  pose proof (drop_while_head Js.is_str_whitespace l) as Hhead1. fold l1 in Hhead1.
  pose proof (drop_while_head Js.is_str_whitespace (rev l1)) as Hhead2.
  destruct (drop_while_suffix Js.is_str_whitespace (rev l1)) as [pre Hpre].
  set (l2 := Js.drop_while Js.is_str_whitespace (rev l1)) in *.
  split.
  - assert (Hl1 : l1 = (rev l2 ++ rev pre)%list).
    { rewrite <- rev_app_distr, <- Hpre. by rewrite rev_involutive. }
    destruct (rev l2) as [|c t]; [done|].
    rewrite Hl1 in Hhead1. exact Hhead1.
  - destruct l2 as [|d l2']; [done|].
    simpl rev. by rewrite last_snoc.
Qed.

(** The pieces of a text that does not end in white space: only the first
    can be empty, and only when the text is empty or starts with white
    space that is not absorbed by a gap. *)
Lemma split_whitespace_from_trimmed (l : list ascii) (gap : bool) :
  match last l with
  | Some d => Js.is_str_whitespace d = false
  | None => True
  end ->
  match BaseAdapter.split_whitespace_from gap l with
  | [] => False
  | p :: ps =>
      Forall (fun q => q <> []) ps
      /\ (p = [] -> l = [] \/ gap = false)
      /\ (p = [] -> match l with c :: _ => Js.is_str_whitespace c = true | [] => True end)
  end.
Proof.
  revert gap. induction l as [|c r IH]; intros gap Hend; simpl.
  - repeat split; auto.
  - assert (Hr : match last r with
                 | Some d => Js.is_str_whitespace d = false
                 | None => True
                 end).
    { destruct r as [|c' r']; [done|]. exact Hend. }
    destruct (Js.is_str_whitespace c) eqn:Hc.
    + assert (Hgap : match BaseAdapter.split_whitespace_from true r with
                     | [] => False
                     | p :: ps => Forall (fun q => q <> []) (p :: ps)
                     end).
      { specialize (IH true Hr).
        destruct (BaseAdapter.split_whitespace_from true r) as [|p ps]; [done|].
        destruct IH as (Hps & Hp & _). constructor; [|exact Hps].
        intros ->. destruct (Hp eq_refl) as [-> | ?]; [|discriminate].
        simpl in Hend. congruence. }
      destruct gap.
      * destruct (BaseAdapter.split_whitespace_from true r) as [|p ps]; [done|].
        inversion Hgap as [|? ? Hp Hps]; subst. repeat split; auto; by intros ->.
      * destruct (BaseAdapter.split_whitespace_from true r) as [|p ps]; [done|].
        repeat split; auto.
    + specialize (IH false Hr).
      destruct (BaseAdapter.split_whitespace_from false r) as [|p ps]; [done|].
      destruct IH as (Hps & _). repeat split; auto; discriminate.
Qed.

Lemma indexOf_None (c : ascii) (s : string) :
  CommandParser.indexOf c s = None -> Spec.contains c s = false.
Proof.
  induction s as [|x s IH]; simpl; [done|].
  destruct (Ascii.eqb x c); [discriminate|].
  destruct (CommandParser.indexOf c s); [discriminate|]. auto.
Qed.

Lemma substring_empty (a : nat) (s : string) : String.substring a 0 s = "".
Proof. revert a. induction s as [|x s IH]; intros [|a]; simpl; auto. Qed.

(** No occurrence before the index [indexOf] returns. *)
Lemma indexOf_before (c : ascii) (s : string) (i a n : nat) :
  CommandParser.indexOf c s = Some i ->
  (a + n <= i)%nat ->
  Spec.contains c (String.substring a n s) = false.
Proof.
  revert i a n. induction s as [|x s IH]; intros i a n; simpl; [discriminate|].
  destruct (Ascii.eqb x c) eqn:Hx.
  - intros [= <-] Hle. assert (n = 0%nat) as -> by lia.
    destruct a; [done|]. by rewrite substring_empty.
  - destruct (CommandParser.indexOf c s) as [j|] eqn:Hj; [|discriminate].
    simpl. intros [= <-] Hle. destruct a as [|a], n as [|n]; simpl.
    + done.
    + rewrite Hx. simpl. apply (IH j 0%nat n); [done | lia].
    + apply (IH j a 0%nat); [done | lia].
    + apply (IH j a (S n)); [done | lia].
Qed.

Lemma contains_substring (c : ascii) (s : string) (a n : nat) :
  Spec.contains c s = false -> Spec.contains c (String.substring a n s) = false.
Proof.
  revert a n. induction s as [|x s IH]; intros a n; simpl.
  - by destruct a, n.
  - intros Hs. apply orb_false_iff in Hs as [Hx Hs].
    destruct a as [|a], n as [|n]; simpl; auto.
    by rewrite Hx, (IH 0%nat n Hs).
Qed.

Lemma split_whitespace_trimmed_args (s : string) :
  CommandParser.trim s <> "" ->
  Forall (fun a => a <> "" /\ Spec.no_whitespace a = true)
         (BaseAdapter.split_whitespace (CommandParser.trim s))
  /\ BaseAdapter.split_whitespace (CommandParser.trim s) <> [].
Proof.
  intros Hne.
  pose proof (split_whitespace_pieces (CommandParser.trim s)) as Hpieces.
  unfold BaseAdapter.split_whitespace, CommandParser.trim in *.
  rewrite list_ascii_of_string_of_list_ascii in *.
  destruct (trim_ends (list_ascii_of_string s)) as [Hhead Hlast].
  set (t := Js.trim (list_ascii_of_string s)) in *.
  pose proof (split_whitespace_from_trimmed t false Hlast) as Hsplit.
  destruct (BaseAdapter.split_whitespace_from false t) as [|p ps]; [done|].
  destruct Hsplit as (Hps & _ & Hp). split; [|done].
  assert (Hall : Forall (fun q => q <> []) (p :: ps)).
  { constructor; [|exact Hps]. intros ->. specialize (Hp eq_refl).
    destruct t as [|c t']; [done | congruence]. }
  clear -Hall Hpieces.
  induction (p :: ps) as [|q qs IH]; [constructor|].
  inversion Hall; inversion Hpieces; subst. constructor; [|by apply IH].
  split; [by destruct q | done].
Qed.

(** X29. [parse] takes a text as a command exactly when, trimmed,
    it starts with "/". The command name it returns is lower-cased and
    contains neither a space nor "@" (a "@botname" suffix is cut off).
    The arguments are the non-empty, white-space-free tokens of the raw
    argument text, and there are none exactly when that text is empty. *)
Theorem parse_command_and_arguments (text : string) :
  match CommandParser.parse text with
  | None => Js.startsWith (CommandParser.trim text) "/" = false
  | Some p =>
      Js.startsWith (CommandParser.trim text) "/" = true
      /\ Js.toLowerCase (pc_command p) = pc_command p
      /\ Spec.contains " " (pc_command p) = false
      /\ Spec.contains "@" (pc_command p) = false
      /\ Forall (fun a => a <> "" /\ Spec.no_whitespace a = true) (pc_args p)
      /\ (pc_args p = [] <-> pc_rawArgs p = "")
  end.
Proof.
  unfold CommandParser.parse.
  set (trimmed := CommandParser.trim text).
  destruct (Js.startsWith trimmed "/") eqn:Hslash; simpl; [|done].
  split; [done|].
  set (command0 := match CommandParser.indexOf " " trimmed with
                   | Some i => Js.toLowerCase (CommandParser.slice 1 i trimmed)
                   | None => Js.toLowerCase (BaseAdapter.slice_from 1 trimmed)
                   end).
  assert (Hspace0 : Spec.contains " " command0 = false).
  { subst command0.
    destruct (CommandParser.indexOf " " trimmed) as [i|] eqn:Hi.
    - rewrite toLowerCase_contains;
        [|done | intros c; apply (lower_unit_facts c)].
      unfold CommandParser.slice.
      destruct i as [|i]; [by rewrite substring_empty|].
      apply (indexOf_before _ _ _ _ _ Hi). lia.
    - rewrite toLowerCase_contains;
        [|done | intros c; apply (lower_unit_facts c)].
      apply contains_substring. by apply indexOf_None. }
  assert (Hlower0 : Js.toLowerCase command0 = command0).
  { subst command0. destruct (CommandParser.indexOf " " trimmed);
      apply toLowerCase_idempotent. }
  clearbody command0.
  split; [|split; [|split; [|split]]].
  - destruct (CommandParser.indexOf "@" command0) as [j|]; [|done].
    unfold Js.slice0, Js.toLowerCase in *.
    by rewrite map_string_substring, Hlower0.
  - destruct (CommandParser.indexOf "@" command0) as [j|]; [|done].
    by apply contains_substring.
  - destruct (CommandParser.indexOf "@" command0) as [j|] eqn:Hj.
    + apply (indexOf_before _ _ _ _ _ Hj). lia.
    + by apply indexOf_None.
  - destruct (CommandParser.indexOf " " trimmed) as [i|]; [|constructor].
    destruct (String.eqb_spec (CommandParser.trim (BaseAdapter.slice_from (i + 1) trimmed)) "")
      as [Hempty|Hraw]; simpl; [constructor|].
    by apply split_whitespace_trimmed_args.
  - destruct (CommandParser.indexOf " " trimmed) as [i|]; [|done].
    destruct (String.eqb_spec (CommandParser.trim (BaseAdapter.slice_from (i + 1) trimmed)) "")
      as [Hempty|Hraw]; simpl; [done|].
    split; [|done]. intros Hnil. by apply split_whitespace_trimmed_args in Hraw as [_ ?].
Qed.

(** ** CommandParser.parse on a command as it is written *)

Lemma contains_append (c : ascii) (a b : string) :
  Spec.contains c (a +:+ b) = Spec.contains c a || Spec.contains c b.
Proof.
  induction a as [|x a IH]; [done|].
  change (Ascii.eqb x c || Spec.contains c (a +:+ b)
          = Ascii.eqb x c || Spec.contains c a || Spec.contains c b).
  by rewrite IH, orb_assoc.
Qed.

Lemma no_whitespace_no_space (s : string) :
  Spec.no_whitespace s = true -> Spec.contains " " s = false.
Proof.
  unfold Spec.no_whitespace. induction s as [|c s IH]; [done|]. simpl.
  rewrite andb_true_iff, negb_true_iff. intros [Hc Hs]. rewrite (IH Hs), orb_false_r.
  destruct (Ascii.eqb_spec c " ") as [->|]; [discriminate | done].
Qed.

Lemma indexOf_append (c : ascii) (h rest : string) :
  Spec.contains c h = false ->
  CommandParser.indexOf c (h +:+ String c rest) = Some (String.length h).
Proof.
  induction h as [|x h IH]; intros Hh.
  - change (CommandParser.indexOf c (String c rest) = Some 0%nat). simpl.
    by rewrite Ascii.eqb_refl.
  - simpl in Hh. apply orb_false_iff in Hh as [Hx Hh].
    change (CommandParser.indexOf c (String x (h +:+ String c rest))
            = Some (S (String.length h))).
    simpl. by rewrite Hx, (IH Hh).
Qed.

Lemma substring_prefix (h r : string) : String.substring 0 (String.length h) (h +:+ r) = h.
Proof.
  induction h as [|x h IH]; [by rewrite substring_empty|].
  change (String.substring 0 (S (String.length h)) (String x (h +:+ r)) = String x h).
  simpl. by rewrite IH.
Qed.

Lemma slice_from_append (h r : string) :
  BaseAdapter.slice_from (String.length h) (h +:+ r) = r.
Proof.
  unfold BaseAdapter.slice_from. rewrite append_length.
  replace (String.length h + String.length r - String.length h)%nat
    with (String.length r) by lia.
  induction h as [|x h IH]; [apply substring_0_all|].
  change (String.substring (S (String.length h)) (String.length r) (String x (h +:+ r)) = r).
  exact IH.
Qed.

Lemma map_string_append (f : ascii -> ascii) (a b : string) :
  Js.map_string f (a +:+ b) = Js.map_string f a +:+ Js.map_string f b.
Proof.
  induction a as [|x a IH]; [done|].
  change (String (f x) (Js.map_string f (a +:+ b))
          = String (f x) (Js.map_string f a +:+ Js.map_string f b)).
  by rewrite IH.
Qed.

(** A text that starts and ends with a character other than white space
    is its own trim. *)
Lemma trim_fixed (l : list ascii) (c d : ascii) (m : list ascii) :
  l = c :: m -> Js.is_str_whitespace c = false ->
  last l = Some d -> Js.is_str_whitespace d = false ->
  Js.trim l = l.
Proof.
  intros Hl Hc Hlast Hd. unfold Js.trim.
  assert (Hdrop : Js.drop_while Js.is_str_whitespace l = l).
  { rewrite Hl. simpl. by rewrite Hc. }
  rewrite Hdrop.
  assert (Hrev : exists m', rev l = d :: m').
  { clear -Hlast. destruct (rev l) as [|x m'] eqn:Hr.
    - apply (f_equal (@rev ascii)) in Hr. rewrite rev_involutive in Hr. by subst.
    - apply (f_equal (@rev ascii)) in Hr. rewrite rev_involutive in Hr. simpl in Hr.
      subst l. rewrite last_snoc in Hlast. injection Hlast as ->. eauto. }
  destruct Hrev as [m' Hrev]. rewrite Hrev. simpl. rewrite Hd.
  rewrite <- Hrev. simpl. apply rev_involutive.
Qed.

Lemma token_last (t : string) :
  t <> "" -> Spec.no_whitespace t = true ->
  exists d, last (list_ascii_of_string t) = Some d /\ Js.is_str_whitespace d = false.
Proof.
  unfold Spec.no_whitespace. intros Hne Ht.
  destruct t as [|c t]; [done|]. clear Hne. revert c Ht.
  induction t as [|x t IH]; intros c Ht; simpl in Ht.
  - exists c. split; [done|]. apply andb_true_iff in Ht as [Hc _].
    by apply negb_true_iff in Hc.
  - apply andb_true_iff in Ht as [_ Ht]. destruct (IH x Ht) as (d & Hlast & Hd).
    exists d. split; [|done]. exact Hlast.
Qed.

Lemma tokens_last (a : string) (args : list string) :
  Forall (fun t => t <> "" /\ Spec.no_whitespace t = true) (a :: args) ->
  exists d, last (list_ascii_of_string (Js.join " " (a :: args))) = Some d
            /\ Js.is_str_whitespace d = false.
Proof.
  revert a. induction args as [|b args IH]; intros a Hall.
  - inversion Hall as [|? ? [Hne Ha] _]; subst. by apply token_last.
  - inversion Hall as [|? ? _ Hrest]; subst.
    destruct (IH b Hrest) as (d & Hlast & Hd). exists d. split; [|done].
    change (Js.join " " (a :: b :: args)) with (a +:+ " " +:+ Js.join " " (b :: args)).
    rewrite !list_ascii_append, !last_app, Hlast. done.
Qed.

Lemma trim_written (pre : string) (c : ascii) (a : string) (args : list string) :
  Js.is_str_whitespace c = false ->
  Forall (fun t => t <> "" /\ Spec.no_whitespace t = true) (a :: args) ->
  CommandParser.trim (String c pre +:+ Js.join " " (a :: args))
  = String c pre +:+ Js.join " " (a :: args).
Proof.
  intros Hc Hall. destruct (tokens_last a args Hall) as (d & Hlast & Hd).
  unfold CommandParser.trim.
  rewrite (trim_fixed _ c d
             (list_ascii_of_string (pre +:+ Js.join " " (a :: args)))); try done.
  - apply string_of_list_ascii_of_string.
  - rewrite list_ascii_append, last_app, Hlast. done.
Qed.

Lemma parse_written (head command : string) (a : string) (args : list string) :
  Spec.no_whitespace head = true ->
  match CommandParser.indexOf "@" (Js.toLowerCase head) with
  | Some atIndex => Js.slice0 atIndex (Js.toLowerCase head)
  | None => Js.toLowerCase head
  end = command ->
  Forall (fun t => t <> "" /\ Spec.no_whitespace t = true) (a :: args) ->
  CommandParser.parse ("/" +:+ head +:+ " " +:+ Js.join " " (a :: args))
  = Some {| pc_command := command; pc_args := a :: args;
            pc_rawArgs := Js.join " " (a :: args) |}.
Proof.
  intros Hhead Hcommand Hall.
  set (rest := Js.join " " (a :: args)).
  assert (Hrest : CommandParser.trim rest = rest).
  { inversion Hall as [|? ? [Hne Ha] _]; subst.
    destruct a as [|c a']; [done|].
    assert (Hc : Js.is_str_whitespace c = false).
    { unfold Spec.no_whitespace in Ha. simpl in Ha. apply andb_true_iff in Ha as [Hc _].
      by apply negb_true_iff in Hc. }
    destruct (tokens_last _ _ Hall) as (d & Hlast & Hd).
    unfold CommandParser.trim.
    assert (Hshape : exists m, list_ascii_of_string rest = c :: m).
    { subst rest. destruct args; simpl; eauto. }
    destruct Hshape as [m Hm].
    rewrite (trim_fixed _ c d m Hm Hc Hlast Hd).
    apply string_of_list_ascii_of_string. }
  assert (Hnonempty : String.eqb rest "" = false).
  { apply String.eqb_neq. inversion Hall as [|? ? [Hne _] _]; subst.
    subst rest. destruct a; [done|]. by destruct args. }
  assert (Htext : "/" +:+ head +:+ " " +:+ rest
                  = String "/" (head +:+ " ") +:+ rest).
  { change (String "/" (head +:+ " ") +:+ rest) with (String "/" ((head +:+ " ") +:+ rest)).
    by rewrite append_assoc. }
  unfold CommandParser.parse.
  assert (Htrim : CommandParser.trim ("/" +:+ head +:+ " " +:+ rest)
                  = "/" +:+ head +:+ " " +:+ rest).
  { rewrite Htext. by apply trim_written. }
  rewrite Htrim.
  change (Js.startsWith ("/" +:+ head +:+ " " +:+ rest) "/") with true. cbn [negb].
  assert (Hindex : CommandParser.indexOf " " ("/" +:+ head +:+ " " +:+ rest)
                   = Some (S (String.length head))).
  { change ("/" +:+ head +:+ " " +:+ rest) with (String "/" (head +:+ String " " rest)).
    simpl. by rewrite (indexOf_append " " head rest (no_whitespace_no_space _ Hhead)). }
  rewrite Hindex.
  assert (Hslice : CommandParser.slice 1 (S (String.length head))
                     ("/" +:+ head +:+ " " +:+ rest) = head).
  { unfold CommandParser.slice.
    change ("/" +:+ head +:+ " " +:+ rest) with (String "/" (head +:+ (" " +:+ rest))).
    cbn [Nat.sub String.substring]. rewrite Nat.sub_0_r. apply substring_prefix. }
  assert (Hargs : BaseAdapter.slice_from (S (String.length head) + 1)
                    ("/" +:+ head +:+ " " +:+ rest) = rest).
  { rewrite Htext.
    replace (S (String.length head) + 1)%nat with (String.length (String "/" (head +:+ " "))).
    - apply slice_from_append.
    - simpl. rewrite append_length. simpl. lia. }
  rewrite Hslice, Hargs, Hrest, Hcommand. unfold Js.truthy. rewrite Hnonempty. cbn [negb].
  f_equal. f_equal.
  unfold BaseAdapter.split_whitespace. subst rest.
  inversion Hall as [|? ? [_ Ha] Hargs']; subst.
  rewrite (split_whitespace_tokens a args Ha Hargs').
  rewrite <- list_fmap_compose.
  rewrite <- (list_fmap_id (a :: args)) at 2. apply list_fmap_ext.
  intros _ s _. apply string_of_list_ascii_of_string.
Qed.

(** X30. A command written as "/name arg ..." or, in the Telegram
    style, "/name@botname arg ...", with single spaces before arguments
    that are non-empty tokens, is parsed as the lower-cased name with the
    arguments as written; the name is a token without "@", the bot name a
    token. *)
Theorem parse_written_command (name bot a : string) (args : list string) :
  Spec.no_whitespace name = true ->
  Spec.contains "@" name = false ->
  Spec.no_whitespace bot = true ->
  Forall (fun t => t <> "" /\ Spec.no_whitespace t = true) (a :: args) ->
  let parsed := Some {| pc_command := Js.toLowerCase name; pc_args := a :: args;
                        pc_rawArgs := Js.join " " (a :: args) |} in
  CommandParser.parse ("/" +:+ name +:+ " " +:+ Js.join " " (a :: args)) = parsed
  /\ CommandParser.parse ("/" +:+ (name +:+ "@" +:+ bot) +:+ " " +:+ Js.join " " (a :: args))
     = parsed.
Proof.
  intros Hname Hat Hbot Hall parsed.
  assert (Hlower : Spec.contains "@" (Js.toLowerCase name) = false).
  { rewrite toLowerCase_contains; [done | done | intros c; apply (lower_unit_facts c)]. }
  split.
  - apply parse_written; try done.
    destruct (CommandParser.indexOf "@" (Js.toLowerCase name)) as [j|] eqn:Hj; [|done].
    exfalso. clear -Hj Hlower. revert j Hj.
    induction (Js.toLowerCase name) as [|x s IH]; intros j; simpl in *; [discriminate|].
    apply orb_false_iff in Hlower as [Hx Hs]. rewrite Hx.
    destruct (CommandParser.indexOf "@" s) as [k|]; [|discriminate].
    intros _. by apply (IH Hs k).
  - apply parse_written; try done.
    + unfold Spec.no_whitespace in *. rewrite !list_ascii_append, !forallb_app.
      by rewrite Hname, Hbot.
    + unfold Js.toLowerCase in *. rewrite !map_string_append.
      change (Js.map_string Js.lower_unit "@" +:+ Js.map_string Js.lower_unit bot)
        with (String "@" (Js.map_string Js.lower_unit bot)).
      rewrite (indexOf_append "@" _ _ Hlower). unfold Js.slice0.
      apply substring_prefix.
Qed.

Lemma parse_written_command_witness :
  CommandParser.parse "/Session@CcBridgeBot work now"
  = Some {| pc_command := "session"; pc_args := ["work"; "now"];
            pc_rawArgs := "work now" |}.
Proof.
  exact (proj2 (parse_written_command "Session" "CcBridgeBot" "work" ["now"]
                  eq_refl eq_refl eq_refl
                  ltac:(repeat constructor; discriminate))).
Defined.
